(** * EfficientDet model function: schedules, losses and graph construction

    A shallow embedding of [efficientdet/det_model_fn.py].

    Numbers.  Integers of the parameter dictionary are [Z].  A Python float
    is an IEEE 754 binary64 number, held as the rational [Q] it denotes;
    every float operation of the schedule parameters rounds its exact result
    to the nearest binary64 number, ties to even ([round64]), and a number
    of the dictionary enters float arithmetic rounded in the same way.  The
    exponent range of binary64 is not modelled: no overflow to infinity, no
    subnormal numbers.  Values that live in TensorFlow tensors (float32 in
    the source) are real numbers [R]: the embedding describes the arithmetic
    the graph performs and leaves rounding, overflow, infinities and NaN of
    float32 out.  A Python number entering a tensor expression is converted
    with [Q2R] or [IZR], where the source converts it to a float32 constant.

    Tensors.  A tensor is the row-major list of its elements.  [tf.reshape]
    keeps that list as it is, so it is the identity here.  An elementwise
    operation of two tensors asks for as many elements on both sides and
    raises [ValueError] otherwise, as the shape check at graph construction
    does; a Python scalar operand is applied to every element.

    Exceptions.  A function that can raise returns a [result].  The model
    function also records, in order, the calls it makes into TensorFlow and
    into the other modules of the repository. *)

From Stdlib Require Import Reals Lra Lia ZArith QArith Qabs Qreals Qround Qpower.
From Stdlib Require Import Bool Ascii String List DecimalString.
From Stdlib Require Lqa.
Import ListNotations.

Open Scope R_scope.

(** ** Exceptions and results *)

Inductive exn : Type :=
| ValueError (msg : string)
| RuntimeError (msg : string)
| KeyError (key : string)
| ZeroDivisionError.

Inductive result (A : Type) : Type :=
| Ok (a : A)
| Raise (e : exn).

Arguments Ok {A} a.
Arguments Raise {A} e.

Definition bind {A B : Type} (m : result A) (k : A -> result B) : result B :=
  match m with
  | Ok a => k a
  | Raise e => Raise e
  end.

Notation "x <- m ;; k" := (bind m (fun x => k))
  (at level 61, m at next level, right associativity).

Definition is_ok {A : Type} (m : result A) : bool :=
  match m with Ok _ => true | Raise _ => false end.

(** ** Strings *)

(** ['{}'.format(v)] appended to a fixed text. *)
Definition format1 (text v : string) : string := (text ++ v)%string.

(** Python's [needle in hay] on strings. *)
Fixpoint contains (needle hay : string) : bool :=
  if prefix needle hay then true
  else match hay with
       | EmptyString => false
       | String _ rest => contains needle rest
       end.

Definition lower_ascii (c : ascii) : ascii :=
  let n := nat_of_ascii c in
  if (65 <=? n)%nat && (n <=? 90)%nat then ascii_of_nat (n + 32) else c.

(** [str.lower()] on ASCII text. *)
Fixpoint lower (s : string) : string :=
  match s with
  | EmptyString => EmptyString
  | String c rest => String (lower_ascii c) (lower rest)
  end.

(** Python truthiness of an optional string: [None] and [''] are false. *)
Definition truthy_str (o : option string) : bool :=
  match o with
  | None => false
  | Some s => negb (String.eqb s "")
  end.

(** ** Scalar functions of the tensor library *)

(** [tf.where(cond, x, y)] on scalars. *)
Definition tf_where {A : Type} (cond : bool) (x y : A) : A :=
  if cond then x else y.

Definition sigmoid (x : R) : R := 1 / (1 + exp (- x)).

(** [x ** y].  For a positive base this is the real power; an exponent of
    zero gives one for every base; a zero base with a positive exponent gives
    zero; a negative base with an integer exponent gives the signed integer
    power.  A negative base with any other exponent (NaN in float32) and a
    zero base with a negative exponent (an infinity) have no real value:
    zero stands for them, and [pow_is_real] names the arguments that do. *)
Definition tf_pow (x y : R) : R :=
  if Req_dec_T y 0 then 1
  else if Rlt_dec 0 x then Rpower x y
  else if Req_dec_T x 0 then 0
  else if Req_dec_T y (IZR (Int_part y)) then powerRZ x (Int_part y)
  else 0.

(** The arguments on which [x ** y] is a real number. *)
Definition pow_is_real (x y : R) : Prop :=
  0 < x \/ y = 0 \/ (x = 0 /\ 0 < y) \/ (x < 0 /\ exists n : Z, y = IZR n).

(** [tf.nn.sigmoid_cross_entropy_with_logits] for one element, in the form
    TensorFlow computes it: [max(x, 0) - x * z + log(1 + exp(-abs(x)))]. *)
Definition sigmoid_cross_entropy (z x : R) : R :=
  Rmax x 0 - x * z + ln (1 + exp (- Rabs x)).

(** One element of [tf.losses.huber_loss] before weighting. *)
Definition huber (delta label prediction : R) : R :=
  let error := prediction - label in
  let abs_error := Rabs error in
  let quadratic := Rmin abs_error delta in
  let linear := abs_error - quadratic in
  0.5 * (quadratic * quadratic) + delta * linear.

(** ** Tensors *)

Definition tensor := list R.
Definition int_tensor := list Z.

(** Shapes are checked when the graph is built: a [ValueError], whose
    message starts with this text. *)
Definition shape_mismatch : exn :=
  ValueError "Dimensions must be equal".

Fixpoint zip_with (f : R -> R -> R) (a b : tensor) : tensor :=
  match a, b with
  | x :: a', y :: b' => f x y :: zip_with f a' b'
  | _, _ => []
  end.

(** Elementwise operation of two tensors of the same shape. *)
Definition elementwise (f : R -> R -> R) (a b : tensor) : result tensor :=
  if Nat.eqb (length a) (length b) then Ok (zip_with f a b)
  else Raise shape_mismatch.

Definition tf_add := elementwise Rplus.
Definition tf_mul := elementwise Rmult.

(** Scalar operands. *)
Definition scalar_sub (c : R) (t : tensor) : tensor := map (fun x => c - x) t.
Definition mul_scalar (t : tensor) (c : R) : tensor := map (fun x => x * c) t.
Definition add_scalar (t : tensor) (c : R) : tensor := map (fun x => x + c) t.
Definition div_scalar (t : tensor) (c : R) : tensor := map (fun x => x / c) t.

Definition reduce_sum (t : tensor) : R := fold_right Rplus 0 t.

(** [tf.add_n] on a Python list of scalars: an empty list is refused. *)
Definition add_n (inputs : list R) : result R :=
  match inputs with
  | [] => Raise (ValueError
            "inputs must be a list of at least one Tensor/IndexedSlices with the same dtype and shape")
  | _ => Ok (fold_right Rplus 0 inputs)
  end.

(** [tf.nn.l2_loss]: half the sum of squares. *)
Definition l2_loss (t : tensor) : R := reduce_sum (map (fun x => x * x) t) / 2.

(** One row of [tf.one_hot]: an index outside [0, depth) gives all zeros. *)
Definition one_hot_row (depth : nat) (index : Z) : tensor :=
  map (fun c => if Z.eqb (Z.of_nat c) index then 1 else 0) (seq 0 depth).

(** [tf.one_hot(indices, depth)], flattened: a new innermost axis. *)
Definition one_hot (indices : int_tensor) (depth : nat) : tensor :=
  flat_map (one_hot_row depth) indices.

(** [tf.reshape]: the row-major data does not change. *)
Definition reshape (t : tensor) : tensor := t.

(** [tf.expand_dims(t, -1)] broadcast against an innermost axis of [depth]
    elements: every element is repeated [depth] times. *)
Definition expand_last (depth : nat) (t : tensor) : tensor :=
  flat_map (fun x => repeat x depth) t.

(** [tf.cast(tf.not_equal(t, v), tf.float32)] on an integer tensor. *)
Definition not_equal_int (t : int_tensor) (v : Z) : tensor :=
  map (fun x => if Z.eqb x v then 0 else 1) t.

(** [tf.not_equal(t, 0.0)] cast to float, as the loss weights are. *)
Definition not_equal_zero (t : tensor) : tensor :=
  map (fun x => if Req_dec_T x 0 then 0 else 1) t.

(** ** The parameter dictionary *)

Record params : Type := mkParams {
  strategy : string;
  batch_size : Z;
  num_shards : Z;
  learning_rate : Q;
  num_examples_per_epoch : Z;
  lr_warmup_init : Q;
  lr_warmup_epoch : Q;
  first_lr_drop_epoch : Q;
  second_lr_drop_epoch : Q;
  num_epochs : Q;
  poly_lr_power : Q;
  lr_decay_method : string;
  (* written by update_learning_rate_schedule_parameters *)
  adjusted_learning_rate : Q;
  lr_warmup_step : Z;
  first_lr_drop_step : Z;
  second_lr_drop_step : Z;
  total_steps : Z;
  (* loss *)
  num_classes : nat;
  data_format : string;
  alpha : Q;
  gamma : Q;
  label_smoothing : Q;
  delta : Q;
  box_loss_weight : Q;
  iou_loss_weight : Q;
  iou_loss_type : option string;
  weight_decay : Q;
  (* optimizer and restore *)
  optimizer : string;
  momentum : Q;
  clip_gradients_norm : option Q;
  moving_average_decay : Q;
  ckpt : option string;
  backbone_ckpt : option string;
  backbone_name : string;
  ckpt_var_scope : option string
}.

(** ** Learning-rate schedule parameters *)

Definition _DEFAULT_BATCH_SIZE : Z := 64.

(** Python's [int(x)] on a float: truncation toward zero. *)
Definition py_int (x : Q) : Z := Z.quot (Qnum x) (Zpos (Qden x)).

(** ** Python floats *)

(** A Python float is an IEEE 754 binary64 number: an integer significand
    of at most 53 bits times a power of two.  Every float operation returns
    the binary64 number nearest to the exact result, a tie going to the even
    significand.  The exponent is not bounded here: overflow to infinity and
    the subnormal numbers are left out. *)

(** The integer nearest to [q], a tie going to the even one. *)
Definition rne (q : Q) : Z :=
  let f := Qfloor q in
  match Qcompare (q - inject_Z f) (1 # 2) with
  | Lt => f
  | Gt => (f + 1)%Z
  | Eq => if Z.even f then f else (f + 1)%Z
  end.

(** The exponent [e] for which [n/d * 2^(-e)] lies in [[2^52, 2^53)]. *)
Definition binade (n d : positive) : Z :=
  let s := (53 + Z.log2 (Zpos d) - Z.log2 (Zpos n))%Z in
  if Qlt_le_dec ((Zpos n # d) * 2 ^ s)%Q (2 ^ 53)%Q then (- s)%Z else (1 - s)%Z.

Definition round_pos (n d : positive) : Q :=
  let e := binade n d in
  (inject_Z (rne ((Zpos n # d) * 2 ^ (- e))) * 2 ^ e)%Q.

(** The binary64 number nearest to [x], in lowest terms. *)
Definition round64 (x : Q) : Q :=
  Qred (match Qnum x with
        | Z0 => 0
        | Zpos n => round_pos n (Qden x)
        | Zneg n => - round_pos n (Qden x)
        end)%Q.

(** The binary64 numbers: a significand of at most 53 bits times a power
    of two. *)
Definition binary64 (x : Q) : Prop :=
  exists m e : Z, (Z.abs m <= 2 ^ 53)%Z /\ (x == inject_Z m * 2 ^ e)%Q.

(** A number of the dictionary as an operand of float arithmetic: a float
    is itself, an integer is converted as [float(z)] does. *)
Definition as_float (x : Q) : Q := round64 x.

(** [float(z)]. *)
Definition float_of_int (z : Z) : Q := round64 (inject_Z z).

(** [a * b] and [a / b] on floats. *)
Definition float_mul (a b : Q) : Q := round64 (a * b)%Q.

Definition float_div (a b : Q) : Q := round64 (a / b)%Q.

(** [a / b] on two integers: the quotient, correctly rounded. *)
Definition int_true_div (a b : Z) : Q := round64 (inject_Z a / inject_Z b)%Q.

Definition set_schedule (p : params) (adjusted : Q) (warmup first second total : Z)
  : params :=
  mkParams (strategy p) (batch_size p) (num_shards p) (learning_rate p)
    (num_examples_per_epoch p) (lr_warmup_init p) (lr_warmup_epoch p)
    (first_lr_drop_epoch p) (second_lr_drop_epoch p) (num_epochs p)
    (poly_lr_power p) (lr_decay_method p)
    adjusted warmup first second total
    (num_classes p) (data_format p) (alpha p) (gamma p) (label_smoothing p)
    (delta p) (box_loss_weight p) (iou_loss_weight p) (iou_loss_type p)
    (weight_decay p) (optimizer p) (momentum p) (clip_gradients_norm p)
    (moving_average_decay p) (ckpt p) (backbone_ckpt p) (backbone_name p)
    (ckpt_var_scope p).

(** The batch size the schedule is computed for. *)
Definition effective_batch_size (p : params) : Z :=
  if String.eqb (strategy p) "tpu" then (batch_size p * num_shards p)%Z
  else batch_size p.

(** [update_learning_rate_schedule_parameters]: the dictionary after the
    call, or the exception of the true division by a zero batch size.  Every
    operation on floats rounds: [learning_rate * batch_size] and its quotient
    by 64, the true division of the two integers, and each product of an
    epoch count with [steps_per_epoch] before [int()] truncates it. *)
Definition update_learning_rate_schedule_parameters (p : params) : result params :=
  let batch_size := effective_batch_size p in
  let adjusted :=
    float_div (float_mul (as_float (learning_rate p)) (float_of_int batch_size))
              (float_of_int _DEFAULT_BATCH_SIZE) in
  if Z.eqb batch_size 0 then Raise ZeroDivisionError
  else
    let steps_per_epoch :=
      int_true_div (num_examples_per_epoch p) batch_size in
    Ok (set_schedule p adjusted
          (py_int (float_mul (as_float (lr_warmup_epoch p)) steps_per_epoch))
          (py_int (float_mul (as_float (first_lr_drop_epoch p)) steps_per_epoch))
          (py_int (float_mul (as_float (second_lr_drop_epoch p)) steps_per_epoch))
          (py_int (float_mul (as_float (num_epochs p)) steps_per_epoch))).

(** ** Learning-rate schedules *)

Definition stepwise_lr_schedule (adjusted_learning_rate lr_warmup_init : R)
    (lr_warmup_step first_lr_drop_step second_lr_drop_step : Z)
    (global_step : Z) : R :=
  let linear_warmup :=
    lr_warmup_init +
    (IZR global_step / IZR lr_warmup_step *
     (adjusted_learning_rate - lr_warmup_init)) in
  let learning_rate :=
    tf_where (global_step <? lr_warmup_step)%Z linear_warmup
             adjusted_learning_rate in
  let lr_schedule := [(1.0, lr_warmup_step); (0.1, first_lr_drop_step);
                      (0.01, second_lr_drop_step)] in
  fold_left
    (fun learning_rate (entry : R * Z) =>
       let (mult, start_global_step) := entry in
       tf_where (global_step <? start_global_step)%Z learning_rate
                (adjusted_learning_rate * mult))
    lr_schedule learning_rate.

Definition cosine_lr_schedule_tf2 (adjusted_lr lr_warmup_init : R)
    (lr_warmup_step total_steps : Z) (step : Z) : R :=
  let warmup_lr (step : Z) :=
    lr_warmup_init + (adjusted_lr - lr_warmup_init) *
                     (IZR step / IZR lr_warmup_step) in
  let cosine_lr (step : Z) :=
    let decay_steps := IZR (total_steps - lr_warmup_step) in
    let step := IZR (step - lr_warmup_step) in
    let cosine_decay := 0.5 * (1 + cos (PI * step / decay_steps)) in
    let alpha := 0.0 in
    let decayed := (1 - alpha) * cosine_decay + alpha in
    adjusted_lr * decayed in
  if (step <=? lr_warmup_step)%Z then warmup_lr step else cosine_lr step.

Definition cosine_lr_schedule (adjusted_lr lr_warmup_init : R)
    (lr_warmup_step total_steps : Z) (step : Z) : R :=
  let linear_warmup :=
    lr_warmup_init + (IZR step / IZR lr_warmup_step *
                      (adjusted_lr - lr_warmup_init)) in
  let cosine_lr :=
    0.5 * adjusted_lr * (1 + cos (PI * IZR step / IZR total_steps)) in
  tf_where (step <? lr_warmup_step)%Z linear_warmup cosine_lr.

Definition polynomial_lr_schedule (adjusted_lr lr_warmup_init : R)
    (lr_warmup_step : Z) (power : R) (total_steps : Z) (step : Z) : R :=
  let linear_warmup :=
    lr_warmup_init + (IZR step / IZR lr_warmup_step *
                      (adjusted_lr - lr_warmup_init)) in
  let polynomial_lr :=
    adjusted_lr * tf_pow (1 - (IZR step / IZR total_steps)) power in
  tf_where (step <? lr_warmup_step)%Z linear_warmup polynomial_lr.

Definition learning_rate_schedule (p : params) (global_step : Z) : result R :=
  let lr_decay_method := lr_decay_method p in
  if String.eqb lr_decay_method "stepwise" then
    Ok (stepwise_lr_schedule (Q2R (adjusted_learning_rate p))
          (Q2R (lr_warmup_init p)) (lr_warmup_step p)
          (first_lr_drop_step p) (second_lr_drop_step p) global_step)
  else if String.eqb lr_decay_method "cosine" then
    Ok (cosine_lr_schedule (Q2R (adjusted_learning_rate p))
          (Q2R (lr_warmup_init p)) (lr_warmup_step p) (total_steps p)
          global_step)
  else if String.eqb lr_decay_method "polynomial" then
    Ok (polynomial_lr_schedule (Q2R (adjusted_learning_rate p))
          (Q2R (lr_warmup_init p)) (lr_warmup_step p)
          (Q2R (poly_lr_power p)) (total_steps p) global_step)
  else if String.eqb lr_decay_method "constant" then
    Ok (Q2R (adjusted_learning_rate p))
  else
    Raise (ValueError (format1 "unknown lr_decay_method: " lr_decay_method)).

(** ** Focal loss *)

Definition sigmoid_cross_entropy_with_logits (labels logits : tensor)
  : result tensor :=
  elementwise sigmoid_cross_entropy labels logits.

Definition focal_loss (y_pred y_true : tensor)
    (alpha gamma normalizer label_smoothing : R) : result tensor :=
  (* compute focal loss multipliers before label smoothing *)
  let pred_prob := map sigmoid y_pred in
  pos <- tf_mul y_true pred_prob ;;
  neg <- tf_mul (scalar_sub 1 y_true) (scalar_sub 1 pred_prob) ;;
  p_t <- tf_add pos neg ;;
  alpha_factor <- tf_add (mul_scalar y_true alpha)
                         (mul_scalar (scalar_sub 1 y_true) (1 - alpha)) ;;
  let modulating_factor := map (fun x => tf_pow x gamma) (scalar_sub 1.0 p_t) in
  (* apply label smoothing for cross_entropy for each entry *)
  let y_true :=
    add_scalar (mul_scalar y_true (1.0 - label_smoothing))
               (0.5 * label_smoothing) in
  ce <- sigmoid_cross_entropy_with_logits y_true y_pred ;;
  (* compute the final loss and return *)
  weights <- tf_mul alpha_factor modulating_factor ;;
  loss <- tf_mul weights ce ;;
  Ok (div_scalar loss normalizer).

(** ** Box losses *)

(** [tf.losses.huber_loss] with [reduction=SUM]: the weighted sum. *)
Definition huber_loss (labels predictions weights : tensor) (delta : R)
  : result R :=
  losses <- elementwise (huber delta) labels predictions ;;
  weighted <- tf_mul losses weights ;;
  Ok (reduce_sum weighted).

Definition _box_loss (box_outputs box_targets : tensor)
    (num_positives delta : R) : result R :=
  let normalizer := num_positives * 4.0 in
  let mask := not_equal_zero box_targets in
  box_loss <- huber_loss box_targets box_outputs mask delta ;;
  Ok (box_loss / normalizer).

(** ** Dictionaries keyed by pyramid level *)

Definition level_dict (A : Type) := list (Z * A).

Definition keys {A : Type} (d : level_dict A) : list Z := map fst d.

Fixpoint lookup {A : Type} (d : level_dict A) (k : Z) : option A :=
  match d with
  | [] => None
  | (k', v) :: rest => if Z.eqb k' k then Some v else lookup rest k
  end.

Definition level_key (text : string) (level : Z) : string :=
  (text ++ NilZero.string_of_int (Z.to_int level))%string.

(** [d[text % level]], or [d[level]] with an empty [text]: a missing key
    raises [KeyError]. *)
Definition getitem {A : Type} (d : level_dict A) (text : string) (level : Z)
  : result A :=
  match lookup d level with
  | Some v => Ok v
  | None => Raise (KeyError (level_key text level))
  end.

(** The label dictionary of the data loader, as far as the loss reads it. *)
Record labels : Type := mkLabels {
  mean_num_positives : tensor;
  cls_targets : level_dict int_tensor;
  box_targets : level_dict tensor
}.

(** What one pass of the loop over the levels has appended so far. *)
Record level_losses : Type := mkLosses {
  cls_losses : list R;
  box_losses : list R;
  box_iou_losses : list R
}.

Record detection_losses : Type := mkDetection {
  total_loss : R;
  cls_loss : R;
  box_loss : R;
  box_iou_loss : R
}.

(** Truthiness of a Python float. *)
Definition truthy_float (x : Q) : bool := negb (Qeq_bool x 0).

Section Detection.

(** [iou_utils.iou_loss], a module of the repository outside this file. *)
Variable iou_loss : tensor -> tensor -> string -> result tensor.

Definition _box_iou_loss (box_outputs box_targets : tensor)
    (num_positives : R) (iou_loss_type : string) : result R :=
  let normalizer := num_positives * 4.0 in
  box_iou_loss <- iou_loss box_outputs box_targets iou_loss_type ;;
  Ok (reduce_sum box_iou_loss / normalizer).

Definition num_positives_sum (l : labels) : R :=
  reduce_sum (mean_num_positives l) + 1.0.

(** The body of the loop over the levels. *)
Definition loss_at_level (cls_outputs box_outputs : level_dict tensor)
    (l : labels) (p : params) (acc : level_losses) (level : Z)
  : result level_losses :=
  targets <- getitem (cls_targets l) "cls_targets_" level ;;
  (* Onehot encoding for classification labels. *)
  let cls_targets_at_level := one_hot targets (num_classes p) in
  let cls_targets_at_level :=
    if String.eqb (data_format p) "channels_first"
    then reshape cls_targets_at_level
    else reshape cls_targets_at_level in
  box_targets_at_level <- getitem (box_targets l) "box_targets_" level ;;
  outputs <- getitem cls_outputs "" level ;;
  cls_loss <- focal_loss outputs cls_targets_at_level
                (Q2R (alpha p)) (Q2R (gamma p)) (num_positives_sum l)
                (Q2R (label_smoothing p)) ;;
  let cls_loss :=
    if String.eqb (data_format p) "channels_first"
    then reshape cls_loss
    else reshape cls_loss in
  cls_loss <- tf_mul cls_loss
                (expand_last (num_classes p) (not_equal_int targets (-2))) ;;
  let cls_losses := cls_losses acc ++ [reduce_sum cls_loss] in
  box_losses <-
    (if truthy_float (box_loss_weight p) then
       outputs <- getitem box_outputs "" level ;;
       b <- _box_loss outputs box_targets_at_level (num_positives_sum l)
              (Q2R (delta p)) ;;
       Ok (box_losses acc ++ [b])
     else Ok (box_losses acc)) ;;
  box_iou_losses <-
    (match iou_loss_type p with
     | Some kind =>
         if truthy_str (Some kind) then
           outputs <- getitem box_outputs "" level ;;
           b <- _box_iou_loss outputs box_targets_at_level
                  (num_positives_sum l) kind ;;
           Ok (box_iou_losses acc ++ [b])
         else Ok (box_iou_losses acc)
     | None => Ok (box_iou_losses acc)
     end) ;;
  Ok (mkLosses cls_losses box_losses box_iou_losses).

Fixpoint for_levels (body : level_losses -> Z -> result level_losses)
    (levels : list Z) (acc : level_losses) : result level_losses :=
  match levels with
  | [] => Ok acc
  | level :: rest => acc' <- body acc level ;; for_levels body rest acc'
  end.

Definition detection_loss (cls_outputs box_outputs : level_dict tensor)
    (l : labels) (p : params) : result detection_losses :=
  let levels := keys cls_outputs in
  acc <- for_levels (loss_at_level cls_outputs box_outputs l p) levels
           (mkLosses [] [] []) ;;
  (* Sum per level losses to total loss. *)
  cls_loss <- add_n (cls_losses acc) ;;
  box_loss <- (match box_losses acc with
               | [] => Ok 0
               | _ => add_n (box_losses acc)
               end) ;;
  box_iou_loss <- (match box_iou_losses acc with
                   | [] => Ok 0
                   | _ => add_n (box_iou_losses acc)
                   end) ;;
  let total_loss :=
    cls_loss + Q2R (box_loss_weight p) * box_loss +
    Q2R (iou_loss_weight p) * box_iou_loss in
  Ok (mkDetection total_loss cls_loss box_loss box_iou_loss).

End Detection.

(** The inputs of one level fit together: the label dictionary has the
    level's class and box targets, the class logits have [num_classes]
    elements for each class target, and the box outputs, where a box loss
    reads them, have the shape of the box targets. *)
Definition level_ready (iou_loss : tensor -> tensor -> string -> result tensor)
    (cls_outputs box_outputs : level_dict tensor) (l : labels) (p : params)
    (level : Z) : Prop :=
  exists (targets : int_tensor) (bt out : tensor),
    lookup (cls_targets l) level = Some targets /\
    lookup (box_targets l) level = Some bt /\
    lookup cls_outputs level = Some out /\
    length out = (length targets * num_classes p)%nat /\
    (truthy_float (box_loss_weight p) = true ->
     exists bo : tensor,
       lookup box_outputs level = Some bo /\ length bo = length bt) /\
    (forall kind : string,
       iou_loss_type p = Some kind -> truthy_str (Some kind) = true ->
       exists bo : tensor,
         lookup box_outputs level = Some bo /\
         is_ok (iou_loss bo bt kind) = true).

(** ** The sums before normalization *)

(** The losses of one level before [detection_loss] divides them, written
    with the functions of the source: the focal loss at normalizer 1 with
    the ignored anchors masked out and summed, the Huber sum over the
    non-zero box targets, and the sum of the IoU loss.  They are what the
    specification's normalizer is said to divide, and are compared with what
    [detection_loss] returns. *)
Definition unnormalized_cls_loss (cls_outputs : level_dict tensor)
    (l : labels) (p : params) (level : Z) : result R :=
  targets <- getitem (cls_targets l) "cls_targets_" level ;;
  outputs <- getitem cls_outputs "" level ;;
  loss <- focal_loss outputs (one_hot targets (num_classes p))
            (Q2R (alpha p)) (Q2R (gamma p)) 1 (Q2R (label_smoothing p)) ;;
  masked <- tf_mul loss
              (expand_last (num_classes p) (not_equal_int targets (-2))) ;;
  Ok (reduce_sum masked).

Definition unnormalized_box_loss (box_outputs : level_dict tensor)
    (l : labels) (p : params) (level : Z) : result R :=
  targets <- getitem (box_targets l) "box_targets_" level ;;
  outputs <- getitem box_outputs "" level ;;
  huber_loss targets outputs (not_equal_zero targets) (Q2R (delta p)).

Definition unnormalized_box_iou_loss
    (iou_loss : tensor -> tensor -> string -> result tensor)
    (box_outputs : level_dict tensor) (l : labels) (kind : string)
    (level : Z) : result R :=
  targets <- getitem (box_targets l) "box_targets_" level ;;
  outputs <- getitem box_outputs "" level ;;
  loss <- iou_loss outputs targets kind ;;
  Ok (reduce_sum loss).

(** ** Regularization *)

Record variable : Type := mkVariable {
  var_name : string;
  var_value : tensor
}.

Definition ends_with (suffix s : string) : bool :=
  let n := String.length s in
  let k := String.length suffix in
  (k <=? n)%nat && String.eqb (substring (n - k) k s) suffix.

Definition newline : ascii := ascii_of_nat 10.

Fixpoint no_newline (s : string) : bool :=
  match s with
  | EmptyString => true
  | String c rest => negb (Ascii.eqb c newline) && no_newline rest
  end.

(** ** Regular expressions

    The part of Python's [re] syntax the default pattern of [reg_l2_loss]
    is written in, and a backtracking matcher for it. *)

Inductive regex : Type :=
| Eps                      (* the empty pattern *)
| Chr (c : ascii)          (* a literal character *)
| Dot                      (* [.]: any character but a newline *)
| Dollar                   (* [$]: the end, or the newline that ends the string *)
| Seq (a b : regex)        (* [ab] *)
| Alt (a b : regex)        (* [a|b] *)
| Star (a : regex).        (* [a*] *)

(** [a*]: stop here, or match [a] once more; [fuel] bounds the number of
    rounds. *)
Fixpoint star_loop (step : string -> (string -> bool) -> bool) (fuel : nat)
    (s : string) (k : string -> bool) : bool :=
  k s ||
  match fuel with
  | O => false
  | S fuel' => step s (fun rest => star_loop step fuel' rest k)
  end.

(** [accept re s k]: some way of matching [re] at the start of [s] leaves a
    rest that [k] accepts. *)
Fixpoint accept (re : regex) (s : string) (k : string -> bool) {struct re}
  : bool :=
  match re with
  | Eps => k s
  | Chr c =>
      match s with
      | String c' rest => Ascii.eqb c' c && k rest
      | EmptyString => false
      end
  | Dot =>
      match s with
      | String c' rest => negb (Ascii.eqb c' newline) && k rest
      | EmptyString => false
      end
  | Dollar =>
      (String.eqb s "" || String.eqb s (String newline "")) && k s
  | Seq a b => accept a s (fun rest => accept b rest k)
  | Alt a b => accept a s k || accept b s k
  | Star a => star_loop (accept a) (S (String.length s)) s k
  end.

(** [re.compile(pattern).match(s)] as a truth value: a match that starts at
    the start of [s] and may end anywhere. *)
Definition re_match (re : regex) (s : string) : bool :=
  accept re s (fun _ => true).

(** A pattern of literal characters. *)
Fixpoint lit (text : string) : regex :=
  match text with
  | EmptyString => Eps
  | String c rest => Seq (Chr c) (lit rest)
  end.

(** [r'.*(kernel|weight):0$'], the default [regex] of [reg_l2_loss]. *)
Definition default_regex : regex :=
  Seq (Star Dot)
      (Seq (Alt (lit "kernel") (lit "weight")) (Seq (lit ":0") Dollar)).

(** The text up to the end of the string matches [.*(kernel|weight):0]:
    it ends with one of the two names, and the part [.*] takes holds no
    newline. *)
Definition match_to_end (s : string) : bool :=
  (ends_with "kernel:0" s || ends_with "weight:0" s) &&
  no_newline (substring 0 (String.length s - 8) s).

(** [re.compile(r'.*(kernel|weight):0$').match]: [$] stands at the end of
    the string or before a newline that ends it. *)
Definition kernel_or_weight (s : string) : bool :=
  match_to_end s ||
  (ends_with (String newline EmptyString) s &&
   match_to_end (substring 0 (String.length s - 1) s)).

(** [reg_l2_loss] with the compiled pattern [var_match] and the graph's
    trainable variables made explicit. *)
Definition reg_l2_loss (weight_decay : R) (var_match : string -> bool)
    (trainable_variables : list variable) : result R :=
  penalty <- add_n (map (fun v => l2_loss (var_value v))
                      (filter (fun v => var_match (var_name v))
                              trainable_variables)) ;;
  Ok (weight_decay * penalty).

(** ** The model function

    The graph is built by calls into TensorFlow and into other modules of
    the repository.  The embedding records each of them as an [event], in
    the order the source makes them, next to the result or the exception. *)

Inductive mode : Type := TRAIN | EVAL | PREDICT.

Inductive event : Type :=
| ImageSummary                  (* utils.image *)
| ForwardPass                   (* utils.build_model_with_precision *)
| UpdateSchedule                (* update_learning_rate_schedule_parameters *)
| LearningRate                  (* learning_rate_schedule *)
| DetectionLoss                 (* detection_loss *)
| RegularizationLoss            (* reg_l2_loss *)
| ScalarSummary (name : string) (* utils.scalar *)
| MovingAverage                 (* tf.train.ExponentialMovingAverage *)
| MakeOptimizer                 (* MomentumOptimizer, AdamOptimizer *)
| WrapOptimizer                 (* CrossShardOptimizer, DistributedOptimizer *)
| ComputeGradients              (* optimizer.compute_gradients *)
| ClipByGlobalNorm              (* tf.clip_by_global_norm *)
| ApplyGradients                (* optimizer.apply_gradients *)
| Minimize                      (* optimizer.minimize *)
| ApplyMovingAverage            (* ema.apply *)
| GenerateDetections            (* postprocess.generate_detections *)
| MakeHooks.                    (* ProfilerHook, OomReportingHook *)

(** The forward pass and the construction of gradients. *)
Definition expensive (ev : event) : bool :=
  match ev with
  | ForwardPass | DetectionLoss | RegularizationLoss
  | ComputeGradients | ApplyGradients | Minimize | GenerateDetections => true
  | _ => false
  end.

Definition builds_gradients (ev : event) : bool :=
  match ev with
  | ComputeGradients | ApplyGradients | Minimize => true
  | _ => false
  end.

(** A computation that appends to the trace and may raise. *)
Definition M (A : Type) : Type := list event -> list event * result A.

Definition ret {A : Type} (a : A) : M A := fun tr => (tr, Ok a).

Definition raise {A : Type} (e : exn) : M A := fun tr => (tr, Raise e).

Definition bindM {A B : Type} (m : M A) (k : A -> M B) : M B :=
  fun tr =>
    match m tr with
    | (tr', Ok a) => k a tr'
    | (tr', Raise e) => (tr', Raise e)
    end.

Notation "x <~ m ;; k" := (bindM m (fun x => k))
  (at level 61, m at next level, right associativity).

Definition emit (ev : event) : M unit := fun tr => (tr ++ [ev], Ok tt).

(** A call that is recorded and whose exception, if any, propagates. *)
Definition call {A : Type} (ev : event) (r : result A) : M A :=
  fun tr => (tr ++ [ev], r).

Definition when (b : bool) (m : M unit) : M unit := if b then m else ret tt.

Fixpoint emit_all (evs : list event) : M unit :=
  match evs with
  | [] => ret tt
  | ev :: rest => _ <~ emit ev ;; emit_all rest
  end.

Definition run {A : Type} (m : M A) : list event * result A := m [].

Record model_outputs : Type := mkOutputs {
  out_cls : level_dict tensor;
  out_box : level_dict tensor;
  out_variables : list variable   (* what tf.trainable_variables() lists *)
}.

Inductive optimizer_t : Type :=
| MomentumOptimizer (learning_rate : R) (momentum : Q)
| AdamOptimizer (learning_rate : R)
| CrossShardOptimizer (inner : optimizer_t)
| DistributedOptimizer (inner : optimizer_t).

Inductive train_op_t : Type :=
| ClippedStep (opt : optimizer_t) (loss : R) (clip_norm : Q)
| MinimizeStep (opt : optimizer_t) (loss : R)
| ThenMovingAverage (step : train_op_t).

Inductive scaffold_t : Type :=
| RestoreCheckpoint (checkpoint ckpt_scope var_scope : string)
| RestoreMovingAverage.

Inductive hook_t : Type :=
| BroadcastGlobalVariablesHook
| ProfilerHook
| OomReportingHook.

Inductive estimator_spec : Type :=
| EstimatorSpec (features : tensor) (cls_outputs box_outputs : level_dict tensor)
| TPUEstimatorSpec (m : mode) (loss : R) (train_op : option train_op_t)
    (eval_metrics : bool) (scaffold_fn : option scaffold_t)
    (training_hooks : list hook_t).

Definition is_train (m : mode) : bool :=
  match m with TRAIN => true | _ => false end.

Definition is_eval (m : mode) : bool :=
  match m with EVAL => true | _ => false end.

(** [a or b] on optional strings. *)
Definition py_or (a b : option string) : option string :=
  if truthy_str a then a else b.

Definition clip_positive (c : option Q) : option Q :=
  match c with
  | Some n => if Qlt_le_dec 0 n then Some n else None
  | None => None
  end.

Section ModelFn.

Variable iou_loss : tensor -> tensor -> string -> result tensor.
(** [hvd.size()]. *)
Variable hvd_size : Z.

(** The optimizer of TRAIN mode and the train op.  The list of variables
    the step updates ([variable_filter_fn]) is not part of the description. *)
Definition build_train_op (p : params) (learning_rate total_loss : R)
  : M (train_op_t * list hook_t) :=
  optimizer <~
    (if String.eqb (lower (optimizer p)) "sgd" then
       _ <~ emit MakeOptimizer ;;
       ret (MomentumOptimizer learning_rate (momentum p))
     else if String.eqb (lower (optimizer p)) "adam" then
       _ <~ emit MakeOptimizer ;;
       ret (AdamOptimizer learning_rate)
     else raise (ValueError "optimizers should be adam or sgd")) ;;
  wrapped <~
    (if String.eqb (strategy p) "tpu" then
       _ <~ emit WrapOptimizer ;; ret (CrossShardOptimizer optimizer, [])
     else if String.eqb (strategy p) "horovod" then
       _ <~ emit WrapOptimizer ;;
       ret (DistributedOptimizer optimizer, [BroadcastGlobalVariablesHook])
     else ret (optimizer, [])) ;;
  let (optimizer, training_hooks) := wrapped : optimizer_t * list hook_t in
  train_op <~
    (match clip_positive (clip_gradients_norm p) with
     | Some clip =>
         _ <~ emit_all [ComputeGradients; ClipByGlobalNorm;
                        ScalarSummary "gnorm"; ApplyGradients] ;;
         ret (ClippedStep optimizer total_loss clip)
     | None =>
         _ <~ emit Minimize ;;
         ret (MinimizeStep optimizer total_loss)
     end) ;;
  train_op <~
    (if truthy_float (moving_average_decay p) then
       _ <~ emit ApplyMovingAverage ;; ret (ThenMovingAverage train_op)
     else ret train_op) ;;
  ret (train_op, training_hooks).

(** The scaffold function, chosen after the train op has been built. *)
Definition choose_scaffold (m : mode) (p : params) : M (option scaffold_t) :=
  let checkpoint := py_or (ckpt p) (backbone_ckpt p) in
  if truthy_str checkpoint && is_train m then
    (* Initialize the model from an EfficientDet or backbone checkpoint. *)
    if truthy_str (ckpt p) && truthy_str (backbone_ckpt p) then
      raise (RuntimeError
               "--backbone_ckpt and --checkpoint are mutually exclusive")
    else
      let scopes :=
        if truthy_str (backbone_ckpt p) then
          let var_scope := (backbone_name p ++ "/")%string in
          match ckpt_var_scope p with
          | None => ((backbone_name p ++ "/")%string, var_scope)
          | Some scope => ((scope ++ "/")%string, var_scope)
          end
        else ("/"%string, "/"%string) in
      match checkpoint with
      | Some path => ret (Some (RestoreCheckpoint path (fst scopes) (snd scopes)))
      | None => ret None
      end
  else if is_eval m && truthy_float (moving_average_decay p) then
    ret (Some RestoreMovingAverage)
  else ret None.

(** The summaries of TRAIN mode and the moving average. *)
Definition report_summaries (m : mode) (p : params) : M unit :=
  _ <~ when (is_train m)
         (emit_all [ScalarSummary "lrn_rate";
                    ScalarSummary "trainloss/cls_loss";
                    ScalarSummary "trainloss/box_loss";
                    ScalarSummary "trainloss/det_loss";
                    ScalarSummary "trainloss/reg_l2_loss";
                    ScalarSummary "trainloss/loss"]) ;;
  _ <~ when (is_train m && truthy_str (iou_loss_type p))
         (emit (ScalarSummary "trainloss/box_iou_loss")) ;;
  when (truthy_float (moving_average_decay p)) (emit MovingAverage).

(** [train_op] and the training hooks: built in TRAIN mode only. *)
Definition train_step (m : mode) (p : params) (learning_rate total_loss : R)
  : M (option train_op_t * list hook_t) :=
  if is_train m then
    built <~ build_train_op p learning_rate total_loss ;;
    ret (Some (fst built), snd built)
  else ret (None, []).

(** The part of [_model_fn] after the losses: summaries, optimizer, train
    op, evaluation metrics, scaffold and hooks. *)
Definition build_estimator_spec (m : mode) (p : params)
    (learning_rate total_loss : R) : M estimator_spec :=
  _ <~ report_summaries m p ;;
  let learning_rate :=
    if String.eqb (strategy p) "horovod"
    then learning_rate * IZR hvd_size else learning_rate in
  train <~ train_step m p learning_rate total_loss ;;
  _ <~ when (is_eval m) (emit GenerateDetections) ;;
  scaffold_fn <~ choose_scaffold m p ;;
  extra_hooks <~
    (if negb (String.eqb (strategy p) "tpu") then
       _ <~ emit MakeHooks ;; ret [ProfilerHook; OomReportingHook]
     else ret []) ;;
  ret (TPUEstimatorSpec m total_loss (fst train) (is_eval m) scaffold_fn
         (snd train ++ extra_hooks)).

Definition _model_fn (features : tensor) (l : labels) (m : mode) (p : params)
    (model : tensor -> params -> result model_outputs)
    (global_step : Z) : M estimator_spec :=
  _ <~ emit ImageSummary ;;
  outputs <~ call ForwardPass (model features p) ;;
  let cls_outputs := out_cls outputs in
  let box_outputs := out_box outputs in
  (* First check if it is in PREDICT mode. *)
  match m with
  | PREDICT => ret (EstimatorSpec features cls_outputs box_outputs)
  | _ =>
    (* Set up training loss and learning rate. *)
    p <~ call UpdateSchedule (update_learning_rate_schedule_parameters p) ;;
    learning_rate <~ call LearningRate (learning_rate_schedule p global_step) ;;
    (* cls_loss and box_loss are for logging. only total_loss is optimized. *)
    det <~ call DetectionLoss
             (detection_loss iou_loss cls_outputs box_outputs l p) ;;
    reg_l2loss <~ call RegularizationLoss
                    (reg_l2_loss (Q2R (weight_decay p)) kernel_or_weight
                                 (out_variables outputs)) ;;
    let total_loss := total_loss det + reg_l2loss in
    build_estimator_spec m p learning_rate total_loss
  end.

End ModelFn.

(** ** Dispatch on the model name *)

Inductive architecture : Type := retinanet | efficientdet.

Inductive model_fn_t : Type := retinanet_model_fn | efficientdet_model_fn.

Definition get_model_arch (model_name : string) : result architecture :=
  if contains "retinanet" model_name then Ok retinanet
  else if contains "efficientdet" model_name then Ok efficientdet
  else Raise (ValueError (format1 "Invalide model name " model_name)).

Definition get_model_fn (model_name : string) : result model_fn_t :=
  if contains "retinanet" model_name then Ok retinanet_model_fn
  else if contains "efficientdet" model_name then Ok efficientdet_model_fn
  else Raise (ValueError (format1 "Invalide model name " model_name)).

(** ** A configuration to evaluate the definitions on *)

Definition example_params : params :=
  mkParams "" 64 8 (8 # 100) 120000 (8 # 1000) 1 200 250 300 (9 # 10) "cosine"
    0 0 0 0 0
    2 "channels_last" (1 # 4) (3 # 2) 0 (1 # 10) 50 1 None (4 # 100000)
    "sgd" (9 # 10) (Some (10 # 1)) (9998 # 10000) None None
    "efficientnet-b1" None.

(** A cosine schedule with [adjusted_learning_rate = 1], one warmup step and
    two steps in all. *)
Definition cosine_example : params := set_schedule example_params 1 1 0 0 2.

(** Seven examples per epoch in batches of four, one warmup epoch. *)
Definition rounding_example : params :=
  mkParams "" 4 1 (8 # 100) 7 (8 # 1000) 1 200 250 300 (9 # 10) "cosine"
    0 0 0 0 0
    2 "channels_last" (1 # 4) (3 # 2) 0 (1 # 10) 50 1 None (4 # 100000)
    "sgd" (9 # 10) (Some (10 # 1)) (9998 # 10000) None None
    "efficientnet-b1" None.

(** Twenty-three examples per epoch in batches of five: [23 / 5] is not a
    binary64 number. *)
Definition binary64_example : params :=
  mkParams "" 5 1 (8 # 100) 23 (8 # 1000) 1 200 250 300 (9 # 10) "cosine"
    0 0 0 0 0
    2 "channels_last" (1 # 4) (3 # 2) 0 (1 # 10) 50 1 None (4 # 100000)
    "sgd" (9 # 10) (Some (10 # 1)) (9998 # 10000) None None
    "efficientnet-b1" None.

(** One pyramid level with one anchor, which is ignored, and box targets
    that are all zero. *)
Definition example_labels : labels :=
  mkLabels [0; 0] [(3%Z, [(-2)%Z])] [(3%Z, [0; 0; 0; 0])].

Definition example_cls_outputs : level_dict tensor := [(3%Z, [0.5; -1])].

Definition example_box_outputs : level_dict tensor := [(3%Z, [1; 2; 3; 4])].

(** A stand-in for [iou_utils.iou_loss] where an example has to name one. *)
Definition constant_iou_loss (box_outputs box_targets : tensor)
    (iou_loss_type : string) : result tensor :=
  Ok [0].

(** A graph with one convolution kernel. *)
Definition example_model (features : tensor) (p : params) : result model_outputs :=
  Ok (mkOutputs example_cls_outputs example_box_outputs
        [mkVariable "conv/kernel:0" [1]; mkVariable "conv/bias:0" [2]]).

Definition set_checkpoints (p : params) (full backbone : option string) : params :=
  mkParams (strategy p) (batch_size p) (num_shards p) (learning_rate p)
    (num_examples_per_epoch p) (lr_warmup_init p) (lr_warmup_epoch p)
    (first_lr_drop_epoch p) (second_lr_drop_epoch p) (num_epochs p)
    (poly_lr_power p) (lr_decay_method p)
    (adjusted_learning_rate p) (lr_warmup_step p) (first_lr_drop_step p)
    (second_lr_drop_step p) (total_steps p)
    (num_classes p) (data_format p) (alpha p) (gamma p) (label_smoothing p)
    (delta p) (box_loss_weight p) (iou_loss_weight p) (iou_loss_type p)
    (weight_decay p) (optimizer p) (momentum p) (clip_gradients_norm p)
    (moving_average_decay p) full backbone (backbone_name p)
    (ckpt_var_scope p).

Definition set_optimizer (p : params) (name : string) : params :=
  mkParams (strategy p) (batch_size p) (num_shards p) (learning_rate p)
    (num_examples_per_epoch p) (lr_warmup_init p) (lr_warmup_epoch p)
    (first_lr_drop_epoch p) (second_lr_drop_epoch p) (num_epochs p)
    (poly_lr_power p) (lr_decay_method p)
    (adjusted_learning_rate p) (lr_warmup_step p) (first_lr_drop_step p)
    (second_lr_drop_step p) (total_steps p)
    (num_classes p) (data_format p) (alpha p) (gamma p) (label_smoothing p)
    (delta p) (box_loss_weight p) (iou_loss_weight p) (iou_loss_type p)
    (weight_decay p) name (momentum p) (clip_gradients_norm p)
    (moving_average_decay p) (ckpt p) (backbone_ckpt p) (backbone_name p)
    (ckpt_var_scope p).


(** Both a full-model and a backbone checkpoint. *)
Definition both_checkpoints : params :=
  set_checkpoints example_params (Some "model.ckpt"%string)
    (Some "backbone.ckpt"%string).

(** An optimizer the model function does not know. *)
Definition rmsprop_params : params := set_optimizer example_params "rmsprop".

(** No forward pass, loss or gradient among the events. *)
Definition cheap (evs : list event) : Prop :=
  Forall (fun ev => expensive ev = false) evs.

(** A model whose only trainable variable is a bias. *)
Definition bias_only : list variable := [mkVariable "dense/bias:0" [1; 2]].

(** A configuration with the box losses switched off. *)
Definition classification_only : params :=
  mkParams "" 64 8 (8 # 100) 120000 (8 # 1000) 1 200 250 300 (9 # 10) "cosine"
    0 0 0 0 0
    2 "channels_last" (1 # 4) (3 # 2) 0 (1 # 10) 0 1 None (4 # 100000)
    "sgd" (9 # 10) (Some (10 # 1)) (9998 # 10000) None None
    "efficientnet-b1" None.

(** What the spec calls [round]: an integer nearest to [x]. *)
Definition nearest_integer (x : Q) (n : Z) : Prop :=
  (Qabs (x - inject_Z n) <= 1 # 2)%Q.

(* ------------------------------------------------------------------ *)
(** * Properties *)


(** ** Learning-rate schedules *)

Ltac ltb_cases :=
  repeat match goal with
         | |- context [(?a <? ?b)%Z] => destruct (Z.ltb_spec a b); try lia
         | |- context [(?a <=? ?b)%Z] => destruct (Z.leb_spec a b); try lia
         end.

Lemma stepwise_unfold (adj init : R) (w f s step : Z) :
  stepwise_lr_schedule adj init w f s step =
  tf_where (step <? s)%Z
    (tf_where (step <? f)%Z
       (tf_where (step <? w)%Z
          (tf_where (step <? w)%Z
             (init + IZR step / IZR w * (adj - init)) adj)
          (adj * 1.0))
       (adj * 0.1))
    (adj * 0.01).
Proof. reflexivity. Qed.

(** C2.  With [0 < lr_warmup_step <= first_lr_drop_step <=
    second_lr_drop_step], the stepwise schedule is the linear warmup below
    [lr_warmup_step] and, from there on, [adjusted_learning_rate] times the
    multiplier of the last threshold that [step] has reached: 1.0, then 0.1,
    then 0.01.  For 0.08, 0, 500, 15000, 20000 the rate is 0 at step 0, 0.08
    at step 500, 0.008 at step 15000 and 0.0008 at step 20000. *)
Theorem stepwise_lr_schedule_piecewise (adj init : R) (w f s step : Z)
    (Hw : (0 < w)%Z) (Hf : (w <= f)%Z) (Hs : (f <= s)%Z) :
  ((step < w)%Z ->
   stepwise_lr_schedule adj init w f s step =
   init + IZR step / IZR w * (adj - init)) /\
  ((w <= step < f)%Z -> stepwise_lr_schedule adj init w f s step = adj * 1.0) /\
  ((f <= step < s)%Z -> stepwise_lr_schedule adj init w f s step = adj * 0.1) /\
  ((s <= step)%Z -> stepwise_lr_schedule adj init w f s step = adj * 0.01) /\
  stepwise_lr_schedule 0.08 0 500 15000 20000 0 = 0 /\
  stepwise_lr_schedule 0.08 0 500 15000 20000 500 = 0.08 /\
  stepwise_lr_schedule 0.08 0 500 15000 20000 15000 = 0.008 /\
  stepwise_lr_schedule 0.08 0 500 15000 20000 20000 = 0.0008.
Proof.
  repeat split; try intros Hstep; rewrite stepwise_unfold; unfold tf_where;
    try (ltb_cases; lra).
  all: simpl; lra.
Qed.

Lemma stepwise_lr_schedule_piecewise_witness :
  stepwise_lr_schedule 0.08 0 500 15000 20000 17000 = 0.08 * 0.1.
Proof.
  apply (stepwise_lr_schedule_piecewise 0.08 0 500 15000 20000 17000);
    lia.
Defined.

Lemma cos_below_one (x : R) : 0 < x -> x < PI -> cos x < 1.
Proof.
  intros H0 H1. rewrite <- cos_0.
  apply cos_decreasing_1; lra.
Qed.

Lemma ratio_in_unit (w t : Z) :
  (0 < w < t)%Z -> 0 < IZR w / IZR t < 1.
Proof.
  intros [Hw Ht].
  assert (0 < IZR w) by (apply (IZR_lt 0); lia).
  assert (IZR w < IZR t) by (apply IZR_lt; lia).
  split.
  - apply Rdiv_lt_0_compat; lra.
  - apply Rmult_lt_reg_r with (IZR t); [lra|].
    unfold Rdiv. rewrite Rmult_assoc, Rinv_l; lra.
Qed.

Lemma cosine_factor_at_warmup (w t : Z) :
  (0 < w < t)%Z -> cos (PI * IZR w / IZR t) < 1.
Proof.
  intros H. destruct (ratio_in_unit w t H) as [H0 H1].
  pose proof PI_RGT_0.
  replace (PI * IZR w / IZR t) with (PI * (IZR w / IZR t))
    by (unfold Rdiv; ring).
  apply cos_below_one; nra.
Qed.

Lemma learning_rate_schedule_cosine (p : params) (step : Z) :
  lr_decay_method p = "cosine"%string ->
  learning_rate_schedule p step =
  Ok (cosine_lr_schedule (Q2R (adjusted_learning_rate p))
        (Q2R (lr_warmup_init p)) (lr_warmup_step p) (total_steps p) step).
Proof.
  intros Hm. unfold learning_rate_schedule. rewrite Hm. reflexivity.
Qed.

Lemma cosine_lr_schedule_after_warmup (adj init : R) (w t step : Z) :
  (w <= step)%Z ->
  cosine_lr_schedule adj init w t step =
  adj * 0.5 * (1 + cos (PI * IZR step / IZR t)).
Proof.
  intros H. unfold cosine_lr_schedule, tf_where. ltb_cases. ring.
Qed.

(** C5, as the code has it.  With [lr_decay_method = 'cosine'] and
    [0 < lr_warmup_step < total_steps] the schedule is the linear warmup for
    [step < lr_warmup_step] and
    [adjusted_lr * 0.5 * (1 + cos(pi * step / total_steps))] from
    [lr_warmup_step] on.  At [step = lr_warmup_step] the rate is therefore
    [adjusted_lr * 0.5 * (1 + cos(pi * lr_warmup_step / total_steps))], which
    is below [adjusted_lr] when [adjusted_lr] is positive; at
    [step = total_steps] it is 0. *)
Theorem cosine_schedule_values (p : params) (step : Z)
    (Hm : lr_decay_method p = "cosine"%string)
    (Hw : (0 < lr_warmup_step p < total_steps p)%Z) :
  let adj := Q2R (adjusted_learning_rate p) in
  let init := Q2R (lr_warmup_init p) in
  let w := lr_warmup_step p in
  let t := total_steps p in
  ((step < w)%Z ->
   learning_rate_schedule p step =
   Ok (init + IZR step / IZR w * (adj - init))) /\
  ((w <= step)%Z ->
   learning_rate_schedule p step =
   Ok (adj * 0.5 * (1 + cos (PI * IZR step / IZR t)))) /\
  learning_rate_schedule p w =
  Ok (adj * 0.5 * (1 + cos (PI * IZR w / IZR t))) /\
  (0 < adj -> adj * 0.5 * (1 + cos (PI * IZR w / IZR t)) < adj) /\
  learning_rate_schedule p t = Ok 0.
Proof.
  intros adj init w t.
  repeat split.
  - intros Hs. rewrite learning_rate_schedule_cosine by assumption.
    unfold cosine_lr_schedule, tf_where. fold w. ltb_cases. reflexivity.
  - intros Hs. rewrite learning_rate_schedule_cosine by assumption.
    f_equal. apply cosine_lr_schedule_after_warmup. exact Hs.
  - rewrite learning_rate_schedule_cosine by assumption.
    f_equal. apply cosine_lr_schedule_after_warmup. lia.
  - intros Hadj. pose proof (cosine_factor_at_warmup w t Hw). nra.
  - rewrite learning_rate_schedule_cosine by assumption.
    f_equal. fold adj init w t.
    rewrite cosine_lr_schedule_after_warmup by lia.
    replace (PI * IZR t / IZR t) with PI.
    + rewrite cos_PI. ring.
    + field. apply not_0_IZR. lia.
Qed.

Lemma cosine_schedule_values_witness :
  learning_rate_schedule cosine_example 2 = Ok 0.
Proof.
  apply (cosine_schedule_values cosine_example 0);
    [reflexivity | simpl; lia].
Defined.

(** C5 as stated fails: with [adjusted_lr = 1], [lr_warmup_step = 1] and
    [total_steps = 2] the rate at the warmup boundary is 0.5, not
    [adjusted_lr]. *)
Lemma cosine_schedule_not_continuous :
  lr_decay_method cosine_example = "cosine"%string /\
  (0 < lr_warmup_step cosine_example < total_steps cosine_example)%Z /\
  learning_rate_schedule cosine_example (lr_warmup_step cosine_example) <>
  Ok (Q2R (adjusted_learning_rate cosine_example)).
Proof.
  split; [reflexivity|]. split; [simpl; lia|].
  rewrite learning_rate_schedule_cosine by reflexivity.
  rewrite cosine_lr_schedule_after_warmup by (simpl; lia).
  simpl. intros H. injection H as H.
  replace (PI * 1 / 2) with (PI / 2) in H by lra.
  rewrite cos_PI2 in H. unfold Q2R in H. simpl in H. lra.
Qed.

(** The two cosine schedules at the warmup boundary. *)
Lemma cosine_lr_schedule_tf2_at_warmup (adj init : R) (w t : Z) :
  (0 < w)%Z -> cosine_lr_schedule_tf2 adj init w t w = adj.
Proof.
  intros Hw. unfold cosine_lr_schedule_tf2. rewrite Z.leb_refl.
  assert (IZR w <> 0) by (apply not_0_IZR; lia).
  field. assumption.
Qed.

(** C10, as the code has it.  For [0 < lr_warmup_step < total_steps], at
    [step = lr_warmup_step] the TF2 variant returns [adjusted_lr] and
    [cosine_lr_schedule] returns
    [adjusted_lr * 0.5 * (1 + cos(pi * lr_warmup_step / total_steps))]; the
    two differ there whenever [adjusted_lr] is not zero.  With method
    'cosine', [learning_rate_schedule] returns what [cosine_lr_schedule]
    returns. *)
Theorem cosine_variants_differ (adj init : R) (w t : Z)
    (H : (0 < w < t)%Z) :
  cosine_lr_schedule_tf2 adj init w t w = adj /\
  cosine_lr_schedule adj init w t w =
  adj * 0.5 * (1 + cos (PI * IZR w / IZR t)) /\
  (adj <> 0 ->
   cosine_lr_schedule_tf2 adj init w t w <> cosine_lr_schedule adj init w t w) /\
  (forall (p : params) (step : Z),
     lr_decay_method p = "cosine"%string ->
     learning_rate_schedule p step =
     Ok (cosine_lr_schedule (Q2R (adjusted_learning_rate p))
           (Q2R (lr_warmup_init p)) (lr_warmup_step p) (total_steps p) step)).
Proof.
  assert (Htf2 := cosine_lr_schedule_tf2_at_warmup adj init w t (proj1 H)).
  assert (Hcos := cosine_lr_schedule_after_warmup adj init w t w (Z.le_refl w)).
  repeat split; try assumption.
  - intros Hadj. rewrite Htf2, Hcos.
    pose proof (cosine_factor_at_warmup w t H). nra.
  - intros p step. apply learning_rate_schedule_cosine.
Qed.

Lemma cosine_variants_differ_witness :
  cosine_lr_schedule_tf2 1 0 1 2 1 = 1.
Proof.
  apply (cosine_variants_differ 1 0 1 2). lia.
Defined.

(** C10 as stated fails for a record whose adjusted learning rate is zero:
    there the two schedules agree at every step. *)
Lemma cosine_variants_agree_at_zero_rate :
  (0 < 1 < 2)%Z /\
  ~ exists step : Z,
      cosine_lr_schedule_tf2 0 0.008 1 2 step <>
      cosine_lr_schedule 0 0.008 1 2 step.
Proof.
  split; [lia|]. intros [step Hdiff]. apply Hdiff.
  unfold cosine_lr_schedule_tf2, cosine_lr_schedule, tf_where.
  destruct (Z.leb_spec step 1) as [Hle|Hgt];
    destruct (Z.ltb_spec step 1) as [Hlt|Hge]; try lia.
  - unfold Rdiv. ring.
  - assert (step = 1%Z) by lia. subst step. lra.
  - ring.
Qed.

(** ** Rounding to binary64 *)

Ltac qlra := Lqa.lra.
Ltac qnra := Lqa.nra.

Section Rounding.

Local Open Scope Q_scope.

Lemma rne_near (q : Q) :
  inject_Z (rne q) - (1 # 2) <= q /\ q <= inject_Z (rne q) + (1 # 2).
Proof.
  unfold rne. pose proof (Qfloor_le q) as Hl. pose proof (Qlt_floor q) as Hu.
  assert (Hs : inject_Z (Qfloor q + 1) == inject_Z (Qfloor q) + 1)
    by (rewrite inject_Z_plus; reflexivity).
  rewrite Hs in Hu.
  destruct (Qcompare_spec (q - inject_Z (Qfloor q)) (1 # 2)) as [H|H|H].
  - destruct (Z.even (Qfloor q)); [|rewrite Hs]; clear Hs; split; qlra.
  - clear Hs. split; qlra.
  - rewrite Hs. clear Hs. split; qlra.
Qed.

Lemma rne_comp (a b : Q) : a == b -> rne a = rne b.
Proof.
  intros H. unfold rne. rewrite (Qfloor_comp a b H).
  assert (Hc : (a - inject_Z (Qfloor b) ?= 1 # 2) = (b - inject_Z (Qfloor b) ?= 1 # 2)).
  { rewrite H. reflexivity. }
  rewrite Hc. reflexivity.
Qed.

Lemma rne_monotone (a b : Q) : a <= b -> (rne a <= rne b)%Z.
Proof.
  intros Hab. destruct (Z_le_gt_dec (rne a) (rne b)) as [H|H]; [exact H|].
  exfalso.
  destruct (rne_near a) as [Ha _]. destruct (rne_near b) as [_ Hb].
  assert (Hz : inject_Z (rne b) + 1 <= inject_Z (rne a)).
  { change 1 with (inject_Z 1). rewrite <- inject_Z_plus, <- Zle_Qle. lia. }
  assert (Heq : a == b) by qlra.
  rewrite (rne_comp a b Heq) in H. lia.
Qed.

Lemma rne_Z (z : Z) : rne (inject_Z z) = z.
Proof.
  unfold rne. rewrite Qfloor_Z.
  destruct (Qcompare_spec (inject_Z z - inject_Z z) (1 # 2)) as [H|H|H];
    try reflexivity; exfalso; qlra.
Qed.

Lemma pow2_pos (e : Z) : 0 < 2 ^ e.
Proof. apply Qpower_0_lt. reflexivity. Qed.

Lemma pow2_add (a b : Z) : 2 ^ (a + b) == 2 ^ a * 2 ^ b.
Proof. apply Qpower_plus. discriminate. Qed.

Lemma pow2_cancel (e : Z) : 2 ^ (- e) * 2 ^ e == 1.
Proof. rewrite <- pow2_add. replace (- e + e)%Z with 0%Z by lia. reflexivity. Qed.

Lemma pow2_le (a b : Z) : (a <= b)%Z -> 2 ^ a <= 2 ^ b.
Proof. intros H. apply Qpower_le_compat_l; [exact H | discriminate]. Qed.

Lemma pow2_Z (k : Z) : (0 <= k)%Z -> inject_Z (2 ^ k) == 2 ^ k.
Proof. intros H. apply (Zpower_Qpower 2 k H). Qed.

Lemma binade_spec (n d : positive) :
  2 ^ 52 <= (Zpos n # d) * 2 ^ (- binade n d) /\
  (Zpos n # d) * 2 ^ (- binade n d) < 2 ^ 53.
Proof.
  unfold binade.
  set (ln := Z.log2 (Zpos n)). set (ld := Z.log2 (Zpos d)).
  set (s := (53 + ld - ln)%Z).
  set (x := Zpos n # d).
  assert (Hbounds : 2 ^ 52 < x * 2 ^ s /\ x * 2 ^ s < 2 ^ 54).
  { pose proof (Z.log2_spec (Zpos n) eq_refl) as [Hn1 Hn2].
    pose proof (Z.log2_spec (Zpos d) eq_refl) as [Hd1 Hd2].
    fold ln in Hn1, Hn2. fold ld in Hd1, Hd2.
    pose proof (Z.log2_nonneg (Zpos n)) as Hln. fold ln in Hln.
    pose proof (Z.log2_nonneg (Zpos d)) as Hld. fold ld in Hld.
    rewrite Z.pow_succ_r in Hn2, Hd2 by assumption.
    rewrite Zle_Qle in Hn1, Hd1. rewrite Zlt_Qlt in Hn2, Hd2.
    rewrite inject_Z_mult in Hn2, Hd2.
    rewrite pow2_Z in Hn1, Hn2, Hd1, Hd2 by assumption.
    assert (Hx : x * inject_Z (Zpos d) == inject_Z (Zpos n)).
    { unfold x, Qeq, inject_Z. simpl. lia. }
    assert (Hs : 2 ^ s * 2 ^ ln == 2 ^ 53 * 2 ^ ld).
    { rewrite <- !pow2_add. replace (s + ln)%Z with (53 + ld)%Z by (unfold s; lia).
      reflexivity. }
    pose proof (pow2_pos ln). pose proof (pow2_pos ld). pose proof (pow2_pos s).
    change (inject_Z 2) with 2 in *.
    set (N := inject_Z (Zpos n)) in *. set (D := inject_Z (Zpos d)) in *.
    set (A := 2 ^ ln) in *. set (B := 2 ^ ld) in *. set (S := 2 ^ s) in *.
    assert (HD : 0 < D) by qlra.
    assert (Hxpos : 0 < x) by qnra.
    change (2 ^ 52) with (4503599627370496 # 1).
    change (2 ^ 54) with (18014398509481984 # 1).
    change (2 ^ 53) with (9007199254740992 # 1) in Hs.
    split.
    - (* x*S*A*D = 2^53 * B * N ... *)
      assert (Hprod : x * S * (A * D) == (9007199254740992 # 1) * B * N) by
        (transitivity ((x * D) * (S * A)); [ring | rewrite Hx, Hs; ring]).
      assert (HAD : 0 < A * D) by qnra.
      apply Qnot_le_lt. intros Hle.
      assert (x * S * (A * D) <= (4503599627370496 # 1) * (A * D)) by qnra.
      qnra.
    - assert (Hprod : x * S * (A * D) == (9007199254740992 # 1) * B * N) by
        (transitivity ((x * D) * (S * A)); [ring | rewrite Hx, Hs; ring]).
      assert (HAD : 0 < A * D) by qnra.
      apply Qnot_le_lt. intros Hle.
      assert ((18014398509481984 # 1) * (A * D) <= x * S * (A * D)) by qnra.
      qnra. }
  destruct Hbounds as [Hlo Hhi].
  destruct (Qlt_le_dec (x * 2 ^ s) (2 ^ 53)) as [Hlt|Hge].
  - rewrite Z.opp_involutive. split; [apply Qlt_le_weak; exact Hlo | exact Hlt].
  - replace (- (1 - s))%Z with (s + -1)%Z by lia.
    rewrite pow2_add. change (2 ^ (-1)) with (1 # 2).
    change (2 ^ 52) with (4503599627370496 # 1) in *.
    change (2 ^ 54) with (18014398509481984 # 1) in *.
    change (2 ^ 53) with (9007199254740992 # 1) in *.
    set (v := x * 2 ^ s) in *.
    split.
    + setoid_replace (x * (2 ^ s * (1 # 2))) with (v * (1 # 2)) by (unfold v; ring). qlra.
    + setoid_replace (x * (2 ^ s * (1 # 2))) with (v * (1 # 2)) by (unfold v; ring). qlra.
Qed.

Lemma rne_scaled_bounds (n d : positive) :
  (2 ^ 52 <= rne ((Zpos n # d) * 2 ^ (- binade n d)) <= 2 ^ 53)%Z.
Proof.
  destruct (binade_spec n d) as [Hlo Hhi]. split.
  - rewrite <- (rne_Z (2 ^ 52)). apply rne_monotone. exact Hlo.
  - rewrite <- (rne_Z (2 ^ 53)). apply rne_monotone.
    apply Qlt_le_weak. exact Hhi.
Qed.

Lemma round_pos_positive (n d : positive) : 0 < round_pos n d.
Proof.
  unfold round_pos. destruct (rne_scaled_bounds n d) as [Hlo _].
  pose proof (pow2_pos (binade n d)) as Hp.
  set (m := rne ((Zpos n # d) * 2 ^ (- binade n d))) in *.
  assert (0 < inject_Z m).
  { change 0 with (inject_Z 0). rewrite <- Zlt_Qlt.
    assert (0 < 2 ^ 52)%Z by reflexivity. lia. }
  qnra.
Qed.

Lemma round_pos_monotone (n d n' d' : positive) :
  (Zpos n # d) <= (Zpos n' # d') -> round_pos n d <= round_pos n' d'.
Proof.
  intros Hxy. unfold round_pos.
  destruct (binade_spec n d) as [Hlo Hhi].
  destruct (binade_spec n' d') as [Hlo' Hhi'].
  destruct (rne_scaled_bounds n d) as [_ Hm].
  destruct (rne_scaled_bounds n' d') as [Hm' _].
  set (x := Zpos n # d) in *. set (y := Zpos n' # d') in *.
  set (e := binade n d) in *. set (e' := binade n' d') in *.
  pose proof (pow2_pos e) as He. pose proof (pow2_pos e') as He'.
  pose proof (pow2_pos (- e)) as Hne. pose proof (pow2_pos (- e')) as Hne'.
  pose proof (pow2_cancel e) as Hc. pose proof (pow2_cancel e') as Hc'.
  assert (Hx : 2 ^ 52 * 2 ^ e <= x).
  { assert (Hxe : x * 2 ^ (- e) * 2 ^ e == x)
      by (rewrite <- Qmult_assoc, Hc; ring).
    rewrite <- Hxe. apply Qmult_le_compat_r; [exact Hlo | apply Qlt_le_weak, He]. }
  assert (Hy : y < 2 ^ 53 * 2 ^ e').
  { assert (Hye : y * 2 ^ (- e') * 2 ^ e' == y)
      by (rewrite <- Qmult_assoc, Hc'; ring).
    rewrite <- Hye. apply Qmult_lt_compat_r; [exact He' | exact Hhi']. }
  assert (Hee : (e <= e')%Z).
  { assert (Hlt : 2 ^ (52 + e) < 2 ^ (53 + e')).
    { rewrite !pow2_add. eapply Qle_lt_trans; [exact Hx|].
      eapply Qle_lt_trans; [exact Hxy | exact Hy]. }
    apply Qpower_lt_compat_l_inv in Hlt; [lia | reflexivity]. }
  destruct (Z.eq_dec e e') as [Heq|Hneq].
  - rewrite <- Heq in *.
    apply Qmult_le_compat_r; [|apply Qlt_le_weak, He].
    rewrite <- Zle_Qle. apply rne_monotone.
    apply Qmult_le_compat_r; [exact Hxy | apply Qlt_le_weak, Hne].
  - set (m := rne (x * 2 ^ (- e))) in *. set (m' := rne (y * 2 ^ (- e'))) in *.
    rewrite Zle_Qle in Hm, Hm'.
    rewrite pow2_Z in Hm, Hm' by lia.
    assert (Hstep : 2 ^ 53 * 2 ^ e <= 2 ^ 52 * 2 ^ e').
    { rewrite <- !pow2_add. apply pow2_le. lia. }
    apply Qle_trans with (2 ^ 53 * 2 ^ e).
    + apply Qmult_le_compat_r; [exact Hm | apply Qlt_le_weak, He].
    + apply Qle_trans with (2 ^ 52 * 2 ^ e'); [exact Hstep|].
      apply Qmult_le_compat_r; [exact Hm' | apply Qlt_le_weak, He'].
Qed.

(** Rounding keeps the order of non-negative numbers. *)
Lemma round64_monotone (x y : Q) :
  0 <= x -> x <= y -> 0 <= round64 x /\ round64 x <= round64 y.
Proof.
  intros Hx Hxy. unfold round64. rewrite !Qred_correct.
  destruct x as [nx dx], y as [ny dy]. simpl Qnum. simpl Qden.
  destruct nx as [|nx|nx].
  - split; [apply Qle_refl|].
    destruct ny as [|ny|ny].
    + apply Qle_refl.
    + apply Qlt_le_weak, round_pos_positive.
    + exfalso. unfold Qle in Hxy. simpl in Hxy. lia.
  - destruct ny as [|ny|ny].
    + exfalso. unfold Qle in Hxy. simpl in Hxy. lia.
    + split; [apply Qlt_le_weak, round_pos_positive|].
      apply round_pos_monotone. exact Hxy.
    + exfalso. unfold Qle in Hxy. simpl in Hxy. lia.
  - exfalso. unfold Qle in Hx. simpl in Hx. lia.
Qed.

Lemma round_pos_accuracy (n d : positive) :
  (Zpos n # d) * (1 - (1 # 9007199254740992)) <= round_pos n d /\
  round_pos n d <= (Zpos n # d) * (1 + (1 # 9007199254740992)).
Proof.
  unfold round_pos.
  destruct (binade_spec n d) as [Hlo _].
  set (x := Zpos n # d) in *. set (e := binade n d) in *.
  destruct (rne_near (x * 2 ^ (- e))) as [Hn1 Hn2].
  pose proof (pow2_pos e) as He. pose proof (pow2_cancel e) as Hc.
  set (q := x * 2 ^ (- e)) in *.
  set (m := inject_Z (rne q)) in *.
  assert (Hx : x == q * 2 ^ e).
  { unfold q. rewrite <- Qmult_assoc, Hc. ring. }
  assert (H52 : 2 ^ 52 == 4503599627370496) by reflexivity.
  rewrite H52 in Hlo. rewrite Hx.
  set (t := 2 ^ e) in *. clearbody t m q. clear Hx Hc H52.
  split.
  - assert (H : q * (1 - (1 # 9007199254740992)) <= m) by qlra.
    setoid_replace (q * t * (1 - (1 # 9007199254740992)))
      with (q * (1 - (1 # 9007199254740992)) * t) by ring.
    apply Qmult_le_compat_r; [exact H | apply Qlt_le_weak, He].
  - assert (H : m <= q * (1 + (1 # 9007199254740992))) by qlra.
    setoid_replace (q * t * (1 + (1 # 9007199254740992)))
      with (q * (1 + (1 # 9007199254740992)) * t) by ring.
    apply Qmult_le_compat_r; [exact H | apply Qlt_le_weak, He].
Qed.

(** Rounding moves a non-negative number by at most one part in [2^53]. *)
Lemma round64_accuracy (x : Q) :
  0 <= x ->
  x * (1 - (1 # 9007199254740992)) <= round64 x /\
  round64 x <= x * (1 + (1 # 9007199254740992)).
Proof.
  intros Hx. unfold round64. rewrite Qred_correct.
  destruct x as [nx dx]. simpl Qnum. simpl Qden.
  destruct nx as [|nx|nx].
  - split; unfold Qle; simpl; lia.
  - apply round_pos_accuracy.
  - exfalso. unfold Qle in Hx. simpl in Hx. lia.
Qed.

Lemma round_pos_binary64 (n d : positive) : binary64 (round_pos n d).
Proof.
  exists (rne ((Zpos n # d) * 2 ^ (- binade n d))), (binade n d). split.
  - destruct (rne_scaled_bounds n d) as [Hlo Hhi].
    assert (0 < 2 ^ 52)%Z by reflexivity. lia.
  - reflexivity.
Qed.

(** The result of a rounding is a binary64 number. *)
Lemma round64_binary64 (x : Q) : binary64 (round64 x).
Proof.
  unfold round64.
  destruct (Qnum x) as [|n|n].
  - exists 0%Z, 0%Z. split; [discriminate | reflexivity].
  - destruct (round_pos_binary64 n (Qden x)) as (m & e & Hm & Hx).
    exists m, e. split; [exact Hm|]. rewrite Qred_correct. exact Hx.
  - destruct (round_pos_binary64 n (Qden x)) as (m & e & Hm & Hx).
    exists (- m)%Z, e. split; [lia|]. rewrite Qred_correct, Hx.
    rewrite inject_Z_opp. ring.
Qed.

Lemma round_pos_exact (n d : positive) :
  binary64 (Zpos n # d) -> round_pos n d == Zpos n # d.
Proof.
  intros (m & e & Hm & Hx). unfold round_pos.
  destruct (binade_spec n d) as [Hlo Hhi].
  set (x := Zpos n # d) in *. set (b := binade n d) in *.
  pose proof (pow2_cancel b) as Hc. pose proof (pow2_pos b) as Hb.
  assert (Hxpos : 0 < x) by reflexivity.
  assert (Hmpos : (0 < m)%Z).
  { destruct (Z_lt_le_dec 0 m) as [H|H]; [exact H|]. exfalso.
    assert (Hle : inject_Z m <= 0)
      by (change 0 with (inject_Z 0); rewrite <- Zle_Qle; exact H).
    pose proof (pow2_pos e). rewrite Hx in Hxpos. qnra. }
  assert (Hm53 : inject_Z m <= 2 ^ 53).
  { rewrite <- pow2_Z by lia. rewrite <- Zle_Qle. lia. }
  assert (Hm0 : 0 < inject_Z m)
    by (change 0 with (inject_Z 0); rewrite <- Zlt_Qlt; exact Hmpos).
  assert (Hq : x * 2 ^ (- b) == inject_Z m * 2 ^ (e - b)).
  { rewrite Hx. unfold Z.sub. rewrite pow2_add. ring. }
  assert (Hk : (-1 <= e - b)%Z).
  { destruct (Z_le_gt_dec (-1) (e - b)) as [H|H]; [exact H|]. exfalso.
    assert (Hp : 2 ^ (e - b) <= 2 ^ (-2)) by (apply pow2_le; lia).
    pose proof (pow2_pos (e - b)) as Hpp.
    rewrite Hq in Hlo.
    assert (H53 : 2 ^ 53 == 9007199254740992) by reflexivity.
    assert (H52 : 2 ^ 52 == 4503599627370496) by reflexivity.
    assert (H2 : 2 ^ (-2) == 1 # 4) by reflexivity.
    rewrite H53 in Hm53. rewrite H52 in Hlo. rewrite H2 in Hp.
    set (t := 2 ^ (e - b)) in *. clearbody t. qnra. }
  assert (Hint : exists z : Z, x * 2 ^ (- b) == inject_Z z).
  { destruct (Z.eq_dec (e - b) (-1)) as [H1|H1].
    - exists (2 ^ 52)%Z. rewrite Hq, H1.
      rewrite Hq, H1 in Hlo.
      assert (H53 : 2 ^ 53 == 9007199254740992) by reflexivity.
      assert (H52 : 2 ^ 52 == 4503599627370496) by reflexivity.
      assert (H2 : 2 ^ (-1) == 1 # 2) by reflexivity.
      rewrite H53 in Hm53. rewrite H52 in Hlo. rewrite H2 in Hlo |- *.
      change (inject_Z (2 ^ 52)) with 4503599627370496.
      set (im := inject_Z m) in *. clearbody im. qlra.
    - exists (m * 2 ^ (e - b))%Z. rewrite Hq, inject_Z_mult.
      rewrite pow2_Z by lia. reflexivity. }
  destruct Hint as [z Hz].
  rewrite (rne_comp _ _ Hz), rne_Z, <- Hz.
  rewrite <- Qmult_assoc, Hc. ring.
Qed.

(** A binary64 number rounds to itself. *)
Lemma round64_exact (x : Q) : binary64 x -> round64 x == x.
Proof.
  intros Hx. unfold round64. rewrite Qred_correct.
  destruct x as [nx dx]. simpl Qnum. simpl Qden.
  destruct nx as [|nx|nx].
  - reflexivity.
  - apply round_pos_exact. exact Hx.
  - assert (Hneg : binary64 (Zpos nx # dx)).
    { destruct Hx as (m & e & Hm & Hx). exists (- m)%Z, e. split; [lia|].
      rewrite inject_Z_opp.
      setoid_replace (- inject_Z m * 2 ^ e) with (- (inject_Z m * 2 ^ e))
        by ring.
      rewrite <- Hx. reflexivity. }
    rewrite (round_pos_exact _ _ Hneg). reflexivity.
Qed.

(** Rounding twice is rounding once. *)
Lemma round64_idempotent (x : Q) : round64 (round64 x) == round64 x.
Proof. apply round64_exact, round64_binary64. Qed.

End Rounding.

(** ** Schedule parameters *)

(** [int(x)] drops the fractional part: it lies between zero and [x], less
    than one away from [x]. *)
Lemma py_int_truncates (x : Q) :
  ((0 <= x -> inject_Z (py_int x) <= x /\ x < inject_Z (py_int x) + 1) /\
   (x <= 0 -> x <= inject_Z (py_int x) /\ inject_Z (py_int x) - 1 < x))%Q.
Proof.
  destruct x as [n d]. unfold py_int, Qle, Qlt, inject_Z. simpl.
  pose proof (Z.quot_rem' n (Zpos d)) as Hqr.
  split; intros Hsign.
  - assert (0 <= n)%Z by lia.
    pose proof (Z.rem_bound_pos_pos n (Zpos d) ltac:(lia) ltac:(lia)).
    split; nia.
  - assert (n <= 0)%Z by lia.
    pose proof (Z.rem_bound_pos_neg n (Zpos d) ltac:(lia) ltac:(lia)).
    split; nia.
Qed.

(** C6, as the code has it.  The effective batch size is
    [batch_size * num_shards] exactly when [strategy] is 'tpu' and
    [batch_size] otherwise; when it is not zero the call sets
    [adjusted_learning_rate = learning_rate * effective_batch_size / 64] and,
    with [steps_per_epoch = num_examples_per_epoch / effective_batch_size],
    each of the four step counts to [int(epochs * steps_per_epoch)], the
    product truncated toward zero.  The products and quotients are those of
    Python's floats, each rounded to binary64. *)
Theorem update_learning_rate_schedule_parameters_values (p : params)
    (Hb : effective_batch_size p <> 0%Z) :
  let bs := effective_batch_size p in
  let steps_per_epoch := int_true_div (num_examples_per_epoch p) bs in
  (strategy p = "tpu"%string -> bs = (batch_size p * num_shards p)%Z) /\
  (strategy p <> "tpu"%string -> bs = batch_size p) /\
  exists p' : params,
    update_learning_rate_schedule_parameters p = Ok p' /\
    adjusted_learning_rate p' =
      float_div (float_mul (as_float (learning_rate p)) (float_of_int bs))
                (float_of_int 64) /\
    lr_warmup_step p' =
      py_int (float_mul (as_float (lr_warmup_epoch p)) steps_per_epoch) /\
    first_lr_drop_step p' =
      py_int (float_mul (as_float (first_lr_drop_epoch p)) steps_per_epoch) /\
    second_lr_drop_step p' =
      py_int (float_mul (as_float (second_lr_drop_epoch p)) steps_per_epoch) /\
    total_steps p' =
      py_int (float_mul (as_float (num_epochs p)) steps_per_epoch).
Proof.
  intros bs steps_per_epoch. repeat split.
  - intros Hs. unfold bs, effective_batch_size. rewrite Hs. reflexivity.
  - intros Hs. unfold bs, effective_batch_size.
    destruct (String.eqb_spec (strategy p) "tpu"); congruence.
  - unfold update_learning_rate_schedule_parameters.
    destruct (Z.eqb_spec (effective_batch_size p) 0) as [Hz|_]; [contradiction|].
    eexists. split; [reflexivity|]. simpl. repeat split.
Qed.

Lemma update_learning_rate_schedule_parameters_values_witness :
  exists p' : params,
    update_learning_rate_schedule_parameters example_params = Ok p' /\
    adjusted_learning_rate p' =
      float_div (float_mul (as_float (learning_rate example_params))
                           (float_of_int 64))
                (float_of_int 64) /\
    lr_warmup_step p' = 1875%Z /\
    first_lr_drop_step p' = 375000%Z /\
    second_lr_drop_step p' = 468750%Z /\
    total_steps p' = 562500%Z.
Proof.
  apply (update_learning_rate_schedule_parameters_values example_params).
  vm_compute. discriminate.
Defined.

(** C6 as stated fails on [round]: with 7 examples per epoch, batches of 4
    and one warmup epoch, where every float operation is exact,
    [lr_warmup_step] becomes 1, and 1 is not an integer nearest to 7/4. *)
Lemma update_learning_rate_schedule_parameters_truncates :
  exists p' : params,
    update_learning_rate_schedule_parameters rounding_example = Ok p' /\
    lr_warmup_step p' = 1%Z /\
    ~ nearest_integer
        (lr_warmup_epoch rounding_example *
         (inject_Z (num_examples_per_epoch rounding_example) /
          inject_Z (effective_batch_size rounding_example)))
        (lr_warmup_step p').
Proof.
  eexists. split; [reflexivity|]. split; [reflexivity|].
  vm_compute. intros H. apply H. reflexivity.
Qed.

(** The rounding of the floats shows in the step counts: [23 / 5] rounds
    below 4.6 and two hundred times it rounds below 920, so the first drop
    is at step 919 where the exact product is 920. *)
Example update_rounds_floats :
  exists p' : params,
    update_learning_rate_schedule_parameters binary64_example = Ok p' /\
    first_lr_drop_step p' = 919%Z /\
    py_int (first_lr_drop_epoch binary64_example *
            (inject_Z (num_examples_per_epoch binary64_example) /
             inject_Z (effective_batch_size binary64_example))) = 920%Z.
Proof. eexists. repeat split. Qed.

(** A product that is a binary64 number is not rounded, and neither is a
    binary64 number of the dictionary or an integer of at most 53 bits. *)
Lemma float_mul_exact (a b : Q) :
  binary64 (a * b) -> (float_mul a b == a * b)%Q.
Proof. apply round64_exact. Qed.

Lemma as_float_exact (x : Q) : binary64 x -> (as_float x == x)%Q.
Proof. apply round64_exact. Qed.

Lemma float_of_int_exact (z : Z) :
  (Z.abs z <= 2 ^ 53)%Z -> (float_of_int z == inject_Z z)%Q.
Proof.
  intros Hz. apply round64_exact. exists z, 0%Z. split; [exact Hz|].
  change (2 ^ 0)%Q with 1%Q. ring.
Qed.

(** ** Elementwise operations *)

Lemma length_zip_with (f : R -> R -> R) (a b : tensor) :
  length (zip_with f a b) = Nat.min (length a) (length b).
Proof.
  revert b. induction a as [|x a IH]; intros [|y b]; simpl; auto.
Qed.

Lemma elementwise_ok (f : R -> R -> R) (a b : tensor) :
  length a = length b -> elementwise f a b = Ok (zip_with f a b).
Proof.
  intros H. unfold elementwise. rewrite H, Nat.eqb_refl. reflexivity.
Qed.

Lemma nth_error_zip_with (f : R -> R -> R) (a b : tensor) (i : nat) :
  nth_error (zip_with f a b) i =
  match nth_error a i, nth_error b i with
  | Some x, Some y => Some (f x y)
  | _, _ => None
  end.
Proof.
  revert a b. induction i as [|i IH]; intros [|x a] [|y b]; simpl; auto.
  destruct (nth_error a i); reflexivity.
Qed.

Lemma zip_with_nil_r (f : R -> R -> R) (a : tensor) : zip_with f a [] = [].
Proof. destruct a; reflexivity. Qed.

Ltac tensor_lengths :=
  unfold scalar_sub, mul_scalar, add_scalar, div_scalar;
  repeat (rewrite ?length_map, ?length_zip_with);
  lia.

(** One element of the focal loss, from the logit [x] and the target [z]. *)
Lemma focal_loss_ok (y_pred y_true : tensor)
    (alpha gamma normalizer label_smoothing : R) :
  length y_pred = length y_true ->
  exists loss : tensor,
    focal_loss y_pred y_true alpha gamma normalizer label_smoothing = Ok loss /\
    length loss = length y_pred /\
    forall (i : nat) (x z : R),
      nth_error y_pred i = Some x -> nth_error y_true i = Some z ->
      nth_error loss i =
      Some ((z * alpha + (1 - z) * (1 - alpha)) *
            tf_pow (1.0 - (z * sigmoid x + (1 - z) * (1 - sigmoid x))) gamma *
            sigmoid_cross_entropy
              (z * (1.0 - label_smoothing) + 0.5 * label_smoothing) x /
            normalizer).
Proof.
  intros Hlen. unfold focal_loss, tf_mul, tf_add,
    sigmoid_cross_entropy_with_logits.
  repeat (rewrite elementwise_ok by tensor_lengths; cbn [bind]).
  eexists. split; [reflexivity|]. split; [tensor_lengths|].
  intros i x z Hx Hz.
  unfold scalar_sub, mul_scalar, add_scalar, div_scalar.
  repeat (rewrite ?nth_error_map, ?nth_error_zip_with, ?Hx, ?Hz; cbn [option_map]).
  reflexivity.
Qed.

Lemma sigmoid_range (x : R) : 0 < sigmoid x < 1.
Proof.
  unfold sigmoid. pose proof (exp_pos (- x)) as He.
  assert (0 < / (1 + exp (- x))) by (apply Rinv_0_lt_compat; lra).
  split; [lra|].
  apply Rmult_lt_reg_r with (1 + exp (- x)); [lra|].
  unfold Rdiv. rewrite Rmult_assoc, Rinv_l; lra.
Qed.

(** Targets between 0 and 1 keep the base of the modulating factor
    positive. *)
Lemma unit_targets_pow_is_real (y_pred y_true : tensor) (gamma : R) :
  Forall (fun z => 0 <= z <= 1) y_true ->
  forall (i : nat) (x z : R),
    nth_error y_pred i = Some x -> nth_error y_true i = Some z ->
    pow_is_real (1 - (z * sigmoid x + (1 - z) * (1 - sigmoid x))) gamma.
Proof.
  intros Htargets i x z _ Hz. left.
  assert (Hzr : 0 <= z <= 1).
  { rewrite Forall_forall in Htargets. apply Htargets.
    eapply nth_error_In. exact Hz. }
  pose proof (sigmoid_range x). nra.
Qed.

Lemma tf_pow_zero_exponent (x : R) : tf_pow x 0 = 1.
Proof.
  unfold tf_pow. destruct (Req_dec_T 0 0) as [_|H]; [reflexivity|].
  exfalso. apply H. reflexivity.
Qed.

Lemma Int_part_IZR (n : Z) : Int_part (IZR n) = n.
Proof. symmetry. apply Int_part_spec. lra. Qed.

(** On a negative base an integer exponent gives the signed power, as
    [(-0.5) ** 2 = 0.25]. *)
Lemma tf_pow_negative_base (x : R) (n : Z) :
  x < 0 -> tf_pow x (IZR n) = powerRZ x n.
Proof.
  intros Hx. unfold tf_pow.
  destruct (Req_dec_T (IZR n) 0) as [Hz|Hnz].
  - apply eq_IZR in Hz. subst n. reflexivity.
  - destruct (Rlt_dec 0 x); [lra|].
    destruct (Req_dec_T x 0); [lra|].
    rewrite Int_part_IZR.
    destruct (Req_dec_T (IZR n) (IZR n)); [reflexivity | contradiction].
Qed.

Example tf_pow_negative_base_square : tf_pow (-0.5) 2 = 0.25.
Proof. rewrite (tf_pow_negative_base (-0.5) 2) by lra. simpl. lra. Qed.

Lemma tf_pow_positive_base (x y : R) :
  0 < x -> y <> 0 -> tf_pow x y = Rpower x y.
Proof.
  intros Hx Hy. unfold tf_pow.
  destruct (Req_dec_T y 0); [contradiction|].
  destruct (Rlt_dec 0 x); [reflexivity | contradiction].
Qed.

(** With [gamma = 2] the modulating factor is the square of its base,
    whatever the sign of the base. *)
Lemma tf_pow_square (x : R) : tf_pow x 2 = x * x.
Proof.
  destruct (Rtotal_order x 0) as [Hneg | [Hzero | Hpos]].
  - rewrite (tf_pow_negative_base x 2 Hneg). simpl. ring.
  - subst x. unfold tf_pow.
    destruct (Req_dec_T 2 0); [lra|].
    destruct (Rlt_dec 0 0); [lra|].
    destruct (Req_dec_T 0 0); [ring | contradiction].
  - rewrite tf_pow_positive_base by lra.
    change 2 with (INR 2). rewrite Rpower_pow by exact Hpos. simpl. ring.
Qed.

(** Where [pow_is_real] holds, [tf_pow] is the power. *)
Lemma tf_pow_is_power (x y : R) :
  (0 < x -> y <> 0 -> tf_pow x y = Rpower x y) /\
  (y = 0 -> tf_pow x y = 1) /\
  (x = 0 -> 0 < y -> tf_pow x y = 0) /\
  (x < 0 -> forall n : Z, y = IZR n -> tf_pow x y = powerRZ x n).
Proof.
  repeat split.
  - apply tf_pow_positive_base.
  - intros ->. apply tf_pow_zero_exponent.
  - intros -> Hy. unfold tf_pow.
    destruct (Req_dec_T y 0); [lra|].
    destruct (Rlt_dec 0 0); [lra|].
    destruct (Req_dec_T 0 0); [reflexivity | contradiction].
  - intros Hx n ->. apply tf_pow_negative_base. exact Hx.
Qed.

(** Operands of different shapes are refused when the graph is built. *)
Lemma elementwise_shape_mismatch (f : R -> R -> R) (a b : tensor) :
  length a <> length b ->
  exists msg : string, elementwise f a b = Raise (ValueError msg).
Proof.
  intros H. unfold elementwise.
  destruct (Nat.eqb_spec (length a) (length b)); [contradiction|].
  eexists. reflexivity.
Qed.

(** C1.  For logits and targets of one shape, [focal_loss] returns the
    tensor whose element at each position is
    [alpha_factor * modulating_factor * sigmoid_cross_entropy(target', x) /
    normalizer], with [p_t], [alpha_factor] and [modulating_factor] taken
    from the unsmoothed target and the smoothed [target'] used in the cross
    entropy only; this is stated where the power [(1 - p_t) ** gamma] is a
    real number, as it is for every target between 0 and 1.  With
    [gamma = 0], [alpha = 0.5] and [label_smoothing = 0] the element is
    [0.5 * sigmoid_cross_entropy(target, x) / normalizer], for every
    target. *)
Theorem focal_loss_elementwise (y_pred y_true : tensor)
    (alpha gamma normalizer label_smoothing : R)
    (Hshape : length y_pred = length y_true)
    (Hreal : forall (i : nat) (x z : R),
        nth_error y_pred i = Some x -> nth_error y_true i = Some z ->
        pow_is_real (1 - (z * sigmoid x + (1 - z) * (1 - sigmoid x))) gamma) :
  (exists loss : tensor,
     focal_loss y_pred y_true alpha gamma normalizer label_smoothing = Ok loss /\
     length loss = length y_pred /\
     forall (i : nat) (x z : R),
       nth_error y_pred i = Some x -> nth_error y_true i = Some z ->
       let p_t := z * sigmoid x + (1 - z) * (1 - sigmoid x) in
       let alpha_factor := z * alpha + (1 - z) * (1 - alpha) in
       let modulating_factor := tf_pow (1 - p_t) gamma in
       let target' := z * (1 - label_smoothing) + 0.5 * label_smoothing in
       nth_error loss i =
       Some (alpha_factor * modulating_factor *
             sigmoid_cross_entropy target' x / normalizer)) /\
  (exists loss : tensor,
     focal_loss y_pred y_true 0.5 0 normalizer 0 = Ok loss /\
     length loss = length y_pred /\
     forall (i : nat) (x z : R),
       nth_error y_pred i = Some x -> nth_error y_true i = Some z ->
       nth_error loss i = Some (0.5 * sigmoid_cross_entropy z x / normalizer)).
Proof.
  split.
  - destruct (focal_loss_ok y_pred y_true alpha gamma normalizer
                label_smoothing Hshape) as (loss & Hrun & Hlen & Hnth).
    exists loss. repeat split; try assumption.
    intros i x z Hx Hz. cbv zeta. rewrite (Hnth i x z Hx Hz).
    repeat f_equal; lra.
  - destruct (focal_loss_ok y_pred y_true 0.5 0 normalizer 0 Hshape)
      as (loss & Hrun & Hlen & Hnth).
    exists loss. repeat split; try assumption.
    intros i x z Hx Hz. rewrite (Hnth i x z Hx Hz).
    rewrite tf_pow_zero_exponent.
    replace (z * (1.0 - 0) + 0.5 * 0) with z by lra.
    replace (z * 0.5 + (1 - z) * (1 - 0.5)) with 0.5 by lra.
    rewrite Rmult_1_r. reflexivity.
Qed.

Lemma focal_loss_elementwise_witness :
  exists loss : tensor,
    focal_loss [2; -1] [1; 0] 0.5 0 3 0 = Ok loss /\
    length loss = 2%nat /\
    forall (i : nat) (x z : R),
      nth_error [2; -1] i = Some x -> nth_error [1; 0] i = Some z ->
      nth_error loss i = Some (0.5 * sigmoid_cross_entropy z x / 3).
Proof.
  apply (focal_loss_elementwise [2; -1] [1; 0] 0.25 1.5 3 0).
  - reflexivity.
  - apply unit_targets_pow_is_real. repeat constructor; lra.
Defined.

(** ** Detection loss *)

Lemma bind_ok_inv {A B : Type} (m : result A) (k : A -> result B) (b : B) :
  bind m k = Ok b -> exists a : A, m = Ok a /\ k a = Ok b.
Proof.
  destruct m as [a|e]; simpl; intros H; [eauto | discriminate].
Qed.

Lemma if_same {A : Type} (b : bool) (x : A) : (if b then x else x) = x.
Proof. destruct b; reflexivity. Qed.

Lemma getitem_ok_inv {A : Type} (d : level_dict A) (text : string) (k : Z)
    (v : A) :
  getitem d text k = Ok v -> lookup d k = Some v.
Proof.
  unfold getitem. destruct (lookup d k); intros H; congruence.
Qed.

Lemma getitem_ok {A : Type} (d : level_dict A) (text : string) (k : Z) (v : A) :
  lookup d k = Some v -> getitem d text k = Ok v.
Proof. unfold getitem. intros ->. reflexivity. Qed.

Lemma tf_mul_ok_inv (a b c : tensor) :
  tf_mul a b = Ok c -> c = zip_with Rmult a b.
Proof.
  unfold tf_mul, elementwise.
  destruct (Nat.eqb (length a) (length b)); intros H; congruence.
Qed.

Lemma reduce_sum_nonneg (t : tensor) :
  Forall (fun x => 0 <= x) t -> 0 <= reduce_sum t.
Proof.
  induction 1 as [|x t Hx _ IH]; simpl; lra.
Qed.

Lemma reduce_sum_zeros (t : tensor) :
  Forall (fun x => x = 0) t -> reduce_sum t = 0.
Proof.
  induction 1 as [|x t Hx _ IH]; simpl; [reflexivity|]. rewrite Hx, IH. lra.
Qed.

Lemma zip_with_mul_zeros (a b : tensor) :
  Forall (fun x => x = 0) b -> Forall (fun x => x = 0) (zip_with Rmult a b).
Proof.
  intros Hb. revert a. induction Hb as [|y b Hy _ IH]; intros [|x a]; simpl;
    constructor; [subst y; ring | apply IH].
Qed.

Lemma length_one_hot (indices : int_tensor) (depth : nat) :
  length (one_hot indices depth) = (length indices * depth)%nat.
Proof.
  unfold one_hot. induction indices as [|i rest IH]; simpl; [reflexivity|].
  rewrite length_app, IH. unfold one_hot_row.
  rewrite length_map, length_seq. reflexivity.
Qed.

Lemma length_expand_last (depth : nat) (t : tensor) :
  length (expand_last depth t) = (length t * depth)%nat.
Proof.
  unfold expand_last. induction t as [|x rest IH]; simpl; [reflexivity|].
  rewrite length_app, IH, repeat_length. reflexivity.
Qed.

Lemma ignored_mask_zeros (depth : nat) (targets : int_tensor) :
  Forall (fun t => t = (-2)%Z) targets ->
  Forall (fun x => x = 0) (expand_last depth (not_equal_int targets (-2))).
Proof.
  induction 1 as [|t rest Ht _ IH]; simpl; [constructor|].
  apply Forall_app. split; [|exact IH].
  subst t. simpl. clear. induction depth; simpl; constructor; auto.
Qed.

Lemma not_equal_zero_zeros (t : tensor) :
  Forall (fun x => x = 0) t -> Forall (fun x => x = 0) (not_equal_zero t).
Proof.
  induction 1 as [|x rest Hx _ IH]; simpl; constructor; [|exact IH].
  destruct (Req_dec_T x 0); [reflexivity | contradiction].
Qed.

Lemma num_positives_sum_ge_1 (l : labels) :
  Forall (fun x => 0 <= x) (mean_num_positives l) ->
  1.0 <= num_positives_sum l.
Proof.
  intros H. unfold num_positives_sum.
  pose proof (reduce_sum_nonneg _ H). lra.
Qed.

Lemma _box_loss_ok (box_outputs box_targets : tensor) (num_positives delta : R) :
  length box_outputs = length box_targets ->
  _box_loss box_outputs box_targets num_positives delta =
  Ok (reduce_sum
        (zip_with Rmult (zip_with (huber delta) box_targets box_outputs)
                  (not_equal_zero box_targets)) /
      (num_positives * 4.0)).
Proof.
  intros Hlen. unfold _box_loss, huber_loss, tf_mul.
  rewrite elementwise_ok by lia. cbn [bind].
  rewrite elementwise_ok; [reflexivity|].
  unfold not_equal_zero. rewrite length_zip_with, length_map. lia.
Qed.

Lemma _box_loss_inv (box_outputs box_targets : tensor)
    (num_positives delta b : R) :
  _box_loss box_outputs box_targets num_positives delta = Ok b ->
  exists s : R,
    huber_loss box_targets box_outputs (not_equal_zero box_targets) delta = Ok s /\
    b = s / (num_positives * 4.0).
Proof.
  unfold _box_loss. intros H.
  apply bind_ok_inv in H as (s & Hs & H). injection H as <-. eauto.
Qed.

Lemma _box_iou_loss_inv (iou_loss : tensor -> tensor -> string -> result tensor)
    (box_outputs box_targets : tensor) (num_positives : R) (kind : string)
    (b : R) :
  _box_iou_loss iou_loss box_outputs box_targets num_positives kind = Ok b ->
  exists t : tensor,
    iou_loss box_outputs box_targets kind = Ok t /\
    b = reduce_sum t / (num_positives * 4.0).
Proof.
  unfold _box_iou_loss. intros H.
  apply bind_ok_inv in H as (t & Ht & H). injection H as <-. eauto.
Qed.

Section DetectionFacts.

Variable iou_loss : tensor -> tensor -> string -> result tensor.
Variables cls_outputs box_outputs : level_dict tensor.
Variable l : labels.
Variable p : params.

Let body := loss_at_level iou_loss cls_outputs box_outputs l p.

(** What a pass of the loop body that returns has appended. *)
Lemma loss_at_level_inv (acc acc' : level_losses) (level : Z) :
  body acc level = Ok acc' ->
  exists (targets : int_tensor) (bt out closs : tensor),
    lookup (cls_targets l) level = Some targets /\
    lookup (box_targets l) level = Some bt /\
    lookup cls_outputs level = Some out /\
    focal_loss out (one_hot targets (num_classes p)) (Q2R (alpha p))
      (Q2R (gamma p)) (num_positives_sum l) (Q2R (label_smoothing p)) =
    Ok closs /\
    cls_losses acc' =
    cls_losses acc ++
    [reduce_sum
       (zip_with Rmult closs
          (expand_last (num_classes p) (not_equal_int targets (-2))))] /\
    (if truthy_float (box_loss_weight p)
     then exists (bo : tensor) (b : R),
            lookup box_outputs level = Some bo /\
            _box_loss bo bt (num_positives_sum l) (Q2R (delta p)) = Ok b /\
            box_losses acc' = box_losses acc ++ [b]
     else box_losses acc' = box_losses acc) /\
    (if truthy_str (iou_loss_type p)
     then exists (kind : string) (bo : tensor) (b : R),
            iou_loss_type p = Some kind /\
            lookup box_outputs level = Some bo /\
            _box_iou_loss iou_loss bo bt (num_positives_sum l) kind = Ok b /\
            box_iou_losses acc' = box_iou_losses acc ++ [b]
     else box_iou_losses acc' = box_iou_losses acc).
Proof.
  unfold body, loss_at_level, reshape. intros H.
  apply bind_ok_inv in H as (targets & Ht & H).
  apply bind_ok_inv in H as (bt & Hbt & H).
  apply bind_ok_inv in H as (out & Hout & H).
  rewrite !if_same in H.
  apply bind_ok_inv in H as (closs & Hc & H).
  rewrite if_same in H.
  apply bind_ok_inv in H as (masked & Hm & H).
  apply tf_mul_ok_inv in Hm. subst masked.
  apply bind_ok_inv in H as (bl & Hbl & H).
  apply bind_ok_inv in H as (il & Hil & H).
  injection H as <-. cbn [cls_losses box_losses box_iou_losses].
  exists targets, bt, out, closs.
  apply getitem_ok_inv in Ht, Hbt, Hout.
  repeat (split; [assumption || reflexivity|]).
  split.
  - destruct (truthy_float (box_loss_weight p)).
    + apply bind_ok_inv in Hbl as (bo & Hbo & Hbl).
      apply bind_ok_inv in Hbl as (b & Hb & Hbl).
      injection Hbl as <-. apply getitem_ok_inv in Hbo. eauto.
    + injection Hbl as <-. reflexivity.
  - destruct (iou_loss_type p) as [kind|]; [|injection Hil as <-; reflexivity].
    destruct (truthy_str (Some kind)).
    + apply bind_ok_inv in Hil as (bo & Hbo & Hil).
      apply bind_ok_inv in Hil as (b & Hb & Hil).
      injection Hil as <-. apply getitem_ok_inv in Hbo.
      exists kind, bo, b. auto.
    + injection Hil as <-. reflexivity.
Qed.

Lemma loss_at_level_ready (acc : level_losses) (level : Z) :
  level_ready iou_loss cls_outputs box_outputs l p level ->
  exists acc' : level_losses, body acc level = Ok acc'.
Proof.
  intros (targets & bt & out & Ht & Hbt & Hout & Hlen & Hbox & Hiou).
  unfold body, loss_at_level, reshape.
  rewrite (getitem_ok _ _ _ _ Ht), (getitem_ok _ _ _ _ Hbt),
    (getitem_ok _ _ _ _ Hout).
  cbn [bind]. rewrite !if_same.
  destruct (focal_loss_ok out (one_hot targets (num_classes p))
              (Q2R (alpha p)) (Q2R (gamma p)) (num_positives_sum l)
              (Q2R (label_smoothing p)))
    as (closs & Hrun & Hclen & _).
  { rewrite length_one_hot. exact Hlen. }
  rewrite Hrun. cbn [bind]. rewrite if_same.
  unfold tf_mul. rewrite elementwise_ok.
  2:{ rewrite length_expand_last. unfold not_equal_int.
      rewrite length_map. lia. }
  cbn [bind].
  assert (Hb : exists bl,
             (if truthy_float (box_loss_weight p)
              then outputs <- getitem box_outputs "" level ;;
                   b <- _box_loss outputs bt (num_positives_sum l)
                          (Q2R (delta p)) ;;
                   Ok (box_losses acc ++ [b])
              else Ok (box_losses acc)) = Ok bl).
  { destruct (truthy_float (box_loss_weight p)); [|eauto].
    destruct (Hbox eq_refl) as (bo & Hbo & Hblen).
    rewrite (getitem_ok _ _ _ _ Hbo). cbn [bind].
    rewrite _box_loss_ok by exact Hblen. cbn [bind]. eauto. }
  destruct Hb as (bl & ->). cbn [bind].
  destruct (iou_loss_type p) as [kind|]; [|cbn [bind]; eauto].
  destruct (truthy_str (Some kind)) eqn:Hkind; [|cbn [bind]; eauto].
  destruct (Hiou kind eq_refl Hkind) as (bo & Hbo & Hok).
  rewrite (getitem_ok _ _ _ _ Hbo). cbn [bind].
  unfold _box_iou_loss.
  destruct (iou_loss bo bt kind); [|discriminate].
  cbn [bind]. eauto.
Qed.

Lemma for_levels_ready (levels : list Z) (acc : level_losses) :
  (forall level : Z, In level levels ->
     level_ready iou_loss cls_outputs box_outputs l p level) ->
  exists acc' : level_losses, for_levels body levels acc = Ok acc'.
Proof.
  revert acc. induction levels as [|level rest IH]; intros acc Hready.
  - simpl. eauto.
  - destruct (loss_at_level_ready acc level) as (acc1 & H1).
    { apply Hready. left. reflexivity. }
    simpl. rewrite H1. cbn [bind].
    apply IH. intros lv Hin. apply Hready. right. exact Hin.
Qed.

(** When every class target is the ignore value, every level appends a
    zero. *)
Lemma for_levels_ignored (levels : list Z) (acc acc' : level_losses) :
  (forall (level : Z) (targets : int_tensor),
     In level levels -> lookup (cls_targets l) level = Some targets ->
     Forall (fun t => t = (-2)%Z) targets) ->
  for_levels body levels acc = Ok acc' ->
  exists cs : list R,
    cls_losses acc' = cls_losses acc ++ cs /\
    length cs = length levels /\
    Forall (fun x => x = 0) cs.
Proof.
  revert acc. induction levels as [|level rest IH]; intros acc Hign Hrun.
  - simpl in Hrun. injection Hrun as <-. exists [].
    rewrite app_nil_r. repeat split. constructor.
  - simpl in Hrun. apply bind_ok_inv in Hrun as (acc1 & H1 & Hrun).
    apply loss_at_level_inv in H1
      as (targets & bt & out & closs & Ht & _ & _ & _ & Hcls & _).
    destruct (IH acc1) as (cs & Hcs & Hlen & Hzero); [|exact Hrun|].
    { intros lv tg Hin. apply Hign. right. exact Hin. }
    eexists (_ :: cs). rewrite Hcs, Hcls, <- app_assoc. simpl.
    split; [reflexivity|]. split; [lia|].
    constructor; [|exact Hzero].
    apply reduce_sum_zeros, zip_with_mul_zeros, ignored_mask_zeros.
    apply (Hign level); [left; reflexivity | exact Ht].
Qed.

Lemma for_levels_grows (levels : list Z) (acc acc' : level_losses) :
  for_levels body levels acc = Ok acc' ->
  exists cs : list R,
    cls_losses acc' = cls_losses acc ++ cs /\
    length cs = length levels.
Proof.
  revert acc. induction levels as [|level rest IH]; intros acc Hrun.
  - simpl in Hrun. injection Hrun as <-. exists [].
    rewrite app_nil_r. split; reflexivity.
  - simpl in Hrun. apply bind_ok_inv in Hrun as (acc1 & H1 & Hrun).
    apply loss_at_level_inv in H1
      as (? & ? & ? & ? & _ & _ & _ & _ & Hcls & _).
    destruct (IH acc1 Hrun) as (cs & Hcs & Hlen).
    eexists (_ :: cs). rewrite Hcs, Hcls, <- app_assoc. simpl.
    split; [reflexivity | lia].
Qed.

Lemma add_n_nonempty (x : R) (xs : list R) :
  add_n (x :: xs) = Ok (fold_right Rplus 0 (x :: xs)).
Proof. reflexivity. Qed.

Lemma add_n_or_zero_ok (xs : list R) :
  exists s : R, match xs with [] => Ok 0 | _ => add_n xs end = Ok s.
Proof. destruct xs; simpl; eauto. Qed.

Lemma detection_loss_ready :
  cls_outputs <> [] ->
  (forall level : Z, In level (keys cls_outputs) ->
     level_ready iou_loss cls_outputs box_outputs l p level) ->
  exists (acc : level_losses) (d : detection_losses),
    for_levels body (keys cls_outputs) (mkLosses [] [] []) = Ok acc /\
    detection_loss iou_loss cls_outputs box_outputs l p = Ok d /\
    cls_loss d = fold_right Rplus 0 (cls_losses acc).
Proof.
  intros Hne Hready.
  destruct (for_levels_ready (keys cls_outputs) (mkLosses [] [] []) Hready)
    as (acc & Hacc).
  exists acc. unfold detection_loss. fold body. rewrite Hacc. cbn [bind].
  assert (Hcs : cls_losses acc <> []).
  { destruct (for_levels_grows _ _ _ Hacc) as (cs & Hcs & Hlen).
    rewrite Hcs. simpl. intros ->.
    destruct cls_outputs; [contradiction | discriminate]. }
  destruct (cls_losses acc) as [|c cs] eqn:Hc; [contradiction|].
  rewrite add_n_nonempty. cbn [bind].
  destruct (add_n_or_zero_ok (box_losses acc)) as (b & ->).
  destruct (add_n_or_zero_ok (box_iou_losses acc)) as (i & ->).
  cbn [bind]. eexists. split; [reflexivity|]. split; reflexivity.
Qed.

End DetectionFacts.

(** The normalizer only divides: the focal loss at normalizer [n] is the
    focal loss at normalizer 1, divided by [n]. *)
Lemma focal_loss_normalizer (y_pred y_true : tensor)
    (alpha gamma n label_smoothing : R) (loss : tensor) :
  focal_loss y_pred y_true alpha gamma n label_smoothing = Ok loss ->
  exists unnormalized : tensor,
    focal_loss y_pred y_true alpha gamma 1 label_smoothing = Ok unnormalized /\
    loss = div_scalar unnormalized n.
Proof.
  unfold focal_loss. intros H.
  apply bind_ok_inv in H as (pos & Hpos & H). rewrite Hpos. cbn [bind].
  apply bind_ok_inv in H as (neg & Hneg & H). rewrite Hneg. cbn [bind].
  apply bind_ok_inv in H as (p_t & Hp_t & H). rewrite Hp_t. cbn [bind].
  apply bind_ok_inv in H as (alpha_factor & Haf & H). rewrite Haf. cbn [bind].
  apply bind_ok_inv in H as (ce & Hce & H). rewrite Hce. cbn [bind].
  apply bind_ok_inv in H as (weights & Hw & H). rewrite Hw. cbn [bind].
  apply bind_ok_inv in H as (l0 & Hl0 & H). rewrite Hl0. cbn [bind].
  injection H as <-. eexists. split; [reflexivity|].
  unfold div_scalar. rewrite map_map. apply map_ext. intros x.
  unfold Rdiv. rewrite Rinv_1, Rmult_1_r. reflexivity.
Qed.

Lemma reduce_sum_div_scalar_mul (u m : tensor) (n : R) :
  reduce_sum (zip_with Rmult (div_scalar u n) m) =
  reduce_sum (zip_with Rmult u m) / n.
Proof.
  unfold reduce_sum, div_scalar.
  revert m. induction u as [|x u IH]; intros [|y m]; simpl;
    try (unfold Rdiv; ring).
  rewrite IH. unfold Rdiv. ring.
Qed.

Lemma sum_of_quotients (xs : list R) (n : R) :
  fold_right Rplus 0 (map (fun x => x / n) xs) = reduce_sum xs / n.
Proof.
  unfold reduce_sum.
  induction xs as [|x xs IH]; simpl; [unfold Rdiv; ring|].
  rewrite IH. unfold Rdiv. ring.
Qed.

Lemma tf_mul_same_shape (a a' b c : tensor) :
  length a' = length a -> tf_mul a b = Ok c ->
  tf_mul a' b = Ok (zip_with Rmult a' b) /\ c = zip_with Rmult a b.
Proof.
  unfold tf_mul, elementwise. intros ->.
  destruct (Nat.eqb (length a) (length b)); intros H; [|discriminate].
  injection H as <-. split; reflexivity.
Qed.

Section DetectionNormalizer.

Variable iou_loss : tensor -> tensor -> string -> result tensor.
Variables cls_outputs box_outputs : level_dict tensor.
Variable l : labels.
Variable p : params.

(** One pass of the loop body appends the level's three sums, the first
    divided by [num_positives_sum] and the two others by four times it. *)
Lemma loss_at_level_normalized (acc acc' : level_losses) (level : Z) :
  loss_at_level iou_loss cls_outputs box_outputs l p acc level = Ok acc' ->
  (exists u : R,
     unnormalized_cls_loss cls_outputs l p level = Ok u /\
     cls_losses acc' = cls_losses acc ++ [u / num_positives_sum l]) /\
  (if truthy_float (box_loss_weight p)
   then exists s : R,
          unnormalized_box_loss box_outputs l p level = Ok s /\
          box_losses acc' =
          box_losses acc ++ [s / (num_positives_sum l * 4.0)]
   else box_losses acc' = box_losses acc) /\
  (forall kind : string,
     iou_loss_type p = Some kind -> truthy_str (Some kind) = true ->
     exists t : R,
       unnormalized_box_iou_loss iou_loss box_outputs l kind level = Ok t /\
       box_iou_losses acc' =
       box_iou_losses acc ++ [t / (num_positives_sum l * 4.0)]) /\
  (truthy_str (iou_loss_type p) = false ->
   box_iou_losses acc' = box_iou_losses acc).
Proof.
  unfold loss_at_level, reshape. intros H.
  apply bind_ok_inv in H as (targets & Ht & H).
  apply bind_ok_inv in H as (bt & Hbt & H).
  apply bind_ok_inv in H as (out & Hout & H).
  rewrite !if_same in H.
  apply bind_ok_inv in H as (closs & Hc & H).
  rewrite if_same in H.
  apply bind_ok_inv in H as (masked & Hm & H).
  apply bind_ok_inv in H as (bl & Hbl & H).
  apply bind_ok_inv in H as (il & Hil & H).
  injection H as <-. cbn [cls_losses box_losses box_iou_losses].
  split; [|split; [|split]].
  - apply focal_loss_normalizer in Hc as (u & Hu & ->).
    assert (Hlen : length u = length (div_scalar u (num_positives_sum l)))
      by (symmetry; apply length_map).
    destruct (tf_mul_same_shape _ u _ _ Hlen Hm) as [Hmul ->].
    unfold unnormalized_cls_loss, reshape.
    rewrite Ht, Hout. cbn [bind]. rewrite Hu. cbn [bind].
    rewrite Hmul. cbn [bind].
    eexists. split; [reflexivity|].
    cbn [cls_losses]. rewrite reduce_sum_div_scalar_mul. reflexivity.
  - destruct (truthy_float (box_loss_weight p)).
    + apply bind_ok_inv in Hbl as (bo & Hbo & Hbl).
      apply bind_ok_inv in Hbl as (b & Hb & Hbl).
      injection Hbl as <-.
      apply _box_loss_inv in Hb as (s & Hs & ->).
      exists s. split; [|reflexivity].
      unfold unnormalized_box_loss. rewrite Hbt, Hbo. exact Hs.
    + injection Hbl as <-. reflexivity.
  - intros kind Hkind Htruthy. rewrite Hkind, Htruthy in Hil.
    apply bind_ok_inv in Hil as (bo & Hbo & Hil).
    apply bind_ok_inv in Hil as (b & Hb & Hil).
    injection Hil as <-.
    apply _box_iou_loss_inv in Hb as (t & Hiou & ->).
    exists (reduce_sum t). split; [|reflexivity].
    unfold unnormalized_box_iou_loss. rewrite Hbt, Hbo. cbn [bind].
    rewrite Hiou. reflexivity.
  - intros Hfalse. destruct (iou_loss_type p) as [kind|].
    + rewrite Hfalse in Hil. injection Hil as <-. reflexivity.
    + injection Hil as <-. reflexivity.
Qed.

(** The loop appends, for every level in order, the level's sums divided by
    the normalizers. *)
Lemma for_levels_normalized (levels : list Z) (acc acc' : level_losses) :
  for_levels (loss_at_level iou_loss cls_outputs box_outputs l p) levels acc =
  Ok acc' ->
  (exists us : list R,
     Forall2 (fun level u => unnormalized_cls_loss cls_outputs l p level = Ok u)
       levels us /\
     cls_losses acc' =
     cls_losses acc ++ map (fun u => u / num_positives_sum l) us) /\
  (if truthy_float (box_loss_weight p)
   then exists bs : list R,
          Forall2 (fun level s =>
                     unnormalized_box_loss box_outputs l p level = Ok s)
            levels bs /\
          box_losses acc' =
          box_losses acc ++ map (fun s => s / (num_positives_sum l * 4.0)) bs
   else box_losses acc' = box_losses acc) /\
  (forall kind : string,
     iou_loss_type p = Some kind -> truthy_str (Some kind) = true ->
     exists ts : list R,
       Forall2 (fun level t =>
                  unnormalized_box_iou_loss iou_loss box_outputs l kind level =
                  Ok t)
         levels ts /\
       box_iou_losses acc' =
       box_iou_losses acc ++
       map (fun t => t / (num_positives_sum l * 4.0)) ts) /\
  (truthy_str (iou_loss_type p) = false ->
   box_iou_losses acc' = box_iou_losses acc).
Proof.
  revert acc. induction levels as [|level rest IH]; intros acc Hrun.
  - simpl in Hrun. injection Hrun as <-.
    split; [exists []; split; [constructor | symmetry; apply app_nil_r]|].
    split.
    + destruct (truthy_float (box_loss_weight p)); [|reflexivity].
      exists []. split; [constructor | symmetry; apply app_nil_r].
    + split; [|reflexivity]. intros kind _ _.
      exists []. split; [constructor | symmetry; apply app_nil_r].
  - simpl in Hrun. apply bind_ok_inv in Hrun as (acc1 & H1 & Hrun).
    apply loss_at_level_normalized in H1
      as ((u & Hu & Hcls1) & Hbox1 & Hiou1 & Hnone1).
    destruct (IH acc1 Hrun) as ((us & Hus & Hcls) & Hbox & Hiou & Hnone).
    split; [|split; [|split]].
    + exists (u :: us). split; [constructor; assumption|].
      rewrite Hcls, Hcls1, <- app_assoc. reflexivity.
    + destruct (truthy_float (box_loss_weight p)).
      * destruct Hbox1 as (s & Hs & Hb1). destruct Hbox as (bs & Hbs & Hb).
        exists (s :: bs). split; [constructor; assumption|].
        rewrite Hb, Hb1, <- app_assoc. reflexivity.
      * congruence.
    + intros kind Hkind Htruthy.
      destruct (Hiou1 kind Hkind Htruthy) as (t & Ht & Hi1).
      destruct (Hiou kind Hkind Htruthy) as (ts & Hts & Hi).
      exists (t :: ts). split; [constructor; assumption|].
      rewrite Hi, Hi1, <- app_assoc. reflexivity.
    + intros Hfalse. rewrite (Hnone Hfalse). apply Hnone1. exact Hfalse.
Qed.

Lemma add_n_or_zero_sum (xs : list R) (s : R) :
  match xs with [] => Ok 0 | _ => add_n xs end = Ok s ->
  s = fold_right Rplus 0 xs.
Proof. destruct xs; simpl; intros H; injection H as <-; reflexivity. Qed.

Lemma add_n_sum (xs : list R) (s : R) :
  add_n xs = Ok s -> s = fold_right Rplus 0 xs.
Proof. destruct xs; simpl; intros H; [discriminate|]. congruence. Qed.

(** The three losses [detection_loss] returns are the sums over the levels,
    divided by the normalizers. *)
Lemma detection_loss_normalized (d : detection_losses) :
  detection_loss iou_loss cls_outputs box_outputs l p = Ok d ->
  (exists us : list R,
     Forall2 (fun level u => unnormalized_cls_loss cls_outputs l p level = Ok u)
       (keys cls_outputs) us /\
     cls_loss d = reduce_sum us / num_positives_sum l) /\
  (truthy_float (box_loss_weight p) = true ->
   exists bs : list R,
     Forall2 (fun level s => unnormalized_box_loss box_outputs l p level = Ok s)
       (keys cls_outputs) bs /\
     box_loss d = reduce_sum bs / (num_positives_sum l * 4.0)) /\
  (forall kind : string,
     iou_loss_type p = Some kind -> truthy_str (Some kind) = true ->
     exists ts : list R,
       Forall2 (fun level t =>
                  unnormalized_box_iou_loss iou_loss box_outputs l kind level =
                  Ok t)
         (keys cls_outputs) ts /\
       box_iou_loss d = reduce_sum ts / (num_positives_sum l * 4.0)).
Proof.
  unfold detection_loss. intros H.
  apply bind_ok_inv in H as (acc & Hacc & H).
  apply bind_ok_inv in H as (c & Hc & H).
  apply bind_ok_inv in H as (b & Hb & H).
  apply bind_ok_inv in H as (i & Hi & H).
  injection H as <-. cbn [cls_loss box_loss box_iou_loss].
  apply for_levels_normalized in Hacc
    as ((us & Hus & Hcls) & Hbox & Hiou & _).
  cbn [cls_losses box_losses box_iou_losses app] in Hcls, Hbox, Hiou.
  apply add_n_or_zero_sum in Hb, Hi. apply add_n_sum in Hc.
  split; [|split].
  - exists us. split; [exact Hus|].
    rewrite Hc, Hcls. apply sum_of_quotients.
  - intros Hw. rewrite Hw in Hbox. destruct Hbox as (bs & Hbs & Hbl).
    exists bs. split; [exact Hbs|].
    rewrite Hb, Hbl. apply sum_of_quotients.
  - intros kind Hkind Htruthy.
    destruct (Hiou kind Hkind Htruthy) as (ts & Hts & Hil).
    exists ts. split; [exact Hts|].
    rewrite Hi, Hil. apply sum_of_quotients.
Qed.

End DetectionNormalizer.

(** C3.  When no entry of [mean_num_positives] is negative, the normalizer
    [sum(mean_num_positives) + 1.0] is at least 1.0, so neither it nor four
    times it is zero.  [detection_loss] returns on every batch with at least
    one level whose inputs fit together, and whenever it returns, its
    classification loss is the sum over the levels of the masked focal loss
    divided by the normalizer, its box loss (with a box loss weight) the sum
    of the Huber sums divided by four times the normalizer, and its box-IoU
    loss (with an IoU loss type) the sum of the IoU sums divided by four
    times the normalizer. *)
Theorem detection_loss_normalizer
    (iou_loss : tensor -> tensor -> string -> result tensor)
    (cls_outputs box_outputs : level_dict tensor) (l : labels) (p : params)
    (Hnonneg : Forall (fun x => 0 <= x) (mean_num_positives l)) :
  let n := reduce_sum (mean_num_positives l) + 1.0 in
  1.0 <= n /\ n <> 0 /\ n * 4.0 <> 0 /\
  (cls_outputs <> [] ->
   (forall level : Z, In level (keys cls_outputs) ->
      level_ready iou_loss cls_outputs box_outputs l p level) ->
   exists d : detection_losses,
     detection_loss iou_loss cls_outputs box_outputs l p = Ok d) /\
  forall d : detection_losses,
    detection_loss iou_loss cls_outputs box_outputs l p = Ok d ->
    (exists us : list R,
       Forall2 (fun level u =>
                  unnormalized_cls_loss cls_outputs l p level = Ok u)
         (keys cls_outputs) us /\
       cls_loss d = reduce_sum us / n) /\
    (truthy_float (box_loss_weight p) = true ->
     exists bs : list R,
       Forall2 (fun level s =>
                  unnormalized_box_loss box_outputs l p level = Ok s)
         (keys cls_outputs) bs /\
       box_loss d = reduce_sum bs / (n * 4.0)) /\
    (forall kind : string,
       iou_loss_type p = Some kind -> truthy_str (Some kind) = true ->
       exists ts : list R,
         Forall2 (fun level t =>
                    unnormalized_box_iou_loss iou_loss box_outputs l kind
                      level = Ok t)
           (keys cls_outputs) ts /\
         box_iou_loss d = reduce_sum ts / (n * 4.0)).
Proof.
  intros n.
  assert (Hge : 1.0 <= n) by (apply num_positives_sum_ge_1; exact Hnonneg).
  split; [exact Hge|]. split; [lra|]. split; [lra|]. split.
  - intros Hlevels Hready.
    destruct (detection_loss_ready iou_loss cls_outputs box_outputs l p
                Hlevels Hready) as (_ & d & _ & Hd & _).
    exists d. exact Hd.
  - intros d Hd. exact (detection_loss_normalized _ _ _ _ _ d Hd).
Qed.

(** C4.  For a batch with at least one level whose inputs fit together and
    whose [mean_num_positives] has no negative entry: when every class
    target of every level is the ignore value -2, [detection_loss] returns
    and its classification loss is 0; and for a level whose box targets are
    all zero the box regression loss of that level is 0. *)
Theorem ignored_and_zero_targets_contribute_nothing
    (iou_loss : tensor -> tensor -> string -> result tensor)
    (cls_outputs box_outputs : level_dict tensor) (l : labels) (p : params)
    (Hlevels : cls_outputs <> [])
    (Hready : forall level : Z, In level (keys cls_outputs) ->
                level_ready iou_loss cls_outputs box_outputs l p level)
    (Hnonneg : Forall (fun x => 0 <= x) (mean_num_positives l)) :
  ((forall (level : Z) (targets : int_tensor),
      In level (keys cls_outputs) ->
      lookup (cls_targets l) level = Some targets ->
      Forall (fun t => t = (-2)%Z) targets) ->
   exists d : detection_losses,
     detection_loss iou_loss cls_outputs box_outputs l p = Ok d /\
     cls_loss d = 0) /\
  (forall (level : Z) (bo bt : tensor),
     lookup box_outputs level = Some bo ->
     lookup (box_targets l) level = Some bt ->
     length bo = length bt ->
     Forall (fun t => t = 0) bt ->
     _box_loss bo bt (num_positives_sum l) (Q2R (delta p)) = Ok 0).
Proof.
  split.
  - intros Hign.
    destruct (detection_loss_ready iou_loss cls_outputs box_outputs l p
                Hlevels Hready) as (acc & d & Hacc & Hd & Hcls).
    exists d. split; [exact Hd|]. rewrite Hcls.
    destruct (for_levels_ignored iou_loss cls_outputs box_outputs l p
                _ _ _ Hign Hacc) as (cs & Hcs & _ & Hzero).
    rewrite Hcs. simpl. apply reduce_sum_zeros. exact Hzero.
  - intros level bo bt _ _ Hlen Hzero.
    rewrite _box_loss_ok by exact Hlen. f_equal.
    rewrite reduce_sum_zeros.
    + pose proof (num_positives_sum_ge_1 l Hnonneg). unfold Rdiv. ring.
    + apply zip_with_mul_zeros, not_equal_zero_zeros, Hzero.
Qed.

Lemma example_level_ready (p : params) (level : Z) :
  num_classes p = 2%nat -> iou_loss_type p = None ->
  In level (keys example_cls_outputs) ->
  level_ready constant_iou_loss example_cls_outputs example_box_outputs
    example_labels p level.
Proof.
  intros Hn Hiou. simpl. intros [<-|[]].
  exists [(-2)%Z], [0; 0; 0; 0], [0.5; -1].
  repeat split.
  - rewrite Hn. reflexivity.
  - intros _. exists [1; 2; 3; 4]. split; reflexivity.
  - intros kind Hkind. congruence.
Qed.

Lemma detection_loss_normalizer_witness :
  1.0 <= reduce_sum (mean_num_positives example_labels) + 1.0 /\
  exists d : detection_losses,
    detection_loss constant_iou_loss example_cls_outputs example_box_outputs
      example_labels example_params = Ok d.
Proof.
  pose proof (detection_loss_normalizer constant_iou_loss example_cls_outputs
                example_box_outputs example_labels example_params) as H.
  destruct H as (Hge & _ & _ & Hreturns & _).
  - simpl. repeat constructor; apply Rle_refl.
  - split; [exact Hge|]. apply Hreturns.
    + discriminate.
    + exact (fun level => example_level_ready example_params level
                            eq_refl eq_refl).
Defined.

Lemma ignored_and_zero_targets_contribute_nothing_witness :
  exists d : detection_losses,
    detection_loss constant_iou_loss example_cls_outputs example_box_outputs
      example_labels example_params = Ok d /\
    cls_loss d = 0.
Proof.
  apply (ignored_and_zero_targets_contribute_nothing constant_iou_loss
           example_cls_outputs example_box_outputs example_labels
           example_params).
  - discriminate.
  - exact (fun level => example_level_ready example_params level eq_refl eq_refl).
  - simpl. repeat constructor; apply Rle_refl.
  - simpl. intros level targets [<-|[]]. simpl.
    intros H. injection H as <-. repeat constructor.
Defined.

(** ** The model function *)

Lemma bindM_ok {A B : Type} (m : M A) (k : A -> M B) (tr tr' : list event)
    (a : A) :
  m tr = (tr', Ok a) -> bindM m k tr = k a tr'.
Proof. unfold bindM. intros ->. reflexivity. Qed.

Lemma bindM_raise {A B : Type} (m : M A) (k : A -> M B) (tr tr' : list event)
    (e : exn) :
  m tr = (tr', Raise e) -> bindM m k tr = (tr', Raise e).
Proof. unfold bindM. intros ->. reflexivity. Qed.

Lemma emit_all_trace (evs tr : list event) :
  emit_all evs tr = (tr ++ evs, Ok tt).
Proof.
  revert tr. induction evs as [|ev rest IH]; intros tr; simpl.
  - unfold ret. rewrite app_nil_r. reflexivity.
  - unfold bindM, emit. rewrite IH, <- app_assoc. reflexivity.
Qed.

Lemma when_trace (b : bool) (evs tr : list event) :
  when b (emit_all evs) tr = (tr ++ (if b then evs else []), Ok tt).
Proof.
  destruct b; simpl; [apply emit_all_trace|].
  unfold ret. rewrite app_nil_r. reflexivity.
Qed.

Lemma when_emit_trace (b : bool) (ev : event) (tr : list event) :
  when b (emit ev) tr = (tr ++ (if b then [ev] else []), Ok tt).
Proof.
  destruct b; simpl; [reflexivity|].
  unfold ret. rewrite app_nil_r. reflexivity.
Qed.

Section ModelFnFacts.

Variable iou_loss : tensor -> tensor -> string -> result tensor.
Variable hvd_size : Z.

(** The summaries and the moving average that precede the optimizer. *)
Lemma report_summaries_trace (m : mode) (p : params) (tr : list event) :
  exists s : list event,
    cheap s /\ report_summaries m p tr = (tr ++ s, Ok tt).
Proof.
  eexists. split.
  2:{ unfold report_summaries.
      erewrite bindM_ok by apply when_trace.
      erewrite bindM_ok by apply when_emit_trace.
      rewrite when_emit_trace, <- !app_assoc. reflexivity. }
  unfold cheap.
  destruct (is_train m), (truthy_str (iou_loss_type p)),
    (truthy_float (moving_average_decay p)); simpl;
    repeat constructor.
Qed.

Lemma build_train_op_ok (p : params) (learning_rate total_loss : R)
    (tr : list event) :
  lower (optimizer p) = "sgd"%string \/ lower (optimizer p) = "adam"%string ->
  exists (suffix : list event) (built : train_op_t * list hook_t),
    build_train_op p learning_rate total_loss tr = (tr ++ suffix, Ok built) /\
    existsb builds_gradients suffix = true.
Proof.
  intros Hopt. unfold build_train_op.
  assert (Hcase : (String.eqb (lower (optimizer p)) "sgd" = true) \/
                  (String.eqb (lower (optimizer p)) "sgd" = false /\
                   String.eqb (lower (optimizer p)) "adam" = true)).
  { destruct Hopt as [-> | ->]; [left | right; split]; reflexivity. }
  destruct Hcase as [-> | [-> ->]];
    destruct (String.eqb (strategy p) "tpu"),
      (String.eqb (strategy p) "horovod"),
      (clip_positive (clip_gradients_norm p)),
      (truthy_float (moving_average_decay p));
    unfold bindM, emit, ret; simpl; unfold bindM, emit, ret; simpl;
    rewrite <- ?app_assoc; simpl;
    eexists; eexists; (split; [reflexivity | reflexivity]).
Qed.


Lemma choose_scaffold_conflict (p : params) (tr : list event) :
  truthy_str (ckpt p) = true -> truthy_str (backbone_ckpt p) = true ->
  choose_scaffold TRAIN p tr =
  (tr, Raise (RuntimeError
                "--backbone_ckpt and --checkpoint are mutually exclusive")).
Proof.
  intros Hc Hb. unfold choose_scaffold, py_or. rewrite Hc, Hb. simpl.
  rewrite Hc. reflexivity.
Qed.

Lemma build_estimator_spec_conflict (p : params)
    (learning_rate total_loss : R) (tr : list event) :
  truthy_str (ckpt p) = true -> truthy_str (backbone_ckpt p) = true ->
  lower (optimizer p) = "sgd"%string \/ lower (optimizer p) = "adam"%string ->
  exists suffix : list event,
    build_estimator_spec hvd_size TRAIN p learning_rate total_loss tr =
    (tr ++ suffix,
     Raise (RuntimeError
              "--backbone_ckpt and --checkpoint are mutually exclusive")) /\
    existsb builds_gradients suffix = true.
Proof.
  intros Hc Hb Hopt. unfold build_estimator_spec.
  destruct (report_summaries_trace TRAIN p tr) as (s & Hs & Hrep).
  erewrite bindM_ok by exact Hrep. cbv zeta.
  destruct (build_train_op_ok p
              (if String.eqb (strategy p) "horovod"
               then learning_rate * IZR hvd_size else learning_rate)
              total_loss (tr ++ s) Hopt)
    as (suffix & [train_op hooks] & Hbuild & Hgrad).
  exists (s ++ suffix). split.
  - erewrite bindM_ok.
    2:{ unfold train_step. cbn [is_train].
        erewrite bindM_ok by exact Hbuild. reflexivity. }
    cbn [is_eval when].
    erewrite bindM_ok by reflexivity.
    erewrite bindM_raise by (apply choose_scaffold_conflict; assumption).
    rewrite app_assoc. reflexivity.
  - rewrite existsb_app, Hgrad. apply orb_true_r.
Qed.


(** Up to the losses, the model function makes six calls in a row. *)
Lemma model_fn_losses_built (features : tensor) (l : labels) (m : mode)
    (p p' : params) (model : tensor -> params -> result model_outputs)
    (global_step : Z) (outputs : model_outputs) (lr : R)
    (det : detection_losses) (reg : R) :
  m <> PREDICT ->
  model features p = Ok outputs ->
  update_learning_rate_schedule_parameters p = Ok p' ->
  learning_rate_schedule p' global_step = Ok lr ->
  detection_loss iou_loss (out_cls outputs) (out_box outputs) l p' = Ok det ->
  reg_l2_loss (Q2R (weight_decay p')) kernel_or_weight
    (out_variables outputs) = Ok reg ->
  run (_model_fn iou_loss hvd_size features l m p model global_step) =
  build_estimator_spec hvd_size m p' lr (total_loss det + reg)
    [ImageSummary; ForwardPass; UpdateSchedule; LearningRate; DetectionLoss;
     RegularizationLoss].
Proof.
  intros Hm Hmodel Hupd Hlr Hdet Hreg.
  unfold run, _model_fn, bindM, emit, call. simpl.
  rewrite Hmodel.
  destruct m; [| |contradiction]; rewrite Hupd, Hlr, Hdet, Hreg; reflexivity.
Qed.

Lemma update_keeps_settings (p p' : params) :
  update_learning_rate_schedule_parameters p = Ok p' ->
  optimizer p' = optimizer p /\ ckpt p' = ckpt p /\
  backbone_ckpt p' = backbone_ckpt p /\
  lr_decay_method p' = lr_decay_method p.
Proof.
  unfold update_learning_rate_schedule_parameters.
  destruct (Z.eqb (effective_batch_size p) 0); intros H; [discriminate|].
  injection H as <-. repeat split.
Qed.

End ModelFnFacts.

(** ** Regularization *)

Example kernel_or_weight_conv_kernel :
  kernel_or_weight "efficientnet-b0/stem/conv2d/kernel:0" = true.
Proof. reflexivity. Qed.

Example kernel_or_weight_depthwise :
  kernel_or_weight "blocks_0/depthwise_conv2d/depthwise_kernel:0" = true.
Proof. reflexivity. Qed.

Example kernel_or_weight_bias : kernel_or_weight "dense/bias:0" = false.
Proof. reflexivity. Qed.

Example kernel_or_weight_batch_norm :
  kernel_or_weight "stem/tpu_batch_normalization/gamma:0" = false.
Proof. reflexivity. Qed.

Example kernel_or_weight_inner : kernel_or_weight "kernel:0/bias:0" = false.
Proof. reflexivity. Qed.

(** The penalties that [reg_l2_loss] adds up. *)
Lemma reg_l2_loss_sum (weight_decay : R) (var_match : string -> bool)
    (vars : list variable) :
  (exists v : variable, In v vars /\ var_match (var_name v) = true) ->
  reg_l2_loss weight_decay var_match vars =
  Ok (weight_decay *
      fold_right Rplus 0
        (map (fun v => l2_loss (var_value v))
           (filter (fun v => var_match (var_name v)) vars))).
Proof.
  intros (v & Hin & Hv). unfold reg_l2_loss.
  assert (Hf : In v (filter (fun v => var_match (var_name v)) vars))
    by (apply filter_In; auto).
  destruct (filter (fun v => var_match (var_name v)) vars); [contradiction|].
  reflexivity.
Qed.

(** Renaming variables that do not match, to names that do not match, leaves
    the list of penalties as it is. *)
Lemma reg_l2_loss_rename (weight_decay : R) (var_match : string -> bool)
    (rename : string -> string) (vars : list variable) :
  (forall v : variable, In v vars -> var_match (var_name v) = false ->
     var_match (rename (var_name v)) = false) ->
  reg_l2_loss weight_decay var_match
    (map (fun v => if var_match (var_name v) then v
                   else mkVariable (rename (var_name v)) (var_value v)) vars) =
  reg_l2_loss weight_decay var_match vars.
Proof.
  intros Hren. unfold reg_l2_loss. f_equal. f_equal.
  induction vars as [|v rest IH]; [reflexivity|]. simpl.
  destruct (var_match (var_name v)) eqn:Hv.
  - rewrite Hv. simpl. f_equal. apply IH.
    intros u Hu. apply Hren. right. exact Hu.
  - simpl. rewrite (Hren v (or_introl eq_refl) Hv). apply IH.
    intros u Hu. apply Hren. right. exact Hu.
Qed.

(** C9, at the input on which the code departs from it.  When no trainable
    variable matches the pattern, the list handed to [tf.add_n] is empty and
    [reg_l2_loss] raises instead of returning zero. *)
Theorem reg_l2_loss_without_match_raises (weight_decay : R)
    (var_match : string -> bool) (vars : list variable)
    (Hnone : forall v : variable, In v vars -> var_match (var_name v) = false) :
  reg_l2_loss weight_decay var_match vars =
  Raise (ValueError
    "inputs must be a list of at least one Tensor/IndexedSlices with the same dtype and shape") /\
  reg_l2_loss weight_decay var_match vars <> Ok 0.
Proof.
  assert (Hf : filter (fun v => var_match (var_name v)) vars = []).
  { induction vars as [|v rest IH]; [reflexivity|]. simpl.
    rewrite (Hnone v (or_introl eq_refl)). apply IH.
    intros u Hu. apply Hnone. right. exact Hu. }
  unfold reg_l2_loss. rewrite Hf. simpl. split; [reflexivity | discriminate].
Qed.

Lemma reg_l2_loss_without_match_raises_witness :
  reg_l2_loss 0.00004 kernel_or_weight bias_only <> Ok 0.
Proof.
  apply (reg_l2_loss_without_match_raises 0.00004 kernel_or_weight bias_only).
  intros v [<-|[]]. reflexivity.
Defined.

(** ** Configuration errors *)

Lemma example_graph_builds (p : params) (global_step : Z) :
  num_classes p = 2%nat -> iou_loss_type p = None ->
  effective_batch_size p <> 0%Z -> lr_decay_method p = "cosine"%string ->
  exists (p' : params) (lr : R) (det : detection_losses) (reg : R),
    update_learning_rate_schedule_parameters p = Ok p' /\
    learning_rate_schedule p' global_step = Ok lr /\
    detection_loss constant_iou_loss example_cls_outputs example_box_outputs
      example_labels p' = Ok det /\
    reg_l2_loss (Q2R (weight_decay p')) kernel_or_weight
      [mkVariable "conv/kernel:0" [1]; mkVariable "conv/bias:0" [2]] = Ok reg.
Proof.
  intros Hn Hiou Hb Hm.
  assert (Hupd : exists p', update_learning_rate_schedule_parameters p = Ok p' /\
                   num_classes p' = 2%nat /\ iou_loss_type p' = None /\
                   lr_decay_method p' = "cosine"%string).
  { unfold update_learning_rate_schedule_parameters.
    destruct (Z.eqb_spec (effective_batch_size p) 0); [contradiction|].
    eexists. split; [reflexivity|]. simpl. auto. }
  destruct Hupd as (p' & Hupd & Hn' & Hiou' & Hm').
  destruct (detection_loss_ready constant_iou_loss example_cls_outputs
              example_box_outputs example_labels p')
    as (_ & det & _ & Hdet & _).
  { discriminate. }
  { intros level. apply example_level_ready; assumption. }
  exists p'. eexists. exists det. eexists.
  split; [exact Hupd|]. split.
  - apply learning_rate_schedule_cosine. exact Hm'.
  - split; [exact Hdet|].
    apply reg_l2_loss_sum. eexists. split; [left; reflexivity | reflexivity].
Qed.



Lemma in_prefix_trace (ev : event) (suffix : list event) :
  In ev [ImageSummary; ForwardPass; UpdateSchedule; LearningRate; DetectionLoss;
         RegularizationLoss] ->
  In ev ([ImageSummary; ForwardPass; UpdateSchedule; LearningRate;
          DetectionLoss; RegularizationLoss] ++ suffix).
Proof. intros H. apply in_or_app. left. exact H. Qed.

(** The run of TRAIN mode with both checkpoints, when the graph builds. *)
Lemma model_fn_conflict_trace
    (iou_loss : tensor -> tensor -> string -> result tensor) (hvd_size : Z)
    (features : tensor) (l : labels) (p p' : params)
    (model : tensor -> params -> result model_outputs) (global_step : Z)
    (outputs : model_outputs) (lr : R) (det : detection_losses) (reg : R) :
  truthy_str (ckpt p) = true -> truthy_str (backbone_ckpt p) = true ->
  model features p = Ok outputs ->
  update_learning_rate_schedule_parameters p = Ok p' ->
  learning_rate_schedule p' global_step = Ok lr ->
  detection_loss iou_loss (out_cls outputs) (out_box outputs) l p' = Ok det ->
  reg_l2_loss (Q2R (weight_decay p')) kernel_or_weight
    (out_variables outputs) = Ok reg ->
  lower (optimizer p) = "sgd"%string \/ lower (optimizer p) = "adam"%string ->
  exists suffix : list event,
    run (_model_fn iou_loss hvd_size features l TRAIN p model global_step) =
    ([ImageSummary; ForwardPass; UpdateSchedule; LearningRate; DetectionLoss;
      RegularizationLoss] ++ suffix,
     Raise (RuntimeError
              "--backbone_ckpt and --checkpoint are mutually exclusive")) /\
    existsb builds_gradients suffix = true.
Proof.
  intros Hc Hb Hmodel Hupd Hlr Hdet Hreg Hopt.
  destruct (update_keeps_settings p p' Hupd) as (Ho & Hc' & Hb' & _).
  rewrite (model_fn_losses_built iou_loss hvd_size features l TRAIN p p' model
             global_step outputs lr det reg) by (assumption || discriminate).
  apply build_estimator_spec_conflict; congruence.
Qed.

(** C7, as the code has it.  In TRAIN mode with both [ckpt] and
    [backbone_ckpt] set, and when the forward pass, the schedule, the losses
    and the choice of the optimizer succeed, the model function raises the
    error that the two checkpoints exclude each other.  It does so when it
    sets up the restore: the forward pass, the losses and the gradients have
    been built by then. *)
Theorem checkpoint_conflict_raised_at_restore_setup
    (iou_loss : tensor -> tensor -> string -> result tensor) (hvd_size : Z)
    (features : tensor) (l : labels) (p p' : params)
    (model : tensor -> params -> result model_outputs) (global_step : Z)
    (outputs : model_outputs) (lr : R) (det : detection_losses) (reg : R)
    (Hckpt : truthy_str (ckpt p) = true)
    (Hbackbone : truthy_str (backbone_ckpt p) = true)
    (Hmodel : model features p = Ok outputs)
    (Hupd : update_learning_rate_schedule_parameters p = Ok p')
    (Hlr : learning_rate_schedule p' global_step = Ok lr)
    (Hdet : detection_loss iou_loss (out_cls outputs) (out_box outputs) l p' =
            Ok det)
    (Hreg : reg_l2_loss (Q2R (weight_decay p')) kernel_or_weight
              (out_variables outputs) = Ok reg)
    (Hopt : lower (optimizer p) = "sgd"%string \/
            lower (optimizer p) = "adam"%string) :
  exists tr : list event,
    run (_model_fn iou_loss hvd_size features l TRAIN p model global_step) =
    (tr, Raise (RuntimeError
                  "--backbone_ckpt and --checkpoint are mutually exclusive")) /\
    In ForwardPass tr /\ In DetectionLoss tr /\ In RegularizationLoss tr /\
    existsb builds_gradients tr = true.
Proof.
  destruct (model_fn_conflict_trace iou_loss hvd_size features l p p' model
              global_step outputs lr det reg Hckpt Hbackbone Hmodel Hupd Hlr
              Hdet Hreg Hopt) as (suffix & Hrun & Hgrad).
  eexists. split; [exact Hrun|].
  repeat split; try (apply in_prefix_trace; simpl; tauto).
  rewrite existsb_app, Hgrad. apply orb_true_r.
Qed.

Lemma checkpoint_conflict_raised_at_restore_setup_witness :
  exists tr : list event,
    run (_model_fn constant_iou_loss 1 [0] example_labels TRAIN
           both_checkpoints example_model 0) =
    (tr, Raise (RuntimeError
                  "--backbone_ckpt and --checkpoint are mutually exclusive")) /\
    In ForwardPass tr /\ In DetectionLoss tr /\ In RegularizationLoss tr /\
    existsb builds_gradients tr = true.
Proof.
  destruct (example_graph_builds both_checkpoints 0)
    as (p' & lr & det & reg & Hupd & Hlr & Hdet & Hreg);
    [reflexivity | reflexivity | vm_compute; discriminate | reflexivity |].
  apply (checkpoint_conflict_raised_at_restore_setup constant_iou_loss 1 [0]
           example_labels both_checkpoints p' example_model 0
           (mkOutputs example_cls_outputs example_box_outputs
              [mkVariable "conv/kernel:0" [1]; mkVariable "conv/bias:0" [2]])
           lr det reg);
    try assumption; try reflexivity.
  left. reflexivity.
Defined.

(** C7 as stated fails: on a configuration with both checkpoints the error
    comes after the forward pass, so no run raises with only cheap events
    behind it. *)
Lemma checkpoint_conflict_not_before_computation :
  truthy_str (ckpt both_checkpoints) = true /\
  truthy_str (backbone_ckpt both_checkpoints) = true /\
  ~ exists (tr : list event) (e : exn),
      run (_model_fn constant_iou_loss 1 [0] example_labels TRAIN
             both_checkpoints example_model 0) = (tr, Raise e) /\
      cheap tr.
Proof.
  split; [reflexivity|]. split; [reflexivity|].
  intros (tr & e & Hrun & Hcheap).
  destruct (example_graph_builds both_checkpoints 0)
    as (p' & lr & det & reg & Hupd & Hlr & Hdet & Hreg);
    [reflexivity | reflexivity | vm_compute; discriminate | reflexivity |].
  destruct (model_fn_conflict_trace constant_iou_loss 1 [0] example_labels
              both_checkpoints p' example_model 0
              (mkOutputs example_cls_outputs example_box_outputs
                 [mkVariable "conv/kernel:0" [1]; mkVariable "conv/bias:0" [2]])
              lr det reg)
    as (suffix & Hrun' & _);
    try assumption; try reflexivity; [left; reflexivity|].
  rewrite Hrun in Hrun'. injection Hrun' as Htr _. subst tr.
  unfold cheap in Hcheap. simpl in Hcheap.
  inversion Hcheap as [|? ? _ Hrest]. inversion Hrest as [|? ? Hfp _].
  discriminate Hfp.
Qed.


Lemma cheap_builds_no_gradients (s : list event) :
  cheap s -> existsb builds_gradients s = false.
Proof.
  induction 1 as [|ev s Hev _ IH]; simpl; [reflexivity|].
  rewrite IH. destruct ev; simpl in *; congruence.
Qed.






(* ------------------------------------------------------------------ *)
(** * Further properties of the schedules *)

(** X1.  The cascade of [stepwise_lr_schedule] needs no order among the
    thresholds: a later entry of the table overrides the earlier ones as
    soon as [global_step] has reached its start. *)
Theorem stepwise_last_threshold_wins (adj init : R) (w f s step : Z) :
  ((s <= step)%Z -> stepwise_lr_schedule adj init w f s step = adj * 0.01) /\
  ((step < s)%Z -> (f <= step)%Z ->
   stepwise_lr_schedule adj init w f s step = adj * 0.1) /\
  ((step < s)%Z -> (step < f)%Z -> (w <= step)%Z ->
   stepwise_lr_schedule adj init w f s step = adj * 1.0) /\
  ((step < s)%Z -> (step < f)%Z -> (step < w)%Z ->
   stepwise_lr_schedule adj init w f s step =
   init + IZR step / IZR w * (adj - init)).
Proof.
  repeat split; intros; rewrite stepwise_unfold; unfold tf_where;
    ltb_cases; reflexivity.
Qed.

(** X2.  Below [lr_warmup_step] the stepwise, cosine and polynomial
    schedules return the same linear warmup, which starts at
    [lr_warmup_init] at step 0.  (For the stepwise schedule the two drop
    steps must not lie below the warmup step.) *)
Theorem schedules_share_warmup (adj init power : R) (w f s t step : Z)
    (Hstep : (step < w)%Z) (Hf : (w <= f)%Z) (Hs : (w <= s)%Z) :
  let warmup := init + IZR step / IZR w * (adj - init) in
  stepwise_lr_schedule adj init w f s step = warmup /\
  cosine_lr_schedule adj init w t step = warmup /\
  polynomial_lr_schedule adj init w power t step = warmup /\
  (step = 0%Z -> warmup = init).
Proof.
  intros warmup. repeat split.
  - rewrite stepwise_unfold. unfold tf_where. ltb_cases. reflexivity.
  - unfold cosine_lr_schedule, tf_where. ltb_cases. reflexivity.
  - unfold polynomial_lr_schedule, tf_where. ltb_cases. reflexivity.
  - intros ->. unfold warmup, Rdiv. ring.
Qed.

Lemma schedules_share_warmup_witness :
  cosine_lr_schedule 0.08 0.008 500 30000 100 =
  0.008 + 100 / 500 * (0.08 - 0.008).
Proof.
  apply (schedules_share_warmup 0.08 0.008 0.9 500 15000 20000 30000 100);
    lia.
Defined.

Lemma step_fraction (a b : Z) :
  (0 <= a <= b)%Z -> (0 < b)%Z -> 0 <= IZR a / IZR b <= 1.
Proof.
  intros [Ha Hab] Hb.
  assert (0 < IZR b) by (apply (IZR_lt 0); lia).
  assert (0 <= IZR a) by (apply (IZR_le 0); lia).
  assert (IZR a <= IZR b) by (apply IZR_le; lia).
  split.
  - apply Rmult_le_pos; [assumption|].
    apply Rlt_le, Rinv_0_lt_compat. assumption.
  - apply Rmult_le_reg_r with (IZR b); [assumption|].
    unfold Rdiv. rewrite Rmult_assoc, Rinv_l; lra.
Qed.

Lemma step_fraction_monotone (a b c : Z) :
  (a <= b)%Z -> (0 < c)%Z -> IZR a / IZR c <= IZR b / IZR c.
Proof.
  intros Hab Hc.
  assert (0 < / IZR c) by (apply Rinv_0_lt_compat, (IZR_lt 0); lia).
  assert (IZR a <= IZR b) by (apply IZR_le; lia).
  unfold Rdiv. nra.
Qed.

(** X3.  From the end of the warmup to [total_steps], with [total_steps]
    positive, the cosine schedule never rises: for a non-negative
    [adjusted_lr] a later step has a rate that is not higher, and every rate
    lies between 0 and [adjusted_lr]. *)
Theorem cosine_lr_schedule_decreases (adj init : R) (w t s1 s2 : Z)
    (Hadj : 0 <= adj) (Hw : (0 <= w)%Z) (Htotal : (0 < t)%Z)
    (Hsteps : (w <= s1 <= s2)%Z) (Ht : (s2 <= t)%Z) :
  cosine_lr_schedule adj init w t s2 <= cosine_lr_schedule adj init w t s1 /\
  0 <= cosine_lr_schedule adj init w t s2 /\
  cosine_lr_schedule adj init w t s1 <= adj.
Proof.
  rewrite !cosine_lr_schedule_after_warmup by lia.
  pose proof (COS_bound (PI * IZR s1 / IZR t)) as [Hl1 Hu1].
  pose proof (COS_bound (PI * IZR s2 / IZR t)) as [Hl2 Hu2].
  assert (Hmono : cos (PI * IZR s2 / IZR t) <= cos (PI * IZR s1 / IZR t)).
  { pose proof PI_RGT_0.
    destruct (step_fraction s1 t) as [? ?]; [lia | lia |].
    destruct (step_fraction s2 t) as [? ?]; [lia | lia |].
    pose proof (step_fraction_monotone s1 s2 t ltac:(lia) ltac:(lia)).
    replace (PI * IZR s1 / IZR t) with (PI * (IZR s1 / IZR t))
      by (unfold Rdiv; ring).
    replace (PI * IZR s2 / IZR t) with (PI * (IZR s2 / IZR t))
      by (unfold Rdiv; ring).
    apply cos_decr_1; nra. }
  repeat split; nra.
Qed.

Lemma cosine_lr_schedule_decreases_witness :
  cosine_lr_schedule 0.08 0.008 500 30000 20000 <=
  cosine_lr_schedule 0.08 0.008 500 30000 10000.
Proof.
  apply (cosine_lr_schedule_decreases 0.08 0.008 500 30000 10000 20000);
    try lia; lra.
Defined.

(** X4.  The TF2 cosine schedule, whose decay is counted from the end of the
    warmup, reaches 0 at [total_steps] and stays between 0 and
    [adjusted_lr] after the warmup. *)
Theorem cosine_lr_schedule_tf2_after_warmup (adj init : R) (w t step : Z)
    (Hadj : 0 <= adj) (Hw : (0 < w < t)%Z) (Hstep : (w < step)%Z) :
  cosine_lr_schedule_tf2 adj init w t t = 0 /\
  0 <= cosine_lr_schedule_tf2 adj init w t step <= adj.
Proof.
  unfold cosine_lr_schedule_tf2. split.
  - destruct (Z.leb_spec t w); [lia|].
    replace (PI * IZR (t - w) / IZR (t - w)) with PI.
    + rewrite cos_PI. lra.
    + field. apply not_0_IZR. lia.
  - destruct (Z.leb_spec step w); [lia|].
    pose proof (COS_bound (PI * IZR (step - w) / IZR (t - w))) as [Hl Hu].
    split; nra.
Qed.

Lemma cosine_lr_schedule_tf2_after_warmup_witness :
  cosine_lr_schedule_tf2 0.08 0.008 500 30000 30000 = 0.
Proof.
  apply (cosine_lr_schedule_tf2_after_warmup 0.08 0.008 500 30000 600);
    try lia; lra.
Defined.

Lemma tf_pow_unit_interval (x y : R) :
  0 <= x <= 1 -> 0 < y -> 0 <= tf_pow x y <= 1.
Proof.
  intros [Hx0 Hx1] Hy. unfold tf_pow.
  destruct (Req_dec_T y 0); [lra|].
  destruct (Rlt_dec 0 x) as [Hpos|Hnpos];
    [|destruct (Req_dec_T x 0); lra].
  unfold Rpower. split; [apply Rlt_le, exp_pos|].
  rewrite <- exp_0.
  assert (Hln : ln x <= 0).
  { rewrite <- ln_1. destruct Hx1 as [Hlt | Heq]; [|rewrite Heq; lra].
    apply Rlt_le, ln_increasing; assumption. }
  destruct (Req_dec_T (y * ln x) 0) as [Heq | Hne]; [rewrite Heq; lra|].
  apply Rlt_le, exp_increasing. nra.
Qed.

(** X5.  With a positive power the polynomial schedule is 0 at
    [total_steps] and, from the end of the warmup to [total_steps], lies
    between 0 and a non-negative [adjusted_lr]. *)
Theorem polynomial_lr_schedule_range (adj init power : R) (w t step : Z)
    (Hadj : 0 <= adj) (Hpower : 0 < power)
    (Hw : (0 <= w)%Z) (Ht : (0 < t)%Z) (Hwt : (w <= t)%Z)
    (Hstep : (w <= step <= t)%Z) :
  polynomial_lr_schedule adj init w power t t = 0 /\
  0 <= polynomial_lr_schedule adj init w power t step <= adj.
Proof.
  unfold polynomial_lr_schedule, tf_where. split.
  - destruct (Z.ltb_spec t w); [lia|].
    replace (1 - IZR t / IZR t) with 0.
    + unfold tf_pow. destruct (Req_dec_T power 0); [lra|].
      destruct (Rlt_dec 0 0); [lra|].
      destruct (Req_dec_T 0 0) as [_|Hne]; [ring | exfalso; apply Hne; reflexivity].
    + field. apply not_0_IZR. lia.
  - destruct (Z.ltb_spec step w); [lia|].
    destruct (step_fraction step t) as [H0 H1]; [lia | lia |].
    pose proof (tf_pow_unit_interval (1 - IZR step / IZR t) power
                  ltac:(lra) Hpower) as [Hl Hu].
    split; nra.
Qed.

Lemma polynomial_lr_schedule_range_witness :
  polynomial_lr_schedule 0.08 0.008 500 0.9 30000 30000 = 0.
Proof.
  apply (polynomial_lr_schedule_range 0.08 0.008 0.9 500 30000 600);
    try lia; lra.
Defined.

(** X6.  [learning_rate_schedule] returns a rate exactly for the four
    methods it knows; with 'constant' the rate is [adjusted_learning_rate]
    at every step. *)
Theorem learning_rate_schedule_returns_iff (p : params) (step : Z) :
  (is_ok (learning_rate_schedule p step) = true <->
   lr_decay_method p = "stepwise"%string \/
   lr_decay_method p = "cosine"%string \/
   lr_decay_method p = "polynomial"%string \/
   lr_decay_method p = "constant"%string) /\
  (lr_decay_method p = "constant"%string ->
   learning_rate_schedule p step = Ok (Q2R (adjusted_learning_rate p))).
Proof.
  unfold learning_rate_schedule. split.
  - destruct (String.eqb_spec (lr_decay_method p) "stepwise") as [H1|H1];
      [simpl; tauto|].
    destruct (String.eqb_spec (lr_decay_method p) "cosine") as [H2|H2];
      [simpl; tauto|].
    destruct (String.eqb_spec (lr_decay_method p) "polynomial") as [H3|H3];
      [simpl; tauto|].
    destruct (String.eqb_spec (lr_decay_method p) "constant") as [H4|H4];
      [simpl; tauto|].
    simpl. split; [discriminate | tauto].
  - intros ->. reflexivity.
Qed.

(** * Further properties of the schedule parameters *)

(** X7.  [update_learning_rate_schedule_parameters] raises only
    [ZeroDivisionError], and exactly when the effective batch size is zero:
    a zero [batch_size], or zero [num_shards] under strategy 'tpu'. *)
Theorem update_raises_iff (p : params) :
  (update_learning_rate_schedule_parameters p = Raise ZeroDivisionError <->
   effective_batch_size p = 0%Z) /\
  (forall e : exn,
     update_learning_rate_schedule_parameters p = Raise e ->
     e = ZeroDivisionError) /\
  (effective_batch_size p = 0%Z <->
   batch_size p = 0%Z \/
   (strategy p = "tpu"%string /\ num_shards p = 0%Z)).
Proof.
  unfold update_learning_rate_schedule_parameters. repeat split.
  - destruct (Z.eqb_spec (effective_batch_size p) 0); [auto | discriminate].
  - intros ->. reflexivity.
  - intros e. destruct (Z.eqb (effective_batch_size p) 0); congruence.
  - unfold effective_batch_size.
    destruct (String.eqb_spec (strategy p) "tpu"); [|auto].
    intros H. apply Z.mul_eq_0 in H. tauto.
  - unfold effective_batch_size.
    destruct (String.eqb_spec (strategy p) "tpu") as [Ht|Ht].
    + intros [-> | [_ ->]]; lia.
    + intros [H | [H _]]; [exact H | contradiction].
Qed.

(** X8.  The derived fields are a function of the primary ones, which the
    call leaves alone: calling it again on its own result changes
    nothing. *)
Theorem update_idempotent (p p' : params)
    (Hupd : update_learning_rate_schedule_parameters p = Ok p') :
  update_learning_rate_schedule_parameters p' = Ok p' /\
  batch_size p' = batch_size p /\ num_shards p' = num_shards p /\
  strategy p' = strategy p /\ learning_rate p' = learning_rate p /\
  num_examples_per_epoch p' = num_examples_per_epoch p /\
  lr_warmup_epoch p' = lr_warmup_epoch p /\
  first_lr_drop_epoch p' = first_lr_drop_epoch p /\
  second_lr_drop_epoch p' = second_lr_drop_epoch p /\
  num_epochs p' = num_epochs p.
Proof.
  unfold update_learning_rate_schedule_parameters in Hupd.
  destruct (Z.eqb (effective_batch_size p) 0) eqn:Hz; [discriminate|].
  injection Hupd as <-. split; [|repeat split].
  unfold update_learning_rate_schedule_parameters, effective_batch_size in *.
  simpl. rewrite Hz. reflexivity.
Qed.

Lemma update_idempotent_witness :
  exists p' : params,
    update_learning_rate_schedule_parameters example_params = Ok p' /\
    update_learning_rate_schedule_parameters p' = Ok p'.
Proof.
  eexists. split; [reflexivity|].
  apply (update_idempotent example_params). reflexivity.
Defined.

Lemma py_int_monotone (x y : Q) :
  (0 <= x)%Q -> (x <= y)%Q -> (0 <= py_int x <= py_int y)%Z.
Proof.
  destruct x as [a b], y as [c d]. unfold py_int, Qle. simpl.
  intros Ha Hxy.
  assert (0 <= a)%Z by lia.
  assert (0 <= c)%Z by nia.
  rewrite !Z.quot_div_nonneg by lia.
  pose proof (Z.mul_div_le a (Zpos b) ltac:(lia)).
  split; [apply Z.div_pos; lia|].
  apply Z.div_le_lower_bound; [lia|].
  pose proof (Z.div_pos a (Zpos b) ltac:(lia) ltac:(lia)).
  nia.
Qed.

Lemma steps_per_epoch_nonneg (n b : Z) :
  (0 <= n)%Z -> (0 < b)%Z -> (0 <= inject_Z n / inject_Z b)%Q.
Proof.
  intros Hn Hb. apply Qle_shift_div_l.
  - change 0%Q with (inject_Z 0). rewrite <- Zlt_Qlt. exact Hb.
  - rewrite Qmult_0_l. change 0%Q with (inject_Z 0).
    rewrite <- Zle_Qle. exact Hn.
Qed.

Lemma int_true_div_nonneg (n b : Z) :
  (0 <= n)%Z -> (0 < b)%Z -> (0 <= int_true_div n b)%Q.
Proof.
  intros Hn Hb. unfold int_true_div.
  destruct (round64_monotone 0 (inject_Z n / inject_Z b)) as [_ H].
  - apply Qle_refl.
  - apply steps_per_epoch_nonneg; assumption.
  - exact H.
Qed.

(** The float product with a non-negative factor keeps the order of the
    other factor. *)
Lemma float_mul_monotone (a b s : Q) :
  (0 <= a)%Q -> (a <= b)%Q -> (0 <= s)%Q ->
  (0 <= float_mul (as_float a) s)%Q /\
  (float_mul (as_float a) s <= float_mul (as_float b) s)%Q.
Proof.
  intros Ha Hab Hs. unfold float_mul, as_float.
  destruct (round64_monotone a b Ha Hab) as [H0 H1].
  apply round64_monotone.
  - apply Qmult_le_0_compat; assumption.
  - apply Qmult_le_compat_r; assumption.
Qed.

(** Each step count is [int()] of a float within three roundings of the
    exact product [epochs * num_examples_per_epoch / batch_size]. *)
Lemma float_product_accuracy (epochs : Q) (n b : Z) :
  (0 <= epochs)%Q -> (0 <= n)%Z -> (0 < b)%Z ->
  let u := (1 # 9007199254740992)%Q in
  let exact := (epochs * (inject_Z n / inject_Z b))%Q in
  let computed := float_mul (as_float epochs) (int_true_div n b) in
  (exact * ((1 - u) * (1 - u) * (1 - u)) <= computed)%Q /\
  (computed <= exact * ((1 + u) * (1 + u) * (1 + u)))%Q.
Proof.
  intros He Hn Hb u exact computed.
  pose proof (steps_per_epoch_nonneg n b Hn Hb) as Hs.
  unfold computed, exact, float_mul, as_float, int_true_div.
  set (s := (inject_Z n / inject_Z b)%Q) in *.
  destruct (round64_accuracy epochs He) as [He1 He2].
  destruct (round64_accuracy s Hs) as [Hs1 Hs2].
  destruct (round64_monotone 0 epochs (Qle_refl 0) He) as [_ He0].
  destruct (round64_monotone 0 s (Qle_refl 0) Hs) as [_ Hs0].
  change (round64 0) with 0%Q in He0, Hs0.
  assert (Hp : (0 <= round64 epochs * round64 s)%Q)
    by (apply Qmult_le_0_compat; assumption).
  destruct (round64_accuracy _ Hp) as [Hp1 Hp2].
  fold u in He1, He2, Hs1, Hs2, Hp1, Hp2.
  assert (Hu : (u == 1 # 9007199254740992)%Q) by reflexivity.
  clearbody u.
  set (re := round64 epochs) in *. set (rs := round64 s) in *.
  set (rp := round64 (re * rs)) in *. clearbody re rs rp s.
  assert (Hu0 : (0 < u)%Q) by (rewrite Hu; reflexivity).
  assert (Hu1 : (u < 1)%Q) by (rewrite Hu; reflexivity).
  split.
  - apply Qle_trans with (re * rs * (1 - u))%Q; [|exact Hp1].
    setoid_replace (epochs * s * ((1 - u) * (1 - u) * (1 - u)))%Q
      with ((epochs * (1 - u)) * (s * (1 - u)) * (1 - u))%Q by ring.
    apply Qmult_le_compat_r; [|qlra].
    apply Qle_trans with (re * (s * (1 - u)))%Q.
    + apply Qmult_le_compat_r; [exact He1|]. qnra.
    + rewrite !(Qmult_comm re). apply Qmult_le_compat_r; assumption.
  - apply Qle_trans with (re * rs * (1 + u))%Q; [exact Hp2|].
    setoid_replace (epochs * s * ((1 + u) * (1 + u) * (1 + u)))%Q
      with ((epochs * (1 + u)) * (s * (1 + u)) * (1 + u))%Q by ring.
    apply Qmult_le_compat_r; [|qlra].
    apply Qle_trans with (re * (s * (1 + u)))%Q.
    + rewrite !(Qmult_comm re). apply Qmult_le_compat_r; assumption.
    + apply Qmult_le_compat_r; [exact He2|]. qnra.
Qed.

(** X9.  Epoch counts in order give step thresholds in order: with a
    positive effective batch size, a non-negative number of examples and
    [0 <= lr_warmup_epoch <= first_lr_drop_epoch <= second_lr_drop_epoch <=
    num_epochs], the call returns with
    [0 <= lr_warmup_step <= first_lr_drop_step <= second_lr_drop_step <=
    total_steps]. *)
Theorem update_orders_thresholds (p : params)
    (Hb : (0 < effective_batch_size p)%Z)
    (Hn : (0 <= num_examples_per_epoch p)%Z)
    (Hwarm : (0 <= lr_warmup_epoch p)%Q)
    (Hfirst : (lr_warmup_epoch p <= first_lr_drop_epoch p)%Q)
    (Hsecond : (first_lr_drop_epoch p <= second_lr_drop_epoch p)%Q)
    (Htotal : (second_lr_drop_epoch p <= num_epochs p)%Q) :
  exists p' : params,
    update_learning_rate_schedule_parameters p = Ok p' /\
    (0 <= lr_warmup_step p')%Z /\
    (lr_warmup_step p' <= first_lr_drop_step p')%Z /\
    (first_lr_drop_step p' <= second_lr_drop_step p')%Z /\
    (second_lr_drop_step p' <= total_steps p')%Z.
Proof.
  unfold update_learning_rate_schedule_parameters.
  destruct (Z.eqb_spec (effective_batch_size p) 0) as [Hz|_]; [lia|].
  eexists. split; [reflexivity|]. simpl.
  pose proof (int_true_div_nonneg _ _ Hn Hb) as Hs.
  set (s := int_true_div (num_examples_per_epoch p) (effective_batch_size p))
    in *.
  assert (Hf : (0 <= first_lr_drop_epoch p)%Q)
    by exact (Qle_trans _ _ _ Hwarm Hfirst).
  assert (Hse : (0 <= second_lr_drop_epoch p)%Q)
    by exact (Qle_trans _ _ _ Hf Hsecond).
  destruct (float_mul_monotone _ _ s Hwarm Hfirst Hs) as [H1 H2].
  destruct (float_mul_monotone _ _ s Hf Hsecond Hs) as [H1' H3].
  destruct (float_mul_monotone _ _ s Hse Htotal Hs) as [H1'' H4].
  pose proof (py_int_monotone _ _ H1 H2).
  pose proof (py_int_monotone _ _ H1' H3).
  pose proof (py_int_monotone _ _ H1'' H4).
  lia.
Qed.

Lemma update_orders_thresholds_witness :
  exists p' : params,
    update_learning_rate_schedule_parameters example_params = Ok p' /\
    (0 <= lr_warmup_step p')%Z /\
    (lr_warmup_step p' <= first_lr_drop_step p')%Z /\
    (first_lr_drop_step p' <= second_lr_drop_step p')%Z /\
    (second_lr_drop_step p' <= total_steps p')%Z.
Proof.
  apply (update_orders_thresholds example_params);
    vm_compute; first [reflexivity | discriminate].
Defined.

(** * Further properties of the losses *)

Lemma softplus_positive (x : R) : 0 < ln (1 + exp x).
Proof.
  rewrite <- ln_1. apply ln_increasing; [lra|].
  pose proof (exp_pos x). lra.
Qed.

(** [log(1 + exp(-x)) = -x + log(1 + exp(x))]. *)
Lemma softplus_flip (x : R) : ln (1 + exp (- x)) = - x + ln (1 + exp x).
Proof.
  pose proof (exp_pos x) as Hx. pose proof (exp_pos (- x)) as Hnx.
  replace (1 + exp (- x)) with (exp (- x) * (1 + exp x)).
  - rewrite ln_mult by lra. rewrite ln_exp. reflexivity.
  - rewrite Rmult_plus_distr_l, <- exp_plus.
    replace (- x + x) with 0 by ring. rewrite exp_0. ring.
Qed.

(** The stable form TensorFlow computes is [x - x * z + log(1 + exp(-x))]. *)
Lemma sigmoid_cross_entropy_unfold (z x : R) :
  sigmoid_cross_entropy z x = x - x * z + ln (1 + exp (- x)).
Proof.
  unfold sigmoid_cross_entropy.
  destruct (Rle_dec 0 x) as [Hpos|Hneg].
  - rewrite Rmax_left by lra. rewrite Rabs_right by lra. reflexivity.
  - rewrite Rmax_right by lra. rewrite Rabs_left by lra.
    rewrite Ropp_involutive, (softplus_flip x). ring.
Qed.

Lemma sigmoid_cross_entropy_nonneg (z x : R) :
  0 <= z <= 1 -> 0 <= sigmoid_cross_entropy z x.
Proof.
  intros [H0 H1]. unfold sigmoid_cross_entropy.
  pose proof (softplus_positive (- Rabs x)).
  destruct (Rle_dec 0 x) as [Hpos|Hneg].
  - rewrite Rmax_left by lra. nra.
  - rewrite Rmax_right by lra. nra.
Qed.

Lemma ln_sigmoid (x : R) : ln (sigmoid x) = - ln (1 + exp (- x)).
Proof.
  unfold sigmoid. pose proof (exp_pos (- x)).
  replace (1 / (1 + exp (- x))) with (/ (1 + exp (- x))) by (unfold Rdiv; ring).
  apply ln_Rinv. lra.
Qed.

Lemma ln_one_minus_sigmoid (x : R) :
  ln (1 - sigmoid x) = - x - ln (1 + exp (- x)).
Proof.
  unfold sigmoid. pose proof (exp_pos (- x)) as He.
  replace (1 - 1 / (1 + exp (- x))) with (exp (- x) * / (1 + exp (- x)))
    by (field; lra).
  rewrite ln_mult; [|lra|apply Rinv_0_lt_compat; lra].
  rewrite ln_exp, ln_Rinv by lra. ring.
Qed.

Lemma tf_pow_nonneg (x y : R) : 0 <= x -> 0 <= tf_pow x y.
Proof.
  intros Hx. unfold tf_pow. destruct (Req_dec_T y 0); [lra|].
  destruct (Rlt_dec 0 x); [unfold Rpower; apply Rlt_le, exp_pos|].
  destruct (Req_dec_T x 0); lra.
Qed.

Lemma nth_error_same_length {A B : Type} (a : list A) (b : list B) (i : nat)
    (x : A) :
  length a = length b -> nth_error a i = Some x ->
  exists y : B, nth_error b i = Some y.
Proof.
  intros Hlen Hx.
  assert (Hi : (i < length b)%nat).
  { rewrite <- Hlen. apply nth_error_Some. congruence. }
  apply nth_error_Some in Hi.
  destruct (nth_error b i) as [y|]; [eauto | contradiction].
Qed.

(** X10.  For targets in [0, 1], [alpha] and [label_smoothing] in [0, 1]
    and a positive normalizer, no element of the focal loss is negative. *)
Theorem focal_loss_nonnegative (y_pred y_true : tensor)
    (alpha gamma normalizer label_smoothing : R)
    (Hshape : length y_pred = length y_true)
    (Htargets : Forall (fun z => 0 <= z <= 1) y_true)
    (Halpha : 0 <= alpha <= 1)
    (Hsmooth : 0 <= label_smoothing <= 1)
    (Hnorm : 0 < normalizer) :
  exists loss : tensor,
    focal_loss y_pred y_true alpha gamma normalizer label_smoothing = Ok loss /\
    Forall (fun v => 0 <= v) loss.
Proof.
  destruct (focal_loss_ok y_pred y_true alpha gamma normalizer label_smoothing
              Hshape) as (loss & Hrun & Hlen & Hnth).
  exists loss. split; [exact Hrun|].
  apply Forall_forall. intros v Hv.
  apply In_nth_error in Hv as (i & Hi).
  destruct (nth_error_same_length loss y_pred i v Hlen Hi) as (x & Hx).
  destruct (nth_error_same_length y_pred y_true i x Hshape Hx) as (z & Hz).
  rewrite (Hnth i x z Hx Hz) in Hi. injection Hi as <-.
  assert (Hzr : 0 <= z <= 1).
  { rewrite Forall_forall in Htargets. apply Htargets.
    eapply nth_error_In. exact Hz. }
  assert (Ht : 0 <= z * (1.0 - label_smoothing) + 0.5 * label_smoothing <= 1)
    by nra.
  pose proof (sigmoid_cross_entropy_nonneg _ x Ht) as Hce.
  pose proof (sigmoid_range x) as Hsig.
  pose proof (tf_pow_nonneg
                (1.0 - (z * sigmoid x + (1 - z) * (1 - sigmoid x))) gamma
                ltac:(nra)) as Hpow.
  assert (Ha : 0 <= z * alpha + (1 - z) * (1 - alpha)) by nra.
  apply Rmult_le_pos; [|apply Rlt_le, Rinv_0_lt_compat; exact Hnorm].
  apply Rmult_le_pos; [|exact Hce].
  apply Rmult_le_pos; assumption.
Qed.

Lemma focal_loss_nonnegative_witness :
  exists loss : tensor,
    focal_loss [2; -1] [1; 0] 0.25 1.5 3 0 = Ok loss /\
    Forall (fun v => 0 <= v) loss.
Proof.
  apply (focal_loss_nonnegative [2; -1] [1; 0] 0.25 1.5 3 0);
    try reflexivity; try lra.
  repeat constructor; lra.
Defined.

(** X11.  Without label smoothing the code computes the focal loss of its
    docstring, [-(1 - pt)^gamma * log(pt)], weighted by [alpha] for a
    positive and by [1 - alpha] for a negative target and divided by the
    normalizer: [pt] is [sigmoid(x)] for target 1 and [1 - sigmoid(x)] for
    target 0. *)
Theorem focal_loss_docstring_formula (y_pred y_true : tensor)
    (alpha gamma normalizer : R)
    (Hshape : length y_pred = length y_true) :
  exists loss : tensor,
    focal_loss y_pred y_true alpha gamma normalizer 0 = Ok loss /\
    forall (i : nat) (x : R),
      nth_error y_pred i = Some x ->
      (nth_error y_true i = Some 1 ->
       nth_error loss i =
       Some (alpha * (tf_pow (1 - sigmoid x) gamma * - ln (sigmoid x)) /
             normalizer)) /\
      (nth_error y_true i = Some 0 ->
       nth_error loss i =
       Some ((1 - alpha) * (tf_pow (sigmoid x) gamma * - ln (1 - sigmoid x)) /
             normalizer)).
Proof.
  destruct (focal_loss_ok y_pred y_true alpha gamma normalizer 0 Hshape)
    as (loss & Hrun & _ & Hnth).
  exists loss. split; [exact Hrun|].
  intros i x Hx. split; intros Hz; rewrite (Hnth i x _ Hx Hz); f_equal.
  - replace (1 * (1.0 - 0) + 0.5 * 0) with 1 by lra.
    replace (1.0 - (1 * sigmoid x + (1 - 1) * (1 - sigmoid x)))
      with (1 - sigmoid x) by lra.
    rewrite sigmoid_cross_entropy_unfold, ln_sigmoid.
    unfold Rdiv. ring.
  - replace (0 * (1.0 - 0) + 0.5 * 0) with 0 by lra.
    replace (1.0 - (0 * sigmoid x + (1 - 0) * (1 - sigmoid x)))
      with (sigmoid x) by lra.
    rewrite sigmoid_cross_entropy_unfold, ln_one_minus_sigmoid.
    unfold Rdiv. ring.
Qed.

Lemma focal_loss_docstring_formula_witness :
  exists loss : tensor,
    focal_loss [2; -1] [1; 0] 0.25 1.5 3 0 = Ok loss /\
    forall (i : nat) (x : R),
      nth_error [2; -1] i = Some x ->
      (nth_error [1; 0] i = Some 1 ->
       nth_error loss i =
       Some (0.25 * (tf_pow (1 - sigmoid x) 1.5 * - ln (sigmoid x)) / 3)) /\
      (nth_error [1; 0] i = Some 0 ->
       nth_error loss i =
       Some ((1 - 0.25) * (tf_pow (sigmoid x) 1.5 * - ln (1 - sigmoid x)) / 3)).
Proof.
  apply (focal_loss_docstring_formula [2; -1] [1; 0] 0.25 1.5 3).
  reflexivity.
Defined.

Lemma huber_nonneg (delta label prediction : R) :
  0 <= delta -> 0 <= huber delta label prediction.
Proof.
  intros Hd. unfold huber. cbv zeta.
  pose proof (Rabs_pos (prediction - label)) as Ha.
  pose proof (Rmin_l (Rabs (prediction - label)) delta) as Hm.
  assert (0 <= Rmin (Rabs (prediction - label)) delta)
    by (apply Rmin_glb; assumption).
  nra.
Qed.

Lemma huber_exact (delta t : R) : 0 <= delta -> huber delta t t = 0.
Proof.
  intros Hd. unfold huber. cbv zeta.
  replace (t - t) with 0 by ring. rewrite Rabs_R0.
  rewrite Rmin_left by exact Hd. ring.
Qed.

Lemma masked_huber_agree (delta : R) (bt bo bo' : tensor) :
  length bo = length bt -> length bo' = length bt ->
  (forall (i : nat) (t : R),
     nth_error bt i = Some t -> t <> 0 -> nth_error bo i = nth_error bo' i) ->
  zip_with Rmult (zip_with (huber delta) bt bo) (not_equal_zero bt) =
  zip_with Rmult (zip_with (huber delta) bt bo') (not_equal_zero bt).
Proof.
  revert bo bo'. induction bt as [|t bt IH]; intros [|o bo] [|o' bo'];
    simpl; intros Hl Hl' Hagree; try discriminate; [reflexivity|].
  f_equal.
  - destruct (Req_dec_T t 0) as [_|Hne]; [ring|].
    specialize (Hagree 0%nat t eq_refl Hne). simpl in Hagree.
    injection Hagree as ->. reflexivity.
  - apply IH; [lia | lia |].
    intros i u Hu Hne. apply (Hagree (S i) u Hu Hne).
Qed.

(** X12.  The box loss reads the box outputs only where the target is not
    zero: two output tensors that agree at every position with a non-zero
    target have the same box loss. *)
Theorem _box_loss_reads_unmasked_only (box_outputs box_outputs' box_targets
    : tensor) (num_positives delta : R)
    (Hshape : length box_outputs = length box_targets)
    (Hshape' : length box_outputs' = length box_targets)
    (Hagree : forall (i : nat) (t : R),
        nth_error box_targets i = Some t -> t <> 0 ->
        nth_error box_outputs i = nth_error box_outputs' i) :
  is_ok (_box_loss box_outputs box_targets num_positives delta) = true /\
  _box_loss box_outputs box_targets num_positives delta =
  _box_loss box_outputs' box_targets num_positives delta.
Proof.
  rewrite !_box_loss_ok by assumption. split; [reflexivity|].
  rewrite (masked_huber_agree delta box_targets box_outputs box_outputs')
    by assumption.
  reflexivity.
Qed.

Lemma _box_loss_reads_unmasked_only_witness :
  _box_loss [1; 2; 3; 4] [0; 0.5; 0; 0.25] 2 0.1 =
  _box_loss [7; 2; 9; 4] [0; 0.5; 0; 0.25] 2 0.1.
Proof.
  apply (_box_loss_reads_unmasked_only [1; 2; 3; 4] [7; 2; 9; 4]
           [0; 0.5; 0; 0.25] 2 0.1); try reflexivity.
  intros [|[|[|[|i]]]] t Ht Hne; simpl in *; try reflexivity;
    try discriminate; injection Ht as <-; exfalso; apply Hne; reflexivity.
Defined.

Lemma weighted_sum_nonneg (a b : tensor) :
  Forall (fun x => 0 <= x) a -> Forall (fun x => 0 <= x) b ->
  0 <= reduce_sum (zip_with Rmult a b).
Proof.
  intros Ha. revert b. induction Ha as [|x a Hx _ IH]; intros b Hb.
  - simpl. lra.
  - destruct Hb as [|y b Hy Hb]; simpl; [lra|].
    specialize (IH b Hb). nra.
Qed.

Lemma huber_list_nonneg (delta : R) (bt bo : tensor) :
  0 <= delta -> Forall (fun x => 0 <= x) (zip_with (huber delta) bt bo).
Proof.
  intros Hd. revert bo. induction bt as [|t bt IH]; intros [|o bo]; simpl;
    constructor; [apply huber_nonneg; exact Hd | apply IH].
Qed.

Lemma not_equal_zero_nonneg (t : tensor) :
  Forall (fun x => 0 <= x) (not_equal_zero t).
Proof.
  induction t as [|x t IH]; simpl; constructor; [|exact IH].
  destruct (Req_dec_T x 0); lra.
Qed.

(** X13.  With a non-negative [delta] and a positive number of positives
    the box loss is never negative, and it is 0 when the outputs equal the
    targets. *)
Theorem _box_loss_range (box_outputs box_targets : tensor)
    (num_positives delta : R)
    (Hshape : length box_outputs = length box_targets)
    (Hdelta : 0 <= delta) (Hpos : 0 < num_positives) :
  (exists b : R,
     _box_loss box_outputs box_targets num_positives delta = Ok b /\ 0 <= b) /\
  _box_loss box_targets box_targets num_positives delta = Ok 0.
Proof.
  split.
  - rewrite _box_loss_ok by assumption. eexists. split; [reflexivity|].
    apply Rmult_le_pos.
    + apply weighted_sum_nonneg;
        [apply huber_list_nonneg; exact Hdelta | apply not_equal_zero_nonneg].
    + apply Rlt_le, Rinv_0_lt_compat. lra.
  - rewrite _box_loss_ok by reflexivity. f_equal.
    rewrite reduce_sum_zeros; [unfold Rdiv; ring|].
    clear Hshape. induction box_targets as [|t rest IH]; simpl;
      constructor; [|exact IH].
    rewrite huber_exact by exact Hdelta. ring.
Qed.

Lemma _box_loss_range_witness :
  _box_loss [0; 0.5; 0; 0.25] [0; 0.5; 0; 0.25] 2 0.1 = Ok 0.
Proof.
  apply (_box_loss_range [1; 2; 3; 4] [0; 0.5; 0; 0.25] 2 0.1);
    [reflexivity | lra | lra].
Defined.

(** * Further properties of the detection loss *)

Section DetectionEdges.

Variable iou_loss : tensor -> tensor -> string -> result tensor.
Variable cls_outputs : level_dict tensor.
Variable l : labels.
Variable p : params.

Lemma loss_at_level_without_box (box_outputs box_outputs' : level_dict tensor)
    (acc : level_losses) (level : Z) :
  truthy_float (box_loss_weight p) = false ->
  truthy_str (iou_loss_type p) = false ->
  loss_at_level iou_loss cls_outputs box_outputs l p acc level =
  loss_at_level iou_loss cls_outputs box_outputs' l p acc level.
Proof.
  intros Hw Hiou. unfold loss_at_level. rewrite Hw.
  destruct (iou_loss_type p) as [kind|]; [|reflexivity].
  rewrite Hiou. reflexivity.
Qed.

Lemma for_levels_without_box (box_outputs box_outputs' : level_dict tensor)
    (levels : list Z) (acc : level_losses) :
  truthy_float (box_loss_weight p) = false ->
  truthy_str (iou_loss_type p) = false ->
  for_levels (loss_at_level iou_loss cls_outputs box_outputs l p) levels acc =
  for_levels (loss_at_level iou_loss cls_outputs box_outputs' l p) levels acc.
Proof.
  intros Hw Hiou. revert acc.
  induction levels as [|level rest IH]; intros acc; [reflexivity|].
  simpl. rewrite (loss_at_level_without_box box_outputs box_outputs')
    by assumption.
  destruct (loss_at_level iou_loss cls_outputs box_outputs' l p acc level);
    [apply IH | reflexivity].
Qed.

Lemma for_levels_keeps_box_lists (box_outputs : level_dict tensor)
    (levels : list Z) (acc acc' : level_losses) :
  truthy_float (box_loss_weight p) = false ->
  truthy_str (iou_loss_type p) = false ->
  for_levels (loss_at_level iou_loss cls_outputs box_outputs l p) levels acc =
  Ok acc' ->
  box_losses acc' = box_losses acc /\
  box_iou_losses acc' = box_iou_losses acc.
Proof.
  intros Hw Hiou. revert acc.
  induction levels as [|level rest IH]; intros acc Hrun; simpl in Hrun.
  - injection Hrun as <-. split; reflexivity.
  - apply bind_ok_inv in Hrun as (acc1 & H1 & Hrun).
    apply loss_at_level_inv in H1
      as (? & ? & ? & ? & _ & _ & _ & _ & _ & Hb & Hi).
    rewrite Hw in Hb. rewrite Hiou in Hi.
    destruct (IH acc1 Hrun) as [Hb' Hi']. split; congruence.
Qed.

(** X14.  With [box_loss_weight] zero and no [iou_loss_type] the box
    outputs are never read: [detection_loss] is the same for every
    [box_outputs], and when it returns both box losses are 0 and the total
    loss is the classification loss. *)
Theorem detection_loss_without_box_terms
    (box_outputs box_outputs' : level_dict tensor)
    (Hweight : truthy_float (box_loss_weight p) = false)
    (Hiou : truthy_str (iou_loss_type p) = false) :
  detection_loss iou_loss cls_outputs box_outputs l p =
  detection_loss iou_loss cls_outputs box_outputs' l p /\
  forall d : detection_losses,
    detection_loss iou_loss cls_outputs box_outputs l p = Ok d ->
    box_loss d = 0 /\ box_iou_loss d = 0 /\ total_loss d = cls_loss d.
Proof.
  split.
  - unfold detection_loss.
    rewrite (for_levels_without_box box_outputs box_outputs') by assumption.
    reflexivity.
  - intros d Hd. unfold detection_loss in Hd.
    apply bind_ok_inv in Hd as (acc & Hacc & Hd).
    destruct (for_levels_keeps_box_lists _ _ _ _ Hweight Hiou Hacc)
      as [Hb Hi].
    simpl in Hb, Hi. rewrite Hb, Hi in Hd.
    apply bind_ok_inv in Hd as (c & _ & Hd). simpl in Hd.
    injection Hd as <-. simpl. repeat split; ring.
Qed.

(** X15.  A level of [cls_outputs] without class targets, or without box
    targets, in the label dictionary makes [detection_loss] raise
    [KeyError] with the key of the missing entry; this holds for the first
    level the loop visits. *)
Theorem detection_loss_missing_labels (box_outputs : level_dict tensor)
    (level : Z) (out : tensor) (rest : level_dict tensor)
    (Hfirst : cls_outputs = (level, out) :: rest) :
  (lookup (cls_targets l) level = None ->
   detection_loss iou_loss cls_outputs box_outputs l p =
   Raise (KeyError (level_key "cls_targets_" level))) /\
  (lookup (cls_targets l) level <> None ->
   lookup (box_targets l) level = None ->
   detection_loss iou_loss cls_outputs box_outputs l p =
   Raise (KeyError (level_key "box_targets_" level))).
Proof.
  subst cls_outputs. unfold detection_loss. simpl keys. split.
  - intros Hc. simpl. unfold loss_at_level, getitem. rewrite Hc. reflexivity.
  - intros Hc Hb. simpl. unfold loss_at_level, getitem.
    destruct (lookup (cls_targets l) level); [|contradiction].
    rewrite Hb. reflexivity.
Qed.

(** X16.  When the inputs of every level fit together, [detection_loss]
    returns exactly when there is at least one level; without levels the
    sum of the classification losses has nothing to add and raises. *)
Theorem detection_loss_returns_iff (box_outputs : level_dict tensor)
    (Hready : forall level : Z, In level (keys cls_outputs) ->
        level_ready iou_loss cls_outputs box_outputs l p level) :
  is_ok (detection_loss iou_loss cls_outputs box_outputs l p) = true <->
  cls_outputs <> [].
Proof.
  split.
  - intros Hok Hnil. rewrite Hnil in Hok. discriminate Hok.
  - intros Hne.
    destruct (detection_loss_ready iou_loss cls_outputs box_outputs l p
                Hne Hready) as (_ & d & _ & Hd & _).
    rewrite Hd. reflexivity.
Qed.

End DetectionEdges.

Lemma detection_loss_without_box_terms_witness :
  detection_loss constant_iou_loss example_cls_outputs example_box_outputs
    example_labels classification_only =
  detection_loss constant_iou_loss example_cls_outputs []
    example_labels classification_only.
Proof.
  apply (detection_loss_without_box_terms constant_iou_loss
           example_cls_outputs example_labels classification_only);
    reflexivity.
Defined.

Lemma detection_loss_missing_labels_witness :
  detection_loss constant_iou_loss [(4%Z, [0.5; -1])] example_box_outputs
    example_labels example_params =
  Raise (KeyError "cls_targets_4").
Proof.
  apply (detection_loss_missing_labels constant_iou_loss [(4%Z, [0.5; -1])]
           example_labels example_params example_box_outputs 4 [0.5; -1] []);
    reflexivity.
Defined.

Lemma detection_loss_returns_iff_witness :
  is_ok (detection_loss constant_iou_loss example_cls_outputs
           example_box_outputs example_labels example_params) = true <->
  example_cls_outputs <> [].
Proof.
  apply (detection_loss_returns_iff constant_iou_loss example_cls_outputs
           example_labels example_params example_box_outputs).
  intros level. apply example_level_ready; reflexivity.
Defined.

(** * Further properties of the regularization *)

Lemma filter_twice {A : Type} (f : A -> bool) (xs : list A) :
  filter f (filter f xs) = filter f xs.
Proof.
  induction xs as [|x xs IH]; simpl; [reflexivity|].
  destruct (f x) eqn:Hx; simpl; [rewrite Hx, IH|]; auto.
Qed.

(** X17.  Variables whose names do not match play no part in
    [reg_l2_loss]: dropping them, or renaming them to other names that do
    not match, gives the same result. *)
Theorem reg_l2_loss_ignores_unmatched (weight_decay : R)
    (var_match : string -> bool) (rename : string -> string)
    (vars : list variable)
    (Hrename : forall v : variable, In v vars ->
        var_match (var_name v) = false ->
        var_match (rename (var_name v)) = false) :
  reg_l2_loss weight_decay var_match
    (filter (fun v => var_match (var_name v)) vars) =
  reg_l2_loss weight_decay var_match vars /\
  reg_l2_loss weight_decay var_match
    (map (fun v => if var_match (var_name v) then v
                   else mkVariable (rename (var_name v)) (var_value v)) vars) =
  reg_l2_loss weight_decay var_match vars.
Proof.
  split.
  - unfold reg_l2_loss. rewrite filter_twice. reflexivity.
  - apply reg_l2_loss_rename. exact Hrename.
Qed.

Lemma reg_l2_loss_ignores_unmatched_witness :
  reg_l2_loss 0.00004 kernel_or_weight
    [mkVariable "conv/kernel:0" [1]; mkVariable "conv/beta:0" [2]] =
  reg_l2_loss 0.00004 kernel_or_weight
    [mkVariable "conv/kernel:0" [1]; mkVariable "conv/bias:0" [2]].
Proof.
  apply (reg_l2_loss_ignores_unmatched 0.00004 kernel_or_weight
           (fun _ => "conv/beta:0"%string)
           [mkVariable "conv/kernel:0" [1]; mkVariable "conv/bias:0" [2]]).
  intros v _ _. reflexivity.
Defined.

Lemma l2_loss_nonneg (t : tensor) : 0 <= l2_loss t.
Proof.
  unfold l2_loss.
  assert (0 <= reduce_sum (map (fun x => x * x) t)).
  { apply reduce_sum_nonneg. induction t as [|x t IH]; simpl; constructor;
      [nra | exact IH]. }
  lra.
Qed.

(** X18.  With a non-negative [weight_decay] and at least one matching
    variable, [reg_l2_loss] returns a penalty that is not negative. *)
Theorem reg_l2_loss_nonnegative (weight_decay : R)
    (var_match : string -> bool) (vars : list variable)
    (Hdecay : 0 <= weight_decay)
    (Hmatch : exists v : variable, In v vars /\ var_match (var_name v) = true) :
  exists penalty : R,
    reg_l2_loss weight_decay var_match vars = Ok penalty /\ 0 <= penalty.
Proof.
  rewrite (reg_l2_loss_sum weight_decay var_match vars Hmatch).
  eexists. split; [reflexivity|].
  apply Rmult_le_pos; [exact Hdecay|].
  generalize (filter (fun v => var_match (var_name v)) vars) as matched.
  induction matched as [|v rest IH]; simpl; [lra|].
  pose proof (l2_loss_nonneg (var_value v)). lra.
Qed.

Lemma reg_l2_loss_nonnegative_witness :
  exists penalty : R,
    reg_l2_loss 0.00004 kernel_or_weight
      [mkVariable "conv/kernel:0" [1]; mkVariable "conv/bias:0" [2]] =
    Ok penalty /\ 0 <= penalty.
Proof.
  apply (reg_l2_loss_nonnegative 0.00004 kernel_or_weight
           [mkVariable "conv/kernel:0" [1]; mkVariable "conv/bias:0" [2]]).
  - lra.
  - eexists. split; [left; reflexivity | reflexivity].
Defined.

(** ** The names the pattern matches *)

Lemma string_length_append (a b : string) :
  String.length (a ++ b) = (String.length a + String.length b)%nat.
Proof. induction a as [|c a IH]; simpl; [reflexivity | rewrite IH; reflexivity]. Qed.

Lemma substring_whole (s : string) : substring 0 (String.length s) s = s.
Proof. induction s as [|c s IH]; simpl; [reflexivity | rewrite IH; reflexivity]. Qed.

Lemma substring_append_left (a b : string) :
  substring 0 (String.length a) (a ++ b) = a.
Proof.
  induction a as [|c a IH]; simpl.
  - destruct b; reflexivity.
  - rewrite IH. reflexivity.
Qed.

Lemma substring_append_right (a b : string) (m : nat) :
  substring (String.length a) m (a ++ b) = substring 0 m b.
Proof. induction a as [|c a IH]; simpl; [reflexivity | exact IH]. Qed.

Lemma substring_split (s : string) (m : nat) :
  (m <= String.length s)%nat ->
  s = (substring 0 m s ++ substring m (String.length s - m) s)%string.
Proof.
  revert m. induction s as [|c s IH]; intros m Hm.
  - simpl in Hm. assert (m = 0%nat) by lia. subst. reflexivity.
  - destruct m as [|m].
    + simpl. rewrite substring_whole. reflexivity.
    + simpl in *. rewrite <- IH by lia. reflexivity.
Qed.

Lemma ends_with_append (pre suffix : string) :
  ends_with suffix (pre ++ suffix) = true.
Proof.
  unfold ends_with. rewrite string_length_append.
  replace (String.length pre + String.length suffix - String.length suffix)%nat
    with (String.length pre) by lia.
  rewrite substring_append_right, substring_whole, String.eqb_refl.
  rewrite andb_true_r. apply Nat.leb_le. lia.
Qed.

Lemma ends_with_inv (suffix s : string) :
  ends_with suffix s = true ->
  s = (substring 0 (String.length s - String.length suffix) s ++ suffix)%string.
Proof.
  unfold ends_with. intros H. apply andb_true_iff in H as [Hlen Heq].
  apply Nat.leb_le in Hlen. apply String.eqb_eq in Heq.
  rewrite (substring_split s (String.length s - String.length suffix))
    at 1 by lia.
  replace (String.length s - (String.length s - String.length suffix))%nat
    with (String.length suffix) by lia.
  rewrite Heq. reflexivity.
Qed.

Lemma match_to_end_append (pre name : string) :
  name = "kernel:0"%string \/ name = "weight:0"%string ->
  no_newline pre = true -> match_to_end (pre ++ name) = true.
Proof.
  intros Hname Hpre. unfold match_to_end.
  assert (Hlen : String.length name = 8%nat)
    by (destruct Hname as [-> | ->]; reflexivity).
  rewrite string_length_append, Hlen.
  replace (String.length pre + 8 - 8)%nat with (String.length pre) by lia.
  rewrite substring_append_left, Hpre, andb_true_r.
  destruct Hname as [-> | ->]; rewrite ends_with_append;
    [reflexivity | apply orb_true_r].
Qed.

Lemma match_to_end_inv (s : string) :
  match_to_end s = true ->
  exists pre : string,
    no_newline pre = true /\
    (s = (pre ++ "kernel:0")%string \/ s = (pre ++ "weight:0")%string).
Proof.
  unfold match_to_end. intros H. apply andb_true_iff in H as [Hend Hpre].
  exists (substring 0 (String.length s - 8) s). split; [exact Hpre|].
  apply orb_true_iff in Hend as [Hk | Hw];
    [left; exact (ends_with_inv _ _ Hk) | right; exact (ends_with_inv _ _ Hw)].
Qed.

(** The names [kernel_or_weight] accepts are exactly those made of a part
    without a newline followed by 'kernel:0' or 'weight:0', with at most
    one newline after it. *)
Lemma kernel_or_weight_names (s : string) :
  kernel_or_weight s = true <->
  exists pre : string,
    no_newline pre = true /\
    (s = (pre ++ "kernel:0")%string \/
     s = (pre ++ "weight:0")%string \/
     s = ((pre ++ "kernel:0") ++ String newline "")%string \/
     s = ((pre ++ "weight:0") ++ String newline "")%string).
Proof.
  split.
  - unfold kernel_or_weight. intros H.
    apply orb_true_iff in H as [H | H].
    + destruct (match_to_end_inv s H) as (pre & Hpre & Hs).
      exists pre. tauto.
    + apply andb_true_iff in H as [Hnl H].
      apply ends_with_inv in Hnl. simpl String.length in Hnl.
      destruct (match_to_end_inv _ H) as (pre & Hpre & Hs).
      exists pre. split; [exact Hpre|].
      rewrite Hnl. destruct Hs as [-> | ->]; tauto.
  - intros (pre & Hpre & Hs). unfold kernel_or_weight.
    destruct Hs as [-> | [-> | [-> | ->]]].
    + rewrite match_to_end_append by auto. reflexivity.
    + rewrite match_to_end_append by auto. reflexivity.
    + rewrite ends_with_append. simpl andb.
      rewrite string_length_append. simpl String.length.
      replace (String.length (pre ++ "kernel:0") + 1 - 1)%nat
        with (String.length (pre ++ "kernel:0")) by lia.
      rewrite substring_append_left.
      rewrite (match_to_end_append pre "kernel:0") by auto.
      apply orb_true_r.
    + rewrite ends_with_append. simpl andb.
      rewrite string_length_append. simpl String.length.
      replace (String.length (pre ++ "weight:0") + 1 - 1)%nat
        with (String.length (pre ++ "weight:0")) by lia.
      rewrite substring_append_left.
      rewrite (match_to_end_append pre "weight:0") by auto.
      apply orb_true_r.
Qed.

(** *** The default pattern *)

(** A literal text matches itself and nothing else. *)
Lemma accept_lit (text s : string) (k : string -> bool) :
  accept (lit text) s k = true <->
  exists rest : string, s = (text ++ rest)%string /\ k rest = true.
Proof.
  revert s. induction text as [|c text IH]; intros s; simpl.
  - split; [intros H; exists s; auto | intros (rest & -> & H); exact H].
  - destruct s as [|c' s]; simpl.
    + split; [discriminate | intros (rest & Hs & _); discriminate].
    + rewrite andb_true_iff, IH. split.
      * intros (Hc & rest & -> & Hk). apply Ascii.eqb_eq in Hc. subst c'.
        exists rest. auto.
      * intros (rest & Hs & Hk). injection Hs as -> ->.
        split; [apply Ascii.eqb_refl | eauto].
Qed.

Lemma accept_dollar (s : string) (k : string -> bool) :
  accept Dollar s k = true <->
  (s = ""%string \/ s = String newline "") /\ k s = true.
Proof.
  simpl. rewrite andb_true_iff, orb_true_iff, !String.eqb_eq. reflexivity.
Qed.

(** [.*] takes a prefix without a newline. *)
Lemma star_dot_loop (n : nat) (s : string) (k : string -> bool) :
  (String.length s < n)%nat ->
  (star_loop (accept Dot) n s k = true <->
   exists pre rest : string,
     s = (pre ++ rest)%string /\ no_newline pre = true /\ k rest = true).
Proof.
  revert s. induction n as [|n IH]; intros s Hn; [lia|].
  simpl. rewrite orb_true_iff. split.
  - intros [Hk | Hstep].
    + exists ""%string, s. auto.
    + destruct s as [|c s]; [discriminate|].
      apply andb_true_iff in Hstep as [Hc Hloop].
      destruct n as [|n']; [simpl in Hn; lia|].
      apply IH in Hloop; [|simpl in Hn; lia].
      destruct Hloop as (pre & rest & -> & Hpre & Hk).
      exists (String c pre), rest. simpl. rewrite Hc, Hpre. auto.
  - intros (pre & rest & -> & Hpre & Hk).
    destruct pre as [|c pre]; [left; exact Hk|]. right.
    simpl in Hpre. apply andb_true_iff in Hpre as [Hc Hpre].
    simpl. rewrite Hc. simpl.
    destruct n as [|n']; [simpl in Hn; lia|].
    apply IH; [simpl in Hn; lia|]. eauto.
Qed.

Lemma accept_star_dot (s : string) (k : string -> bool) :
  accept (Star Dot) s k = true <->
  exists pre rest : string,
    s = (pre ++ rest)%string /\ no_newline pre = true /\ k rest = true.
Proof. apply star_dot_loop. lia. Qed.

Lemma append_assoc (a b c : string) :
  ((a ++ b) ++ c)%string = (a ++ (b ++ c))%string.
Proof. induction a as [|x a IH]; simpl; [reflexivity | rewrite IH; reflexivity]. Qed.

(** What the default pattern accepts, read off the pattern. *)
Lemma default_regex_names (s : string) :
  re_match default_regex s = true <->
  exists pre : string,
    no_newline pre = true /\
    (s = (pre ++ "kernel:0")%string \/
     s = (pre ++ "weight:0")%string \/
     s = ((pre ++ "kernel:0") ++ String newline "")%string \/
     s = ((pre ++ "weight:0") ++ String newline "")%string).
Proof.
  unfold re_match, default_regex.
  change (accept (Seq (Star Dot) ?r) s ?k)
    with (accept (Star Dot) s (fun rest => accept r rest k)).
  rewrite accept_star_dot. split.
  - intros (pre & rest & -> & Hpre & Hk). exists pre. split; [exact Hpre|].
    change (accept (Seq (Alt ?a ?b) ?r) rest ?k)
      with (accept a rest (fun t => accept r t k) ||
            accept b rest (fun t => accept r t k)) in Hk.
    apply orb_true_iff in Hk.
    destruct Hk as [Hk | Hk];
      apply accept_lit in Hk as (r1 & -> & Hk);
      change (accept (Seq (lit ":0") Dollar) r1 ?k)
        with (accept (lit ":0") r1 (fun t => accept Dollar t k)) in Hk;
      apply accept_lit in Hk as (r2 & -> & Hk);
      apply accept_dollar in Hk as [[-> | ->] _];
      rewrite ?append_assoc; simpl; tauto.
  - intros (pre & Hpre & Hs).
    assert (Hgoal : exists rest : string,
               s = (pre ++ rest)%string /\
               (rest = "kernel:0"%string \/ rest = "weight:0"%string \/
                rest = String.append "kernel:0" (String newline "") \/
                rest = String.append "weight:0" (String newline ""))).
    { destruct Hs as [-> | [-> | [-> | ->]]]; rewrite ?append_assoc; eauto 6. }
    destruct Hgoal as (rest & -> & Hrest).
    exists pre, rest. split; [reflexivity|]. split; [exact Hpre|].
    destruct Hrest as [-> | [-> | [-> | ->]]]; reflexivity.
Qed.

(** X19.  The default pattern [.*(kernel|weight):0$] of [reg_l2_loss],
    matched as [re.match] does, accepts a name exactly when the name is a
    part without a newline followed by 'kernel:0' or 'weight:0' and at most
    one newline; this is the test [kernel_or_weight] makes, so the
    regularization loss is the same with either. *)
Theorem default_regex_is_kernel_or_weight :
  (forall s : string,
     re_match default_regex s = true <->
     exists pre : string,
       no_newline pre = true /\
       (s = (pre ++ "kernel:0")%string \/
        s = (pre ++ "weight:0")%string \/
        s = ((pre ++ "kernel:0") ++ String newline "")%string \/
        s = ((pre ++ "weight:0") ++ String newline "")%string)) /\
  (forall s : string, re_match default_regex s = kernel_or_weight s) /\
  (forall (weight_decay : R) (trainable_variables : list variable),
     reg_l2_loss weight_decay (re_match default_regex) trainable_variables =
     reg_l2_loss weight_decay kernel_or_weight trainable_variables) /\
  re_match default_regex "efficientnet-b0/stem/conv2d/kernel:0" = true /\
  re_match default_regex "box_net/box-predict/depthwise_weight:0" = true /\
  re_match default_regex "efficientnet-b0/stem/conv2d/bias:0" = false /\
  re_match default_regex "efficientnet-b0/stem/tpu_batch_normalization/gamma:0"
  = false /\
  re_match default_regex "kernel:0/extra" = false.
Proof.
  assert (Hsame : forall s : string,
             re_match default_regex s = kernel_or_weight s).
  { intros s.
    destruct (re_match default_regex s) eqn:Hre;
      destruct (kernel_or_weight s) eqn:Hk; try reflexivity; exfalso.
    - apply default_regex_names in Hre. apply kernel_or_weight_names in Hre.
      congruence.
    - apply kernel_or_weight_names in Hk. apply default_regex_names in Hk.
      congruence. }
  split; [exact default_regex_names|]. split; [exact Hsame|]. split.
  - intros weight_decay trainable_variables. unfold reg_l2_loss.
    rewrite (filter_ext (fun v => re_match default_regex (var_name v))
               (fun v => kernel_or_weight (var_name v))); [reflexivity|].
    intros v. apply Hsame.
  - repeat split; reflexivity.
Qed.

(** * Further properties of the model function *)

(** X20.  PREDICT mode makes the forward pass and nothing else: whatever the
    labels, the schedule, the optimizer and the checkpoints are, the run
    records the image summary and the forward pass and returns the raw
    outputs, or the exception of the forward pass. *)
Theorem predict_mode_runs_forward_pass_only
    (iou_loss : tensor -> tensor -> string -> result tensor) (hvd_size : Z)
    (features : tensor) (l : labels) (p : params)
    (model : tensor -> params -> result model_outputs) (global_step : Z) :
  run (_model_fn iou_loss hvd_size features l PREDICT p model global_step) =
  ([ImageSummary; ForwardPass],
   match model features p with
   | Ok outputs =>
       Ok (EstimatorSpec features (out_cls outputs) (out_box outputs))
   | Raise e => Raise e
   end).
Proof.
  unfold run, _model_fn, bindM, emit, call. simpl.
  destruct (model features p); reflexivity.
Qed.

Section ModelFnModes.

Variable iou_loss : tensor -> tensor -> string -> result tensor.
Variable hvd_size : Z.

Lemma choose_scaffold_trace (m : mode) (p : params) (tr : list event) :
  fst (choose_scaffold m p tr) = tr.
Proof.
  unfold choose_scaffold.
  destruct (truthy_str (py_or (ckpt p) (backbone_ckpt p)) && is_train m).
  - destruct (truthy_str (ckpt p) && truthy_str (backbone_ckpt p));
      [reflexivity|].
    destruct (py_or (ckpt p) (backbone_ckpt p)); reflexivity.
  - destruct (is_eval m && truthy_float (moving_average_decay p)); reflexivity.
Qed.

Lemma py_or_truthy (a b : option string) :
  truthy_str (py_or a b) = truthy_str a || truthy_str b.
Proof.
  unfold py_or. destruct (truthy_str a) eqn:Ha; [exact Ha | reflexivity].
Qed.

(** X21.  The scaffold is chosen without any call into the graph.  It
    raises exactly in TRAIN mode with both checkpoints set.  In TRAIN mode a
    single checkpoint is restored, the full one under the scope '/', and
    without a checkpoint there is no scaffold, moving average or not; in
    EVAL mode the moving averages are restored exactly when
    [moving_average_decay] is set, checkpoints or not. *)
Theorem scaffold_selection (m : mode) (p : params) (tr : list event) :
  fst (choose_scaffold m p tr) = tr /\
  ((exists e : exn, snd (choose_scaffold m p tr) = Raise e) <->
   m = TRAIN /\ truthy_str (ckpt p) = true /\
   truthy_str (backbone_ckpt p) = true) /\
  (m = TRAIN -> truthy_str (ckpt p) = false ->
   truthy_str (backbone_ckpt p) = false ->
   snd (choose_scaffold m p tr) = Ok None) /\
  (forall path : string,
     m = TRAIN -> ckpt p = Some path -> truthy_str (ckpt p) = true ->
     truthy_str (backbone_ckpt p) = false ->
     snd (choose_scaffold m p tr) = Ok (Some (RestoreCheckpoint path "/" "/"))) /\
  (m = EVAL ->
   snd (choose_scaffold m p tr) =
   Ok (if truthy_float (moving_average_decay p)
       then Some RestoreMovingAverage else None)) /\
  (m = PREDICT -> snd (choose_scaffold m p tr) = Ok None).
Proof.
  split; [apply choose_scaffold_trace|].
  unfold choose_scaffold. rewrite py_or_truthy.
  split; [|repeat split].
  - split.
    + intros (e & He).
      destruct m; simpl in He; rewrite ?andb_false_r in He; simpl in He.
      * destruct (truthy_str (ckpt p)) eqn:Hc,
          (truthy_str (backbone_ckpt p)) eqn:Hb; simpl in He;
          try (unfold py_or in He; rewrite ?Hc in He);
          try (destruct (ckpt p); discriminate He);
          try (destruct (backbone_ckpt p); discriminate He);
          try discriminate He.
        auto.
      * destruct (truthy_float (moving_average_decay p)); discriminate He.
      * discriminate He.
    + intros (-> & Hc & Hb). rewrite Hc, Hb. simpl. eauto.
  - intros -> Hc Hb. rewrite Hc, Hb. reflexivity.
  - intros path -> Hpath Hc Hb. rewrite Hc, Hb. simpl.
    unfold py_or. rewrite Hc, Hpath. reflexivity.
  - intros ->. simpl. rewrite andb_false_r. simpl.
    destruct (truthy_float (moving_average_decay p)); reflexivity.
  - intros ->. simpl. rewrite andb_false_r. reflexivity.
Qed.

Lemma extra_hooks_trace (p : params) (tr : list event) :
  exists (s : list event) (hooks : list hook_t),
    (if negb (String.eqb (strategy p) "tpu") then
       _ <~ emit MakeHooks ;; ret [ProfilerHook; OomReportingHook]
     else ret []) tr = (tr ++ s, Ok hooks) /\
    existsb builds_gradients s = false /\
    (hooks = [] <-> strategy p = "tpu"%string).
Proof.
  destruct (String.eqb_spec (strategy p) "tpu") as [Ht|Ht]; simpl.
  - exists [], []. unfold ret. rewrite app_nil_r. repeat split; auto.
  - exists [MakeHooks], [ProfilerHook; OomReportingHook].
    repeat split; [discriminate | contradiction].
Qed.

Lemma build_estimator_spec_eval (p : params) (learning_rate total_loss : R)
    (tr : list event) :
  exists (s : list event) (hooks : list hook_t),
    build_estimator_spec hvd_size EVAL p learning_rate total_loss tr =
    (tr ++ s,
     Ok (TPUEstimatorSpec EVAL total_loss None true
           (if truthy_float (moving_average_decay p)
            then Some RestoreMovingAverage else None) hooks)) /\
    existsb builds_gradients s = false /\ In GenerateDetections s /\
    (hooks = [] <-> strategy p = "tpu"%string).
Proof.
  unfold build_estimator_spec.
  destruct (report_summaries_trace EVAL p tr) as (s1 & Hs1 & Hrep).
  destruct (extra_hooks_trace p ((tr ++ s1) ++ [GenerateDetections]))
    as (s2 & hooks & Hhooks & Hg2 & Hh).
  exists (s1 ++ [GenerateDetections] ++ s2), hooks. split; [|split; [|split]].
  - erewrite bindM_ok by exact Hrep. cbv zeta.
    unfold train_step. cbn [is_train is_eval when].
    erewrite bindM_ok by reflexivity.
    erewrite bindM_ok by reflexivity.
    erewrite bindM_ok.
    2:{ pose proof (scaffold_selection EVAL p
                      ((tr ++ s1) ++ [GenerateDetections]))
          as (Hfst & _ & _ & _ & Hev & _).
        specialize (Hev eq_refl).
        destruct (choose_scaffold EVAL p ((tr ++ s1) ++ [GenerateDetections]))
          as [tr' r]. simpl in Hfst, Hev. subst. reflexivity. }
    erewrite bindM_ok by exact Hhooks.
    unfold ret. cbn [fst snd app].
    rewrite <- !app_assoc. reflexivity.
  - rewrite !existsb_app, (cheap_builds_no_gradients s1 Hs1), Hg2.
    reflexivity.
  - apply in_or_app. right. left. reflexivity.
  - exact Hh.
Qed.

(** X22.  EVAL mode, when the graph builds, returns the loss
    [det_loss + reg_l2_loss] with no train op and with evaluation metrics;
    it generates detections, builds no gradient, and looks neither at the
    optimizer name nor at the two checkpoints. *)
Theorem eval_mode_builds_no_gradients
    (features : tensor) (l : labels) (p p' : params)
    (model : tensor -> params -> result model_outputs) (global_step : Z)
    (outputs : model_outputs) (lr : R) (det : detection_losses) (reg : R)
    (Hmodel : model features p = Ok outputs)
    (Hupd : update_learning_rate_schedule_parameters p = Ok p')
    (Hlr : learning_rate_schedule p' global_step = Ok lr)
    (Hdet : detection_loss iou_loss (out_cls outputs) (out_box outputs) l p' =
            Ok det)
    (Hreg : reg_l2_loss (Q2R (weight_decay p')) kernel_or_weight
              (out_variables outputs) = Ok reg) :
  exists (tr : list event) (hooks : list hook_t),
    run (_model_fn iou_loss hvd_size features l EVAL p model global_step) =
    (tr, Ok (TPUEstimatorSpec EVAL (total_loss det + reg) None true
               (if truthy_float (moving_average_decay p)
                then Some RestoreMovingAverage else None) hooks)) /\
    existsb builds_gradients tr = false /\ In GenerateDetections tr.
Proof.
  rewrite (model_fn_losses_built iou_loss hvd_size features l EVAL p p' model
             global_step outputs lr det reg) by (assumption || discriminate).
  destruct (build_estimator_spec_eval p' lr (total_loss det + reg)
              [ImageSummary; ForwardPass; UpdateSchedule; LearningRate;
               DetectionLoss; RegularizationLoss])
    as (s & hooks & Hrun & Hg & Hin & _).
  assert (Hmad : moving_average_decay p' = moving_average_decay p).
  { unfold update_learning_rate_schedule_parameters in Hupd.
    destruct (Z.eqb (effective_batch_size p) 0); [discriminate|].
    injection Hupd as <-. reflexivity. }
  rewrite Hmad in Hrun.
  eexists. exists hooks. split; [exact Hrun|]. split.
  - rewrite existsb_app, Hg. reflexivity.
  - apply in_or_app. right. exact Hin.
Qed.

End ModelFnModes.

Lemma eval_mode_builds_no_gradients_witness :
  exists (tr : list event) (hooks : list hook_t) (loss : R),
    run (_model_fn constant_iou_loss 1 [0] example_labels EVAL
           rmsprop_params example_model 0) =
    (tr, Ok (TPUEstimatorSpec EVAL loss None true (Some RestoreMovingAverage)
               hooks)) /\
    existsb builds_gradients tr = false /\ In GenerateDetections tr.
Proof.
  destruct (example_graph_builds rmsprop_params 0)
    as (p' & lr & det & reg & Hupd & Hlr & Hdet & Hreg);
    [reflexivity | reflexivity | vm_compute; discriminate | reflexivity |].
  destruct (eval_mode_builds_no_gradients constant_iou_loss 1 [0]
              example_labels rmsprop_params p' example_model 0
              (mkOutputs example_cls_outputs example_box_outputs
                 [mkVariable "conv/kernel:0" [1]; mkVariable "conv/bias:0" [2]])
              lr det reg eq_refl Hupd Hlr Hdet Hreg)
    as (tr & hooks & Hrun & Hrest).
  exists tr, hooks, (total_loss det + reg). split; [exact Hrun | exact Hrest].
Defined.

(** ** Dispatch on names *)

Lemma prefix_append (n b : string) : prefix n (n ++ b) = true.
Proof.
  induction n as [|c n IH]; simpl; [destruct b; reflexivity|].
  destruct (ascii_dec c c); [exact IH | contradiction].
Qed.

Lemma contains_cons (n : string) (c : ascii) (h : string) :
  contains n (String c h) = (prefix n (String c h) || contains n h).
Proof.
  change (contains n (String c h))
    with (if prefix n (String c h) then true else contains n h).
  destruct (prefix n (String c h)); reflexivity.
Qed.

Lemma contains_prefix (n h : string) : prefix n h = true -> contains n h = true.
Proof.
  intros H. destruct h as [|c h].
  - destruct n; [reflexivity | discriminate H].
  - rewrite contains_cons, H. reflexivity.
Qed.

Lemma contains_middle (a n b : string) : contains n (a ++ n ++ b) = true.
Proof.
  induction a as [|c a IH].
  - change (("" ++ n ++ b)%string) with ((n ++ b)%string).
    apply contains_prefix, prefix_append.
  - change ((String c a ++ n ++ b)%string) with (String c (a ++ n ++ b)).
    rewrite contains_cons, IH. apply orb_true_r.
Qed.

(** X23.  A model name with 'retinanet' anywhere in it selects RetinaNet,
    also when 'efficientdet' occurs in it as well; a name with
    'efficientdet' and without 'retinanet' selects EfficientDet; and
    [get_model_fn] accepts exactly the names [get_model_arch] accepts. *)
Theorem model_name_dispatch (a b : string) :
  get_model_fn (a ++ "retinanet" ++ b) = Ok retinanet_model_fn /\
  get_model_arch (a ++ "retinanet" ++ b) = Ok retinanet /\
  (contains "retinanet" (a ++ "efficientdet" ++ b) = false ->
   get_model_fn (a ++ "efficientdet" ++ b) = Ok efficientdet_model_fn /\
   get_model_arch (a ++ "efficientdet" ++ b) = Ok efficientdet) /\
  (forall name : string,
     is_ok (get_model_fn name) = is_ok (get_model_arch name)).
Proof.
  unfold get_model_fn, get_model_arch. repeat split.
  - rewrite contains_middle. reflexivity.
  - rewrite contains_middle. reflexivity.
  - rewrite H, contains_middle. reflexivity.
  - rewrite H, contains_middle. reflexivity.
  - intros name. destruct (contains "retinanet" name); [reflexivity|].
    destruct (contains "efficientdet" name); reflexivity.
Qed.

Lemma lower_ascii_idempotent (c : ascii) :
  lower_ascii (lower_ascii c) = lower_ascii c.
Proof.
  destruct c as [[] [] [] [] [] [] [] []]; reflexivity.
Qed.

Lemma lower_idempotent (s : string) : lower (lower s) = lower s.
Proof.
  induction s as [|c s IH]; simpl; [reflexivity|].
  rewrite lower_ascii_idempotent, IH. reflexivity.
Qed.

(** X24.  The optimizer name counts only up to the case of its letters:
    the train op built for a name is the one built for its lower-case form,
    so that 'SGD' and 'Adam' are accepted. *)
Theorem optimizer_name_ignores_case (p : params)
    (learning_rate total_loss : R) (tr : list event) :
  build_train_op p learning_rate total_loss tr =
  build_train_op (set_optimizer p (lower (optimizer p))) learning_rate
    total_loss tr /\
  is_ok (snd (build_train_op (set_optimizer p "SGD") learning_rate
                total_loss tr)) = true /\
  is_ok (snd (build_train_op (set_optimizer p "Adam") learning_rate
                total_loss tr)) = true.
Proof.
  split; [|split].
  - unfold build_train_op. simpl. rewrite lower_idempotent. reflexivity.
  - destruct (build_train_op_ok (set_optimizer p "SGD") learning_rate
                total_loss tr) as (s & built & -> & _);
      [left; reflexivity | reflexivity].
  - destruct (build_train_op_ok (set_optimizer p "Adam") learning_rate
                total_loss tr) as (s & built & -> & _);
      [right; reflexivity | reflexivity].
Qed.

Section ModelFnTrain.

Variable iou_loss : tensor -> tensor -> string -> result tensor.
Variable hvd_size : Z.

Lemma choose_scaffold_train_ok (p : params) (tr : list event) :
  truthy_str (ckpt p) && truthy_str (backbone_ckpt p) = false ->
  exists sc : option scaffold_t,
    choose_scaffold TRAIN p tr = (tr, Ok sc) /\
    (sc = None <->
     truthy_str (ckpt p) = false /\ truthy_str (backbone_ckpt p) = false).
Proof.
  intros Hnot. unfold choose_scaffold. rewrite py_or_truthy, Hnot.
  unfold py_or.
  destruct (truthy_str (ckpt p)) eqn:Hc.
  - destruct (ckpt p) as [path|]; [|discriminate Hc]. simpl.
    eexists. split; [reflexivity|]. split; [discriminate|].
    intros [H _]. discriminate H.
  - destruct (truthy_str (backbone_ckpt p)) eqn:Hb; simpl.
    + destruct (backbone_ckpt p) as [path|]; [|discriminate Hb].
      eexists. split; [reflexivity|]. split; [discriminate|].
      intros [_ H]. discriminate H.
    + destruct (truthy_float (moving_average_decay p)); simpl;
        exists None; repeat split.
Qed.

(** X25.  TRAIN mode, when the graph builds, the optimizer is known and the
    two checkpoints are not both set, returns the loss
    [det_loss + reg_l2_loss] with a train op and without evaluation metrics;
    gradients are built, and a scaffold is set exactly when one of the
    checkpoints is given. *)
Theorem train_mode_builds_train_op
    (features : tensor) (l : labels) (p p' : params)
    (model : tensor -> params -> result model_outputs) (global_step : Z)
    (outputs : model_outputs) (lr : R) (det : detection_losses) (reg : R)
    (Hmodel : model features p = Ok outputs)
    (Hupd : update_learning_rate_schedule_parameters p = Ok p')
    (Hlr : learning_rate_schedule p' global_step = Ok lr)
    (Hdet : detection_loss iou_loss (out_cls outputs) (out_box outputs) l p' =
            Ok det)
    (Hreg : reg_l2_loss (Q2R (weight_decay p')) kernel_or_weight
              (out_variables outputs) = Ok reg)
    (Hopt : lower (optimizer p) = "sgd"%string \/
            lower (optimizer p) = "adam"%string)
    (Hckpt : truthy_str (ckpt p) && truthy_str (backbone_ckpt p) = false) :
  exists (tr : list event) (train_op : train_op_t)
         (scaffold_fn : option scaffold_t) (hooks : list hook_t),
    run (_model_fn iou_loss hvd_size features l TRAIN p model global_step) =
    (tr, Ok (TPUEstimatorSpec TRAIN (total_loss det + reg) (Some train_op)
               false scaffold_fn hooks)) /\
    existsb builds_gradients tr = true /\
    (scaffold_fn = None <->
     truthy_str (ckpt p) = false /\ truthy_str (backbone_ckpt p) = false).
Proof.
  destruct (update_keeps_settings p p' Hupd) as (Ho & Hc & Hb & _).
  rewrite (model_fn_losses_built iou_loss hvd_size features l TRAIN p p' model
             global_step outputs lr det reg) by (assumption || discriminate).
  unfold build_estimator_spec.
  set (tr0 := [ImageSummary; ForwardPass; UpdateSchedule; LearningRate;
               DetectionLoss; RegularizationLoss]).
  destruct (report_summaries_trace TRAIN p' tr0) as (s1 & Hs1 & Hrep).
  erewrite bindM_ok by exact Hrep. cbv zeta.
  destruct (build_train_op_ok p'
              (if String.eqb (strategy p') "horovod"
               then lr * IZR hvd_size else lr)
              (total_loss det + reg) (tr0 ++ s1))
    as (s2 & [train_op hooks] & Hbuild & Hgrad); [congruence|].
  destruct (choose_scaffold_train_ok p' ((tr0 ++ s1) ++ s2))
    as (sc & Hsc & Hnone); [congruence|].
  destruct (extra_hooks_trace p' ((tr0 ++ s1) ++ s2))
    as (s3 & extra & Hextra & _ & _).
  exists (((tr0 ++ s1) ++ s2) ++ s3), train_op, sc, (hooks ++ extra).
  split; [|split].
  - erewrite bindM_ok.
    2:{ unfold train_step. cbn [is_train].
        erewrite bindM_ok by exact Hbuild. reflexivity. }
    cbn [is_eval when fst snd].
    erewrite bindM_ok by reflexivity.
    erewrite bindM_ok by exact Hsc.
    erewrite bindM_ok by exact Hextra.
    reflexivity.
  - rewrite !existsb_app, Hgrad. rewrite orb_true_r. reflexivity.
  - rewrite <- Hc, <- Hb. exact Hnone.
Qed.

End ModelFnTrain.

Lemma train_mode_builds_train_op_witness :
  exists (tr : list event) (train_op : train_op_t)
         (scaffold_fn : option scaffold_t) (hooks : list hook_t) (loss : R),
    run (_model_fn constant_iou_loss 1 [0] example_labels TRAIN
           example_params example_model 0) =
    (tr, Ok (TPUEstimatorSpec TRAIN loss (Some train_op) false scaffold_fn
               hooks)) /\
    existsb builds_gradients tr = true /\ scaffold_fn = None.
Proof.
  destruct (example_graph_builds example_params 0)
    as (p' & lr & det & reg & Hupd & Hlr & Hdet & Hreg);
    [reflexivity | reflexivity | vm_compute; discriminate | reflexivity |].
  destruct (train_mode_builds_train_op constant_iou_loss 1 [0]
              example_labels example_params p' example_model 0
              (mkOutputs example_cls_outputs example_box_outputs
                 [mkVariable "conv/kernel:0" [1]; mkVariable "conv/bias:0" [2]])
              lr det reg eq_refl Hupd Hlr Hdet Hreg
              (or_introl eq_refl) eq_refl)
    as (tr & train_op & sc & hooks & Hrun & Hgrad & Hsc).
  exists tr, train_op, sc, hooks, (total_loss det + reg).
  split; [exact Hrun|]. split; [exact Hgrad|].
  apply Hsc. split; reflexivity.
Defined.
